(** * splash/browser_tab.py: the per-tab controller [BrowserTab]

    A shallow embedding of [splash.browser_tab.BrowserTab] and of the
    [_BrowserTabLogger] it logs through.

    - The Python object and the Qt objects it drives are one record,
      [BrowserTab]; methods are computations in a state-and-exception
      monad [M] over that record, and an exception keeps the state the
      method had reached when it was raised.
    - Calls on collaborators whose state is not modelled (the logger, the
      HAR log, the network manager, the main frame, the Deferred) are
      recorded, in program order, in the field [trace].
    - A QTimer, a QNetworkReply and a Python callable are represented by
      their object identity (a number).  What a callable does when it is
      called is supplied by the environment ([behaviour]): it may look at
      the tab, it may re-enter the tab through [wait], and it returns
      normally.
    - [_active_timers] is a [gset].  [_cancel_on_redirect_timers], a
      [WeakKeyDictionary], is a [gmap]: a timer leaves it only when the
      program removes it, since [_active_timers] keeps every timer that is
      a key alive.
    - HAR records are JSON trees with dictionaries as [gmap string]; trees
      are values, so two entries never share a sub-record.
    - Qt is an event loop ([step], [exec]); time is a clock that [Tick]
      advances.
    - The frame tree [iframes_info] reads is a tree of records
      ([QWebFrame]); the JavaScript console and the scripts
      [inject_js_libs] injects have state of their own ([js_page], the list
      of the scripts the frame has evaluated), apart from [BrowserTab]. *)

From Stdlib Require Import ZArith Ascii String List.
From stdpp Require Import base gmap sets list strings pretty.

Set Warnings "-register-all,-clear-no-such-hyp".
Local Open Scope string_scope.
Local Open Scope list_scope.
Local Open Scope Z_scope.

(** ** Python and Qt values *)

Definition callable := nat.
Definition timer := nat.
Definition reply := nat.

(** The values [wait] may receive as [onredirect]. *)
Inductive pyobj :=
| PyNone
| PyBool (b : bool)
| PyInt (z : Z)
| PyStr (s : string)
| PyCallable (f : callable).

(** [if o:] *)
Definition truthy (o : pyobj) : bool :=
  match o with
  | PyNone => false
  | PyBool b => b
  | PyInt z => negb (z =? 0)
  | PyStr s => negb (String.eqb s "")
  | PyCallable _ => true
  end.

(** [callable(o)] *)
Definition is_callable (o : pyobj) : option callable :=
  match o with
  | PyCallable f => Some f
  | _ => None
  end.

(** [if baseurl:] for an argument that is [None] or a [str]. *)
Definition str_truthy (o : option string) : bool :=
  match o with
  | None => false
  | Some s => negb (String.eqb s "")
  end.

(** HAR records, as the JSON-like trees Python holds them in. *)
Inductive json :=
| JNull
| JBool (b : bool)
| JNum (z : Z)
| JStr (s : string)
| JList (l : list json)
| JDict (d : gmap string json).

(** A [QNetworkRequest] as [_create_request] and [go] fill it. *)
Record request := {
  req_url : string;
  req_raw_headers : list (string * string);
  req_originating_object : bool  (* setOriginatingObject(mainFrame) *)
}.

(** The place in [BrowserTab] a callable is called from. *)
Inductive call_site :=
| AtLoadFinishedCallback         (* callback() in _on_goto_load_finished *)
| AtLoadFinishedErrback          (* errback() in _on_goto_load_finished *)
| AtWaitTimeout (t : timer)      (* callback() in _on_wait_timeout(timer=t) *)
| AtCancelTimer (t : timer).     (* errback() in _cancel_timer(timer=t) *)

(** Calls on collaborators, in the order the program makes them. *)
Inductive event :=
| LoggerLog (message : string) (min_level : option Z)
| StoreHarTiming (name : string)
| NetworkManagerGet (r : reply) (req : request)
| FrameLoad (req : request) (meth : Z) (body : option string)
| FrameSetContent (data mimeType baseurl : string)
| ReplyClose (r : reply)
| ReplyDeleteLater (r : reply)
| DeferredCallback (result : pyobj)
| DeferredErrback (error : pyobj)
| Invoke (site : call_site) (f : callable)
| StopScheduledPageRefresh
| ViewStop
| ViewClose
| PageDeleteLater
| ViewDeleteLater.

Inductive exn :=
| NotImplementedError
| KeyError (key : string)
| AlreadyCalledError     (* twisted.internet.defer *)
| UnicodeDecodeError
| TypeError
| AttributeError
| RuntimeError.          (* a wrapped Qt object that has been deleted *)

(** A [QTimer]: the callable bound into the slot connected to [timeout],
    the interval it was started with, and the instant it is due while it
    runs. *)
Record qtimer := {
  single_shot : bool;
  timeout_slot : option callable;
  interval : Z;
  due : option Z
}.

(** A [QNetworkReply]: what the network has delivered, and the arguments
    bound into the slots connected to [finished]. *)
Record qreply := {
  rp_request : request;
  rp_content_type : string;
  rp_data : string;
  rp_error : option string;
  rp_finished : bool;
  rp_finished_slots : list (callable * callable * string * string)
}.

(** ** The tab *)

Record BrowserTab := {
  verbosity : Z;
  _uid : string;
  deferred_called : bool;                       (* self.deferred.called *)
  _closing : bool;
  _default_headers : option (list (string * string));
  _active_timers : gset timer;
  _cancel_on_redirect_timers : gmap timer pyobj;
  _history : list json;
  _reply : option reply;
  errorInfo : option string;                    (* self.web_page.errorInfo *)
  custom_user_agent : option string;            (* self.web_page.custom_user_agent *)
  loadFinished_slots : list (callable * callable);
  qtimers : gmap timer qtimer;
  replies : gmap reply qreply;
  next_timer : nat;
  next_reply : nat;
  now : Z;
  trace : list event
}.

(** [BrowserTab.__init__] *)
Definition new_tab (verbosity : Z) (uid : string) : BrowserTab := {|
  verbosity := verbosity;
  _uid := uid;
  deferred_called := false;
  _closing := false;
  _default_headers := None;
  _active_timers := ∅;
  _cancel_on_redirect_timers := ∅;
  _history := [];
  _reply := None;
  errorInfo := None;
  custom_user_agent := None;
  loadFinished_slots := [];
  qtimers := ∅;
  replies := ∅;
  next_timer := 0;
  next_reply := 0;
  now := 0;
  trace := []
|}.

(** Field updates. *)

Definition set_trace (f : list event → list event) (s : BrowserTab) : BrowserTab := {|
  verbosity := verbosity s;
  _uid := _uid s;
  deferred_called := deferred_called s;
  _closing := _closing s;
  _default_headers := _default_headers s;
  _active_timers := _active_timers s;
  _cancel_on_redirect_timers := _cancel_on_redirect_timers s;
  _history := _history s;
  _reply := _reply s;
  errorInfo := errorInfo s;
  custom_user_agent := custom_user_agent s;
  loadFinished_slots := loadFinished_slots s;
  qtimers := qtimers s;
  replies := replies s;
  next_timer := next_timer s;
  next_reply := next_reply s;
  now := now s;
  trace := f (trace s)
|}.

Definition set_deferred_called (v : bool) (s : BrowserTab) : BrowserTab := {|
  verbosity := verbosity s;
  _uid := _uid s;
  deferred_called := v;
  _closing := _closing s;
  _default_headers := _default_headers s;
  _active_timers := _active_timers s;
  _cancel_on_redirect_timers := _cancel_on_redirect_timers s;
  _history := _history s;
  _reply := _reply s;
  errorInfo := errorInfo s;
  custom_user_agent := custom_user_agent s;
  loadFinished_slots := loadFinished_slots s;
  qtimers := qtimers s;
  replies := replies s;
  next_timer := next_timer s;
  next_reply := next_reply s;
  now := now s;
  trace := trace s
|}.

Definition set_closing (v : bool) (s : BrowserTab) : BrowserTab := {|
  verbosity := verbosity s;
  _uid := _uid s;
  deferred_called := deferred_called s;
  _closing := v;
  _default_headers := _default_headers s;
  _active_timers := _active_timers s;
  _cancel_on_redirect_timers := _cancel_on_redirect_timers s;
  _history := _history s;
  _reply := _reply s;
  errorInfo := errorInfo s;
  custom_user_agent := custom_user_agent s;
  loadFinished_slots := loadFinished_slots s;
  qtimers := qtimers s;
  replies := replies s;
  next_timer := next_timer s;
  next_reply := next_reply s;
  now := now s;
  trace := trace s
|}.

Definition set_default_headers_field (v : option (list (string * string))) (s : BrowserTab) : BrowserTab := {|
  verbosity := verbosity s;
  _uid := _uid s;
  deferred_called := deferred_called s;
  _closing := _closing s;
  _default_headers := v;
  _active_timers := _active_timers s;
  _cancel_on_redirect_timers := _cancel_on_redirect_timers s;
  _history := _history s;
  _reply := _reply s;
  errorInfo := errorInfo s;
  custom_user_agent := custom_user_agent s;
  loadFinished_slots := loadFinished_slots s;
  qtimers := qtimers s;
  replies := replies s;
  next_timer := next_timer s;
  next_reply := next_reply s;
  now := now s;
  trace := trace s
|}.

Definition set_active_timers (f : gset timer → gset timer) (s : BrowserTab) : BrowserTab := {|
  verbosity := verbosity s;
  _uid := _uid s;
  deferred_called := deferred_called s;
  _closing := _closing s;
  _default_headers := _default_headers s;
  _active_timers := f (_active_timers s);
  _cancel_on_redirect_timers := _cancel_on_redirect_timers s;
  _history := _history s;
  _reply := _reply s;
  errorInfo := errorInfo s;
  custom_user_agent := custom_user_agent s;
  loadFinished_slots := loadFinished_slots s;
  qtimers := qtimers s;
  replies := replies s;
  next_timer := next_timer s;
  next_reply := next_reply s;
  now := now s;
  trace := trace s
|}.

Definition set_cancel_on_redirect_timers (f : gmap timer pyobj → gmap timer pyobj) (s : BrowserTab) : BrowserTab := {|
  verbosity := verbosity s;
  _uid := _uid s;
  deferred_called := deferred_called s;
  _closing := _closing s;
  _default_headers := _default_headers s;
  _active_timers := _active_timers s;
  _cancel_on_redirect_timers := f (_cancel_on_redirect_timers s);
  _history := _history s;
  _reply := _reply s;
  errorInfo := errorInfo s;
  custom_user_agent := custom_user_agent s;
  loadFinished_slots := loadFinished_slots s;
  qtimers := qtimers s;
  replies := replies s;
  next_timer := next_timer s;
  next_reply := next_reply s;
  now := now s;
  trace := trace s
|}.

Definition set_history (f : list json → list json) (s : BrowserTab) : BrowserTab := {|
  verbosity := verbosity s;
  _uid := _uid s;
  deferred_called := deferred_called s;
  _closing := _closing s;
  _default_headers := _default_headers s;
  _active_timers := _active_timers s;
  _cancel_on_redirect_timers := _cancel_on_redirect_timers s;
  _history := f (_history s);
  _reply := _reply s;
  errorInfo := errorInfo s;
  custom_user_agent := custom_user_agent s;
  loadFinished_slots := loadFinished_slots s;
  qtimers := qtimers s;
  replies := replies s;
  next_timer := next_timer s;
  next_reply := next_reply s;
  now := now s;
  trace := trace s
|}.

Definition set_reply (v : option reply) (s : BrowserTab) : BrowserTab := {|
  verbosity := verbosity s;
  _uid := _uid s;
  deferred_called := deferred_called s;
  _closing := _closing s;
  _default_headers := _default_headers s;
  _active_timers := _active_timers s;
  _cancel_on_redirect_timers := _cancel_on_redirect_timers s;
  _history := _history s;
  _reply := v;
  errorInfo := errorInfo s;
  custom_user_agent := custom_user_agent s;
  loadFinished_slots := loadFinished_slots s;
  qtimers := qtimers s;
  replies := replies s;
  next_timer := next_timer s;
  next_reply := next_reply s;
  now := now s;
  trace := trace s
|}.

Definition set_errorInfo (v : option string) (s : BrowserTab) : BrowserTab := {|
  verbosity := verbosity s;
  _uid := _uid s;
  deferred_called := deferred_called s;
  _closing := _closing s;
  _default_headers := _default_headers s;
  _active_timers := _active_timers s;
  _cancel_on_redirect_timers := _cancel_on_redirect_timers s;
  _history := _history s;
  _reply := _reply s;
  errorInfo := v;
  custom_user_agent := custom_user_agent s;
  loadFinished_slots := loadFinished_slots s;
  qtimers := qtimers s;
  replies := replies s;
  next_timer := next_timer s;
  next_reply := next_reply s;
  now := now s;
  trace := trace s
|}.

Definition set_custom_user_agent (v : option string) (s : BrowserTab) : BrowserTab := {|
  verbosity := verbosity s;
  _uid := _uid s;
  deferred_called := deferred_called s;
  _closing := _closing s;
  _default_headers := _default_headers s;
  _active_timers := _active_timers s;
  _cancel_on_redirect_timers := _cancel_on_redirect_timers s;
  _history := _history s;
  _reply := _reply s;
  errorInfo := errorInfo s;
  custom_user_agent := v;
  loadFinished_slots := loadFinished_slots s;
  qtimers := qtimers s;
  replies := replies s;
  next_timer := next_timer s;
  next_reply := next_reply s;
  now := now s;
  trace := trace s
|}.

Definition set_loadFinished_slots (f : list (callable * callable) → list (callable * callable)) (s : BrowserTab) : BrowserTab := {|
  verbosity := verbosity s;
  _uid := _uid s;
  deferred_called := deferred_called s;
  _closing := _closing s;
  _default_headers := _default_headers s;
  _active_timers := _active_timers s;
  _cancel_on_redirect_timers := _cancel_on_redirect_timers s;
  _history := _history s;
  _reply := _reply s;
  errorInfo := errorInfo s;
  custom_user_agent := custom_user_agent s;
  loadFinished_slots := f (loadFinished_slots s);
  qtimers := qtimers s;
  replies := replies s;
  next_timer := next_timer s;
  next_reply := next_reply s;
  now := now s;
  trace := trace s
|}.

Definition set_qtimers (f : gmap timer qtimer → gmap timer qtimer) (s : BrowserTab) : BrowserTab := {|
  verbosity := verbosity s;
  _uid := _uid s;
  deferred_called := deferred_called s;
  _closing := _closing s;
  _default_headers := _default_headers s;
  _active_timers := _active_timers s;
  _cancel_on_redirect_timers := _cancel_on_redirect_timers s;
  _history := _history s;
  _reply := _reply s;
  errorInfo := errorInfo s;
  custom_user_agent := custom_user_agent s;
  loadFinished_slots := loadFinished_slots s;
  qtimers := f (qtimers s);
  replies := replies s;
  next_timer := next_timer s;
  next_reply := next_reply s;
  now := now s;
  trace := trace s
|}.

Definition set_replies (f : gmap reply qreply → gmap reply qreply) (s : BrowserTab) : BrowserTab := {|
  verbosity := verbosity s;
  _uid := _uid s;
  deferred_called := deferred_called s;
  _closing := _closing s;
  _default_headers := _default_headers s;
  _active_timers := _active_timers s;
  _cancel_on_redirect_timers := _cancel_on_redirect_timers s;
  _history := _history s;
  _reply := _reply s;
  errorInfo := errorInfo s;
  custom_user_agent := custom_user_agent s;
  loadFinished_slots := loadFinished_slots s;
  qtimers := qtimers s;
  replies := f (replies s);
  next_timer := next_timer s;
  next_reply := next_reply s;
  now := now s;
  trace := trace s
|}.

Definition set_next_timer (v : nat) (s : BrowserTab) : BrowserTab := {|
  verbosity := verbosity s;
  _uid := _uid s;
  deferred_called := deferred_called s;
  _closing := _closing s;
  _default_headers := _default_headers s;
  _active_timers := _active_timers s;
  _cancel_on_redirect_timers := _cancel_on_redirect_timers s;
  _history := _history s;
  _reply := _reply s;
  errorInfo := errorInfo s;
  custom_user_agent := custom_user_agent s;
  loadFinished_slots := loadFinished_slots s;
  qtimers := qtimers s;
  replies := replies s;
  next_timer := v;
  next_reply := next_reply s;
  now := now s;
  trace := trace s
|}.

Definition set_next_reply (v : nat) (s : BrowserTab) : BrowserTab := {|
  verbosity := verbosity s;
  _uid := _uid s;
  deferred_called := deferred_called s;
  _closing := _closing s;
  _default_headers := _default_headers s;
  _active_timers := _active_timers s;
  _cancel_on_redirect_timers := _cancel_on_redirect_timers s;
  _history := _history s;
  _reply := _reply s;
  errorInfo := errorInfo s;
  custom_user_agent := custom_user_agent s;
  loadFinished_slots := loadFinished_slots s;
  qtimers := qtimers s;
  replies := replies s;
  next_timer := next_timer s;
  next_reply := v;
  now := now s;
  trace := trace s
|}.

Definition set_now (v : Z) (s : BrowserTab) : BrowserTab := {|
  verbosity := verbosity s;
  _uid := _uid s;
  deferred_called := deferred_called s;
  _closing := _closing s;
  _default_headers := _default_headers s;
  _active_timers := _active_timers s;
  _cancel_on_redirect_timers := _cancel_on_redirect_timers s;
  _history := _history s;
  _reply := _reply s;
  errorInfo := errorInfo s;
  custom_user_agent := custom_user_agent s;
  loadFinished_slots := loadFinished_slots s;
  qtimers := qtimers s;
  replies := replies s;
  next_timer := next_timer s;
  next_reply := next_reply s;
  now := v;
  trace := trace s
|}.

(** ** The monad: state, and exceptions that keep the state reached *)

Inductive outcome (A : Type) :=
| Return (a : A)
| Raise (e : exn).
Arguments Return {A} a.
Arguments Raise {A} e.

Definition M (A : Type) : Type := BrowserTab → outcome A * BrowserTab.

#[global] Instance M_ret : MRet M := λ A a s, (Return a, s).
#[global] Instance M_bind : MBind M := λ A B k m s,
  match m s with
  | (Return a, s') => k a s'
  | (Raise e, s') => (Raise e, s')
  end.

Definition raise {A} (e : exn) : M A := λ s, (Raise e, s).
Definition gets {A} (f : BrowserTab → A) : M A := λ s, (Return (f s), s).
Definition modify (f : BrowserTab → BrowserTab) : M unit := λ s, (Return (), f s).
Definition emit (e : event) : M unit := modify (set_trace (λ tr, tr ++ [e])).
Definition when (b : bool) (m : M unit) : M unit := if b then m else mret ().
Definition lift_outcome {A} (o : outcome A) : M A := λ s, (o, s).

(** [for x in l: body x] *)
Fixpoint for_each {A} (l : list A) (body : A → M unit) : M unit :=
  match l with
  | [] => mret ()
  | x :: l' => body x ;; for_each l' body
  end.

(** The state a computation leaves, whether it returns or raises. *)
Definition exec_state {A} (m : M A) (s : BrowserTab) : BrowserTab := (m s).2.

(** ** _BrowserTabLogger *)

(** [_BrowserTabLogger.log(message, min_level)]: the text it hands to
    twisted's [log.msg(message, system='render')], or nothing when the
    verbosity gate drops the message.  The messages of [BrowserTab] are
    byte strings, so the [unicode] branch is not taken. *)
Definition _BrowserTabLogger_log (verbosity : Z) (uid message : string)
    (min_level : option Z) : option string :=
  match min_level with
  | Some l =>
      if verbosity <? l then None else Some ("[" +:+ uid +:+ "] " +:+ message)
  | None => Some ("[" +:+ uid +:+ "] " +:+ message)
  end.

(** [self.logger.log(message, min_level=...)] as [BrowserTab] calls it. *)
Definition logger_log (message : string) (min_level : Z) : M unit :=
  emit (LoggerLog message (Some min_level)).

(** What reaches twisted's log from the calls recorded in a trace. *)
Definition log_output (s : BrowserTab) : list string :=
  omap (λ e, match e with
             | LoggerLog m l => _BrowserTabLogger_log (verbosity s) (_uid s) m l
             | _ => None
             end) (trace s).

(** ** Qt objects *)

Definition QTimer_new : M timer := λ s,
  let t := next_timer s in
  (Return t,
   set_next_timer (S t)
     (set_qtimers (insert t {| single_shot := false; timeout_slot := None;
                            interval := 0; due := None |}) s)).

Definition timer_setSingleShot (t : timer) (b : bool) : M unit :=
  modify (set_qtimers (alter (λ q,
    {| single_shot := b; timeout_slot := timeout_slot q;
       interval := interval q; due := due q |}) t)).

Definition timer_timeout_connect (t : timer) (callback : callable) : M unit :=
  modify (set_qtimers (alter (λ q,
    {| single_shot := single_shot q; timeout_slot := Some callback;
       interval := interval q; due := due q |}) t)).

Definition timer_start (t : timer) (time_ms : Z) : M unit := λ s,
  modify (set_qtimers (alter (λ q,
    {| single_shot := single_shot q; timeout_slot := timeout_slot q;
       interval := time_ms; due := Some (now s + time_ms) |}) t)) s.

Definition timer_stop (t : timer) : M unit :=
  modify (set_qtimers (alter (λ q,
    {| single_shot := single_shot q; timeout_slot := timeout_slot q;
       interval := interval q; due := None |}) t)).

(** Qt, as a timer's interval elapses and before it calls the slots: a
    single-shot timer stops, any other is due again an interval later. *)
Definition timer_elapse (t : timer) : M unit := λ s,
  modify (set_qtimers (alter (λ q,
    {| single_shot := single_shot q; timeout_slot := timeout_slot q;
       interval := interval q;
       due := if single_shot q then None else Some (now s + interval q) |}) t)) s.

(** [self.network_manager.get(request)]: a new reply object. *)
Definition network_manager_get (req : request) : M reply := λ s,
  let r := next_reply s in
  (emit (NetworkManagerGet r req) ;; mret r)
    (set_next_reply (S r)
       (set_replies (insert r {| rp_request := req; rp_content_type := "";
                                 rp_data := ""; rp_error := None;
                                 rp_finished := false;
                                 rp_finished_slots := [] |}) s)).

Definition reply_finished_connect (r : reply)
    (slot : callable * callable * string * string) : M unit :=
  modify (set_replies (alter (λ q,
    {| rp_request := rp_request q; rp_content_type := rp_content_type q;
       rp_data := rp_data q; rp_error := rp_error q;
       rp_finished := rp_finished q;
       rp_finished_slots := rp_finished_slots q ++ [slot] |}) r)).

(** The network, as a reply completes and before it calls the slots. *)
Definition reply_complete (r : reply) (content_type data : string)
    (error : option string) : M unit :=
  modify (set_replies (alter (λ q,
    {| rp_request := rp_request q; rp_content_type := content_type;
       rp_data := data; rp_error := error;
       rp_finished := true;
       rp_finished_slots := rp_finished_slots q |}) r)).

(** [reply.deleteLater()]: the object is gone once the slot has returned. *)
Definition reply_deleteLater (r : reply) : M unit :=
  emit (ReplyDeleteLater r) ;;
  modify (set_replies (delete r)).

(** [self.web_page.loadFinished.connect(partial(self._on_goto_load_finished,
    callback=callback, errback=errback))] *)
Definition loadFinished_connect (callback errback : callable) : M unit :=
  modify (set_loadFinished_slots (λ l, l ++ [(callback, errback)])).

(** [self._active_timers.remove(timer)]: [set.remove] raises on a missing element. *)
Definition active_timers_remove (t : timer) : M unit := λ s,
  if decide (t ∈ _active_timers s)
  then modify (set_active_timers (λ a, a ∖ {[t]})) s
  else raise (KeyError (pretty t)) s.

(** [self._cancel_on_redirect_timers.pop(timer, None)] *)
Definition cancel_on_redirect_timers_pop (t : timer) : M unit :=
  modify (set_cancel_on_redirect_timers (delete t)).

(** [twisted.internet.defer.Deferred.callback] / [errback]: a Deferred that
    has been called refuses a second call. *)
Definition deferred_callback (result : pyobj) : M unit :=
  emit (DeferredCallback result) ;;
  called ← gets deferred_called;
  if called : bool then raise AlreadyCalledError
  else modify (set_deferred_called true).

Definition deferred_errback (error : pyobj) : M unit :=
  emit (DeferredErrback error) ;;
  called ← gets deferred_called;
  if called : bool then raise AlreadyCalledError
  else modify (set_deferred_called true).

(** ** splash.har.utils *)

(** Modelled from the spec: [splash.har.utils.without_private] is not under
    src/; history entries are "stored with private/internal fields
    stripped", the private fields of a HAR record being those whose name
    starts with an underscore. *)
Definition without_private (dct : gmap string json) : gmap string json :=
  filter (λ kv : string * json, String.prefix "_" kv.1 = false) dct.

(** ** What the tab is given *)

(** A call [tab.wait(time_ms, callback, onredirect)]. *)
Record wait_request := {
  wr_time_ms : Z;
  wr_callback : callable;
  wr_onredirect : pyobj
}.

Record environment := {
  (** [s.decode('utf8')], which raises on bytes that are not UTF-8 *)
  decode_utf8 : string → option string;
  (** [splash.qtutils.OPERATION_QT_CONSTANTS], HTTP method names to Qt's
      operation codes *)
  OPERATION_QT_CONSTANTS : gmap string Z;
  (** what calling a callable does: given the tab as it is at the call, the
      [wait] calls it makes on the tab before it returns *)
  behaviour : callable → BrowserTab → list wait_request
}.

(** [name.lower()] *)
Definition lower_ascii (c : ascii) : ascii :=
  let n := nat_of_ascii c in
  if ((65 <=? n) && (n <=? 90))%nat then ascii_of_nat (n + 32) else c.

Fixpoint lower (s : string) : string :=
  match s with
  | EmptyString => EmptyString
  | String c s' => String (lower_ascii c) (lower s')
  end.

(** ** The methods of [BrowserTab] *)

Section BrowserTab.
Context (env : environment).

Definition result_already_returned : M bool := gets deferred_called.

Definition return_result (result : pyobj) : M unit :=
  called ← result_already_returned;
  when called (logger_log "error: result is already returned" 1) ;;
  deferred_callback result.

Definition return_error (error : pyobj) : M unit :=
  called ← result_already_returned;
  when called (logger_log "error: result is already returned" 1) ;;
  deferred_errback error.

Definition set_default_headers (headers : option (list (string * string))) : M unit :=
  modify (set_default_headers_field headers).

Definition store_har_timing (name : string) : M unit :=
  emit (StoreHarTiming name).

(** [_set_request_headers]: [headers or []], a dict given by its items. *)
Definition _set_request_headers (req : request)
    (headers : option (list (string * string))) : M request :=
  for_each (default [] headers) (λ '(name, value),
    when (String.eqb (lower name) "user-agent")
         (modify (set_custom_user_agent (Some value)))) ;;
  mret {| req_url := req_url req;
          req_raw_headers := req_raw_headers req ++ default [] headers;
          req_originating_object := req_originating_object req |}.

Definition _create_request (url : string) : M request :=
  match decode_utf8 env url with
  | None => raise UnicodeDecodeError
  | Some u =>
      headers ← gets _default_headers;
      _set_request_headers
        {| req_url := u; req_raw_headers := []; req_originating_object := false |}
        headers
  end.

Definition _load_url_to_mainframe (url http_method : string) (body : option string) : M unit :=
  req ← _create_request url;
  match OPERATION_QT_CONSTANTS env !! http_method with
  | None => raise (KeyError http_method)
  | Some meth => emit (FrameLoad req meth body)
  end.

Definition go (url : string) (callback errback : callable) (baseurl : option string)
    (http_method : string) (body : option string) : M unit :=
  store_har_timing "_onStarted" ;;
  if str_truthy baseurl then
    if negb (String.eqb http_method "GET") then raise NotImplementedError
    else
      req ← _create_request url;
      r ← network_manager_get
             {| req_url := req_url req; req_raw_headers := req_raw_headers req;
                req_originating_object := true |};
      modify (set_reply (Some r)) ;;
      reply_finished_connect r (callback, errback, default "" baseurl, url)
  else
    loadFinished_connect callback errback ;;
    _load_url_to_mainframe url http_method body.

Definition stop_loading : M unit :=
  emit StopScheduledPageRefresh ;;
  emit ViewStop.

Definition _close : M unit :=
  modify (set_closing true) ;;
  emit StopScheduledPageRefresh ;;
  emit ViewStop ;;
  emit ViewClose ;;
  emit PageDeleteLater ;;
  emit ViewDeleteLater.

(** [wait(time_ms, callback, onredirect)] *)
Definition wait (time_ms : Z) (callback : callable) (onredirect : pyobj) : M unit :=
  timer ← QTimer_new;
  timer_setSingleShot timer true ;;
  timer_timeout_connect timer callback ;;
  logger_log ("waiting " +:+ pretty time_ms +:+ "ms; timer " +:+ pretty timer) 2 ;;
  timer_start timer time_ms ;;
  modify (set_active_timers (λ a, a ∪ {[timer]})) ;;
  when (truthy onredirect)
       (modify (set_cancel_on_redirect_timers (insert timer onredirect))).

(** [f()] at [site]: the call is recorded, then the callable runs. *)
Definition call (site : call_site) (f : callable) : M unit :=
  emit (Invoke site f) ;;
  s ← gets id;
  for_each (behaviour env f s)
           (λ w, wait (wr_time_ms w) (wr_callback w) (wr_onredirect w)).

Definition _on_goto_load_finished (ok : bool) (callback errback : callable) : M unit :=
  closing ← gets _closing;
  if closing : bool then
    logger_log "loadFinished is ignored because BrowserTab is closing" 2
  else
    info ← gets errorInfo;
    let page_ok := ok && bool_decide (info = None) in
    let maybe_redirect := negb ok && bool_decide (info = None) in
    let error_loading := ok && negb (bool_decide (info = None)) in
    if maybe_redirect then
      logger_log "Redirect or other non-fatal error detected" 2
    else if page_ok then
      logger_log "loadFinished: ok" 2 ;;
      call AtLoadFinishedCallback callback
    else if error_loading then
      logger_log ("loadFinished: " +:+ default "None" info) 1 ;;
      call AtLoadFinishedErrback errback
    else
      logger_log "loadFinished: unknown error" 1 ;;
      call AtLoadFinishedErrback errback.

Definition _on_baseurl_request_finished (callback errback : callable)
    (baseurl url : string) : M unit :=
  logger_log "baseurl_request_finished" 2 ;;
  loadFinished_connect callback errback ;;
  match decode_utf8 env baseurl with
  | None => raise UnicodeDecodeError
  | Some base =>
      cur ← gets _reply;
      match cur with
      | None => raise AttributeError
      | Some r =>
          q ← gets (λ s, replies s !! r);
          match q with
          | None => raise RuntimeError
          | Some q =>
              let mimeType := rp_content_type q in
              let data := rp_data q in
              emit (FrameSetContent data mimeType base) ;;
              match rp_error q with
              | Some errorString =>
                  logger_log ("Error loading " +:+ url +:+ ": " +:+ errorString) 1
              | None => mret ()
              end ;;
              emit (ReplyClose r) ;;
              reply_deleteLater r
          end
      end
  end.

Definition _on_wait_timeout (timer : timer) (callback : callable) : M unit :=
  logger_log ("wait timeout for " +:+ pretty timer) 2 ;;
  active_timers_remove timer ;;
  cancel_on_redirect_timers_pop timer ;;
  call (AtWaitTimeout timer) callback.

Definition _cancel_timer (timer : timer) (errback : pyobj) : M unit :=
  logger_log ("cancelling timer " +:+ pretty timer) 2 ;;
  cancel_on_redirect_timers_pop timer ;;
  active_timers_remove timer ;;
  timer_stop timer ;;
  match is_callable errback with
  | Some f => call (AtCancelTimer timer) f
  | None => mret ()
  end.

(** [_on_url_changed(url)].  [cause_ev] is what
    [self.web_page.har_log._prev_entry(url, -1)] answers: the [data] of the
    record found, or nothing. *)
Definition _on_url_changed (url : string) (cause_ev : option (gmap string json)) : M unit :=
  match cause_ev with
  | Some data => modify (set_history (λ h, h ++ [JDict (without_private data)]))
  | None => mret ()
  end ;;
  items ← gets (λ s, map_to_list (_cancel_on_redirect_timers s));
  for_each items (λ '(timer, onredirect), _cancel_timer timer onredirect).

(** [del entry['request']['queryString']] on one entry of the copy. *)
Definition del_queryString (entry : json) : outcome json :=
  match entry with
  | JNull => Return JNull
  | JDict d =>
      match d !! "request" with
      | None => Raise (KeyError "request")
      | Some (JDict r) =>
          match r !! "queryString" with
          | None => Raise (KeyError "queryString")
          | Some _ => Return (JDict (<["request" := JDict (delete "queryString" r)]> d))
          end
      | Some _ => Raise TypeError
      end
  | _ => Raise TypeError
  end.

(** The loop of [history] over the copied list. *)
Fixpoint del_queryStrings (hist : list json) : outcome (list json) :=
  match hist with
  | [] => Return []
  | entry :: rest =>
      match del_queryString entry with
      | Raise e => Raise e
      | Return entry' =>
          match del_queryStrings rest with
          | Raise e => Raise e
          | Return rest' => Return (entry' :: rest')
          end
      end
  end.

(** [history()]: the trees of [_history] are values, so [copy.deepcopy] is
    the list itself and the deletions on the copy leave [_history] alone. *)
Definition history : M (list json) :=
  logger_log "getting history" 3 ;;
  hist ← gets _history;
  lift_outcome (del_queryStrings hist).

End BrowserTab.

(** ** The event loop

    What happens to a tab: its owner calls a method, or Qt delivers a
    signal to the slots the tab has connected.  An exception raised by a
    method goes to the caller, one raised in a slot is reported by PyQt and
    dropped; either way the tab stays as the computation left it. *)

Inductive action :=
| CallGo (url : string) (callback errback : callable) (baseurl : option string)
         (http_method : string) (body : option string)
| CallWait (time_ms : Z) (callback : callable) (onredirect : pyobj)
| CallClose
| CallStopLoading
| CallReturnResult (result : pyobj)
| CallReturnError (error : pyobj)
| CallSetDefaultHeaders (headers : option (list (string * string)))
| CallHistory
| SignalLoadFinished (ok : bool)
| SignalUrlChanged (url : string) (cause_ev : option (gmap string json))
| SignalTimeout (t : timer)
| SignalReplyFinished (r : reply) (content_type data : string) (error : option string)
| PageErrorInfo (info : option string)   (* the page sets or clears errorInfo *)
| Tick (d : Z).                          (* d milliseconds pass *)

Section EventLoop.
Context (env : environment).

(** The slots connected to a signal run in the order they were connected. *)
Definition run_slots {A} (slots : list A) (slot : A → M unit) (s : BrowserTab) : BrowserTab :=
  foldl (λ s x, exec_state (slot x) s) s slots.

(** One action; [None] when Qt cannot deliver the signal in this state (a
    timer that is not running or not yet due, a reply that has completed or
    is gone, time running backwards). *)
Definition step (a : action) (s : BrowserTab) : option BrowserTab :=
  match a with
  | CallGo url callback errback baseurl http_method body =>
      Some (exec_state (go env url callback errback baseurl http_method body) s)
  | CallWait time_ms callback onredirect =>
      Some (exec_state (wait time_ms callback onredirect) s)
  | CallClose => Some (exec_state _close s)
  | CallStopLoading => Some (exec_state stop_loading s)
  | CallReturnResult result => Some (exec_state (return_result result) s)
  | CallReturnError error => Some (exec_state (return_error error) s)
  | CallSetDefaultHeaders headers => Some (exec_state (set_default_headers headers) s)
  | CallHistory => Some (exec_state history s)
  | SignalLoadFinished ok =>
      Some (run_slots (loadFinished_slots s)
              (λ '(callback, errback), _on_goto_load_finished env ok callback errback) s)
  | SignalUrlChanged url cause_ev =>
      Some (exec_state (_on_url_changed env url cause_ev) s)
  | SignalTimeout t =>
      match qtimers s !! t with
      | Some q =>
          match due q, timeout_slot q with
          | Some d, Some callback =>
              if d <=? now s
              then Some (exec_state (timer_elapse t ;; _on_wait_timeout env t callback) s)
              else None
          | _, _ => None
          end
      | None => None
      end
  | SignalReplyFinished r content_type data error =>
      match replies s !! r with
      | Some q =>
          if rp_finished q then None
          else Some (run_slots (rp_finished_slots q)
                       (λ '(callback, errback, baseurl, url),
                          _on_baseurl_request_finished env callback errback baseurl url)
                       (exec_state (reply_complete r content_type data error) s))
      | None => None
      end
  | PageErrorInfo info => Some (set_errorInfo info s)
  | Tick d => if 0 <=? d then Some (set_now (now s + d) s) else None
  end.

Fixpoint exec (acts : list action) (s : BrowserTab) : option BrowserTab :=
  match acts with
  | [] => Some s
  | a :: rest =>
      match step a s with
      | Some s' => exec rest s'
      | None => None
      end
  end.

End EventLoop.

(** ** Reading a trace *)

(** The events a computation added, given the tab before and after it. *)
Definition emitted (s s' : BrowserTab) : list event :=
  drop (length (trace s)) (trace s').

(** The calls of callables among some events, with their call sites. *)
Definition invocations (evs : list event) : list (call_site * callable) :=
  omap (λ e, match e with Invoke site f => Some (site, f) | _ => None end) evs.

#[global] Instance call_site_eq_dec : EqDecision call_site.
Proof. solve_decision. Defined.

(** The callables called from one call site, in order. *)
Definition site_calls (site : call_site) (evs : list event) : list callable :=
  omap (λ '(site', f), if decide (site' = site) then Some f else None)
       (invocations evs).

(** Requests that leave the tab: a raw fetch or an engine load. *)
Definition is_network_request (e : event) : bool :=
  match e with
  | NetworkManagerGet _ _ | FrameLoad _ _ _ => true
  | _ => false
  end.

(** What the tab and Qt hold about one timer. *)
Definition timer_state (t : timer) (s : BrowserTab) : option pyobj * bool * option qtimer :=
  (_cancel_on_redirect_timers s !! t, bool_decide (t ∈ _active_timers s), qtimers s !! t).

(** Is the timer running? *)
Definition running (t : timer) (s : BrowserTab) : bool :=
  match qtimers s !! t with
  | Some q => bool_decide (is_Some (due q))
  | None => false
  end.

(** [_cancel_on_redirect_timers] only holds timers of [_active_timers], and
    every timer the tab or its trace knows has been created. *)
Record wf (s : BrowserTab) : Prop := {
  wf_active : ∀ t, t ∈ _active_timers s → (t < next_timer s)%nat;
  wf_cancel : dom (_cancel_on_redirect_timers s) ⊆ _active_timers s;
  wf_qtimers : ∀ t, is_Some (qtimers s !! t) → (t < next_timer s)%nat;
  wf_trace : ∀ t f, (AtWaitTimeout t, f) ∈ invocations (trace s)
                    ∨ (AtCancelTimer t, f) ∈ invocations (trace s)
                    → (t < next_timer s)%nat
}.

(** What a computation may do to a tab: it calls callables at the sites
    [sites] only, creates timers but leaves the state of the existing
    timers outside [touched] as it is, never clears the closing flag and
    does not turn the clock back. *)
Record frame (sites : call_site → Prop) (touched : timer → Prop)
    (s s' : BrowserTab) : Prop := {
  fr_trace : ∃ evs, trace s' = trace s ++ evs
                    ∧ ∀ site f, (site, f) ∈ invocations evs → sites site;
  fr_next_timer : (next_timer s ≤ next_timer s')%nat;
  fr_timer : ∀ t, (t < next_timer s)%nat → ¬ touched t →
                  timer_state t s' = timer_state t s;
  fr_closing : _closing s = true → _closing s' = true;
  fr_now : now s ≤ now s'
}.

(** A computation that calls nothing and touches no timer. *)
Record calm (s s' : BrowserTab) : Prop := {
  calm_trace : ∃ evs, trace s' = trace s ++ evs ∧ invocations evs = [];
  calm_next_timer : next_timer s' = next_timer s;
  calm_active : _active_timers s' = _active_timers s;
  calm_cancel : _cancel_on_redirect_timers s' = _cancel_on_redirect_timers s;
  calm_qtimers : qtimers s' = qtimers s;
  calm_history : _history s' = _history s;
  calm_closing : _closing s = true → _closing s' = true;
  calm_now : now s' = now s
}.

(** Computations that are calm from every tab, and how they compose. *)
Definition calmly {A} (m : M A) : Prop := ∀ s, calm s (exec_state m s).

(** The tab in which [_on_wait_timeout] calls the callback. *)
Definition expired (t : timer) (s : BrowserTab) : BrowserTab :=
  set_cancel_on_redirect_timers (delete t)
    (set_active_timers (λ a, a ∖ {[t]})
       (set_trace (λ tr, tr ++ [LoggerLog ("wait timeout for " +:+ pretty t) (Some 2)]) s)).

(** The tab in which [_cancel_timer] calls the errback, if it is callable. *)
Definition cancelled (t : timer) (s : BrowserTab) : BrowserTab :=
  exec_state (timer_stop t)
    (set_active_timers (λ a, a ∖ {[t]})
       (set_cancel_on_redirect_timers (delete t)
          (set_trace (λ tr, tr ++ [LoggerLog ("cancelling timer " +:+ pretty t) (Some 2)]) s))).

(** Natural expiry in the order the specification words it: "invoke
    callback; remove from active set and from the redirect-cancel
    association, in that order". *)
Definition natural_expiry_as_specified (env : environment)
    (timer : timer) (callback : callable) : M unit :=
  logger_log ("wait timeout for " +:+ pretty timer) 2 ;;
  call env (AtWaitTimeout timer) callback ;;
  active_timers_remove timer ;;
  cancel_on_redirect_timers_pop timer.

(** A callable's re-entrant [wait] calls. *)
Definition wait_all (l : list wait_request) : M unit :=
  for_each l (λ w, wait (wr_time_ms w) (wr_callback w) (wr_onredirect w)).

(** The redirect-triggered sweep of [_on_url_changed] over the snapshot
    [list(self._cancel_on_redirect_timers.items())]. *)
Definition sweep (env : environment) (items : list (timer * pyobj)) : M unit :=
  for_each items (λ '(timer, onredirect), _cancel_timer env timer onredirect).

(** A timer after [stop()]. *)
Definition stopped (q : qtimer) : qtimer :=
  {| single_shot := single_shot q; timeout_slot := timeout_slot q;
     interval := interval q; due := None |}.

(** What the errback of [_cancel_timer] adds to the calls from its site. *)
Definition errback_calls (errback : pyobj) : list callable :=
  match is_callable errback with
  | Some f => [f]
  | None => []
  end.

(** [_on_url_changed] up to its sweep: the history entry, if a record was
    found. *)
Definition with_history_entry (cause_ev : option (gmap string json))
    (s : BrowserTab) : BrowserTab :=
  match cause_ev with
  | Some data => set_history (λ h, h ++ [JDict (without_private data)]) s
  | None => s
  end.

(** The call sites an action may call callables from, and the timers whose
    state it may change, in a given tab. *)
Definition sites_of (a : action) (s : BrowserTab) (site : call_site) : Prop :=
  match a with
  | SignalLoadFinished _ =>
      (site = AtLoadFinishedCallback ∨ site = AtLoadFinishedErrback) ∧ _closing s = false
  | SignalUrlChanged _ _ =>
      ∃ t, site = AtCancelTimer t ∧ t ∈ dom (_cancel_on_redirect_timers s)
  | SignalTimeout t => site = AtWaitTimeout t
  | _ => False
  end.

Definition touched_of (a : action) (s : BrowserTab) (t : timer) : Prop :=
  match a with
  | SignalUrlChanged _ _ => t ∈ dom (_cancel_on_redirect_timers s)
  | SignalTimeout t' => t = t'
  | _ => False
  end.

(** Timer [t], given [onredirect] by [wait] and due at [d], is waiting:
    registered in both collections, running, and nothing has been called
    for it yet. *)
Definition pending (t : timer) (onredirect : pyobj) (d : Z) (s : BrowserTab) : Prop :=
  (t < next_timer s)%nat
  ∧ _cancel_on_redirect_timers s !! t = Some onredirect
  ∧ t ∈ _active_timers s
  ∧ (∃ q, qtimers s !! t = Some q ∧ due q = Some d)
  ∧ site_calls (AtWaitTimeout t) (trace s) = []
  ∧ site_calls (AtCancelTimer t) (trace s) = [].

(** Timer [t] has been cancelled by a redirect: it is in neither
    collection, it does not run, its callback has not been called and its
    errback, if [onredirect] was callable, has been called once. *)
Definition swept (t : timer) (onredirect : pyobj) (s : BrowserTab) : Prop :=
  (t < next_timer s)%nat
  ∧ _cancel_on_redirect_timers s !! t = None
  ∧ (t ∉ _active_timers s)
  ∧ running t s = false
  ∧ site_calls (AtWaitTimeout t) (trace s) = []
  ∧ site_calls (AtCancelTimer t) (trace s) = errback_calls onredirect.

(** An entry of the list [history] returns that has a [request] record
    without a [queryString] field. *)
Definition lacks_queryString (entry : json) : Prop :=
  match entry with
  | JDict d =>
      match d !! "request" with
      | Some (JDict r) => r !! "queryString" = None
      | _ => False
      end
  | _ => False
  end.

(** ** An environment to run the model in

    Byte strings of ASCII characters decode to themselves (the examples use
    no others), the HTTP methods have the codes of
    [QNetworkAccessManager::Operation], and callable 7 looks at the tab it
    is called in: while timer 0 is in [_active_timers] it calls
    [wait(10, callable 8)], otherwise it does nothing.  Every other
    callable just returns. *)
Definition ascii_decode (s : string) : option string :=
  if forallb (λ c, (nat_of_ascii c <? 128)%nat) (list_ascii_of_string s)
  then Some s else None.

Definition sample_env : environment := {|
  decode_utf8 := ascii_decode;
  OPERATION_QT_CONSTANTS :=
    list_to_map [("HEAD", 1); ("GET", 2); ("PUT", 3); ("POST", 4); ("DELETE", 5)];
  behaviour := λ f s,
    if decide (f = 7%nat ∧ 0%nat ∈ _active_timers s)
    then [{| wr_time_ms := 10; wr_callback := 8%nat; wr_onredirect := PyNone |}]
    else []
|}.

(** A HAR record as the HAR log keeps it, with a private field. *)
Definition sample_har_record : gmap string json :=
  list_to_map
    [("_splash_processing_state", JStr "finished");
     ("request", JDict (list_to_map
        [("url", JStr "http://example.com/?a=1");
         ("queryString", JList [JDict (list_to_map [("name", JStr "a");
                                                    ("value", JStr "1")])])]));
     ("response", JDict (list_to_map [("status", JNum 200)]))].

(** The tab a list of actions leaves behind (the tab itself when Qt cannot
    deliver one of them). *)
Definition tab_after (env : environment) (acts : list action) (s : BrowserTab) : BrowserTab :=
  default s (exec env acts s).

(** What [history] returns, or the empty list when it raises. *)
Definition history_result (s : BrowserTab) : list json :=
  match (history s).1 with
  | Return hist => hist
  | Raise _ => []
  end.

(** The reply [go] has just asked the network manager for. *)
Definition fresh_reply (url baseurl : string) (callback errback : callable) : qreply :=
  {| rp_request := {| req_url := url; req_raw_headers := [];
                      req_originating_object := true |};
     rp_content_type := ""; rp_data := ""; rp_error := None; rp_finished := false;
     rp_finished_slots := [(callback, errback, baseurl, url)] |}.

(** Timer [t], created by [wait] with an empty [onredirect], bound to
    [callback] and due at [d], is waiting: it is in [_active_timers] only,
    it runs, and nothing has been called for it yet. *)
Definition waiting (t : timer) (callback : callable) (d : Z) (s : BrowserTab) : Prop :=
  (t < next_timer s)%nat
  ∧ _cancel_on_redirect_timers s !! t = None
  ∧ t ∈ _active_timers s
  ∧ (∃ q, qtimers s !! t = Some q ∧ single_shot q = true
          ∧ timeout_slot q = Some callback ∧ due q = Some d)
  ∧ site_calls (AtWaitTimeout t) (trace s) = []
  ∧ site_calls (AtCancelTimer t) (trace s) = [].

(** The tab is done with timer [t]: it is in neither collection and does
    not run; [callbacks] and [errbacks] are what has been called for it. *)
Definition retired (t : timer) (callbacks errbacks : list callable) (s : BrowserTab) : Prop :=
  (t < next_timer s)%nat
  ∧ _cancel_on_redirect_timers s !! t = None
  ∧ (t ∉ _active_timers s)
  ∧ running t s = false
  ∧ site_calls (AtWaitTimeout t) (trace s) = callbacks
  ∧ site_calls (AtCancelTimer t) (trace s) = errbacks.

(** The part of a tab that timers and callables leave alone. *)
Record same_page (s s' : BrowserTab) : Prop := {
  sp_deferred_called : deferred_called s' = deferred_called s;
  sp_closing : _closing s' = _closing s;
  sp_errorInfo : errorInfo s' = errorInfo s;
  sp_loadFinished_slots : loadFinished_slots s' = loadFinished_slots s;
  sp_reply : _reply s' = _reply s;
  sp_replies : replies s' = replies s;
  sp_default_headers : _default_headers s' = _default_headers s;
  sp_custom_user_agent : custom_user_agent s' = custom_user_agent s
}.

(** The calls one load-finished signal makes, given the closing flag, the
    error slot of the page and the slots connected to the signal. *)
Definition load_finished_calls (closing : bool) (info : option string) (ok : bool)
    (slots : list (callable * callable)) : list (call_site * callable) :=
  if closing then []
  else match info, ok with
       | None, true => (λ slot, (AtLoadFinishedCallback, slot.1)) <$> slots
       | None, false => []
       | Some _, _ => (λ slot, (AtLoadFinishedErrback, slot.2)) <$> slots
       end.

(** The value of the last header named user-agent, in any case of letters. *)
Definition user_agent_of (headers : list (string * string)) : option string :=
  snd <$> last (filter (λ h, lower h.1 = "user-agent") headers).

(** A tab whose page has been given a user agent, or none. *)
Definition with_user_agent (ua : option string) (s : BrowserTab) : BrowserTab :=
  match ua with
  | Some value => set_custom_user_agent (Some value) s
  | None => s
  end.

(** The request [_create_request] builds in a tab for a decoded URL. *)
Definition request_for (u : string) (s : BrowserTab) : request :=
  {| req_url := u; req_raw_headers := default [] (_default_headers s);
     req_originating_object := false |}.

(** An entry [history] can delete the [queryString] of. *)
Definition deletable (entry : json) : Prop :=
  entry = JNull
  ∨ ∃ d r, entry = JDict d ∧ d !! "request" = Some (JDict r) ∧ is_Some (r !! "queryString").

(** The calls that return the render to the pool. *)
Definition is_return (a : action) : bool :=
  match a with
  | CallReturnResult _ | CallReturnError _ => true
  | _ => false
  end.

(** The timers Qt runs are the timers of [_active_timers], and each of
    them is a single-shot timer with a slot bound to a callback. *)
Definition armed (s : BrowserTab) : Prop :=
  (∀ t q, qtimers s !! t = Some q → is_Some (due q) →
          t ∈ _active_timers s ∧ single_shot q = true ∧ is_Some (timeout_slot q))
  ∧ (∀ t, t ∈ _active_timers s → running t s = true).

(** ** Frames

    A [QWebFrame] as [_frame_to_dict] reads it. *)
Inductive QWebFrame := Build_QWebFrame {
  frame_url : string;                    (* unicode(frame.url().toString()) *)
  frame_requestedUrl : string;           (* unicode(frame.requestedUrl().toString()) *)
  frame_geometry : Z * Z * Z * Z;        (* g.x(), g.y(), g.width(), g.height() *)
  frame_title : string;
  frame_toHtml : string;
  frame_frameName : string;
  frame_childFrames : list QWebFrame
}.

(** [_frame_to_dict(frame, children, html)]; the tuple of the geometry is
    a sequence of four numbers. *)
Fixpoint _frame_to_dict (frame : QWebFrame) (children html : bool) : json :=
  let '(x, y, width, height) := frame_geometry frame in
  let res : gmap string json :=
    <["title" := JStr (frame_title frame)]>
      (<["geometry" := JList [JNum x; JNum y; JNum width; JNum height]]>
         (<["requestedUrl" := JStr (frame_requestedUrl frame)]>
            (<["url" := JStr (frame_url frame)]> ∅))) in
  let res := if html then <["html" := JStr (frame_toHtml frame)]> res else res in
  let res :=
    if children
    then <["frameName" := JStr (frame_frameName frame)]>
           (<["childFrames" :=
                JList ((λ f, _frame_to_dict f true html) <$> frame_childFrames frame)]> res)
    else res in
  JDict res.

(** [iframes_info(children, html)]; [mainFrame] is what
    [self.web_page.mainFrame()] answers. *)
Definition iframes_info (mainFrame : QWebFrame) (children html : bool) : M json :=
  logger_log "getting iframes" 3 ;;
  let result := _frame_to_dict mainFrame children html in
  store_har_timing "_onIframesRendered" ;;
  mret result.

(** The part of a frame tree a call with [children] and [html] is asked
    to report: the frame itself, with its HTML when [html] is set, and,
    when [children] is set, its name and all the frames below it. *)
Fixpoint reported (children html : bool) (frame : QWebFrame) : QWebFrame :=
  {| frame_url := frame_url frame;
     frame_requestedUrl := frame_requestedUrl frame;
     frame_geometry := frame_geometry frame;
     frame_title := frame_title frame;
     frame_toHtml := if html then frame_toHtml frame else "";
     frame_frameName := if children then frame_frameName frame else "";
     frame_childFrames :=
       if children then reported true html <$> frame_childFrames frame else [] |}.

(** Induction on a frame tree, with the property at hand for the child
    frames. *)
Fixpoint QWebFrame_nested_ind (P : QWebFrame → Prop)
    (H : ∀ u r g t h n kids, Forall P kids → P (Build_QWebFrame u r g t h n kids))
    (frame : QWebFrame) : P frame :=
  match frame with
  | Build_QWebFrame u r g t h n kids =>
      H u r g t h n kids
        ((fix go (l : list QWebFrame) : Forall P l :=
            match l with
            | [] => @List.Forall_nil _ P
            | f :: l' => @List.Forall_cons _ P f l' (QWebFrame_nested_ind P H f) (go l')
            end) kids)
  end.

(** ** The JavaScript console

    [self._js_console] holds the console object once [_jsconsole_enable]
    has made one, here by its [messages]; [window_objects] are the names
    under which objects have been added to the JavaScript window object of
    the main frame. *)
Record js_page := {
  _js_console : option (list string);
  window_objects : list string
}.

Definition new_js_page : js_page := {| _js_console := None; window_objects := [] |}.

(** [_JavascriptConsole.log(message)] *)
Definition _JavascriptConsole_log (message : string) (messages : list string) : list string :=
  messages ++ [message].

Definition _jsconsole_enable (p : js_page) : js_page :=
  match _js_console p with
  | Some _ => p
  | None => {| _js_console := Some []; window_objects := window_objects p ++ ["console"] |}
  end.

Definition _jsconsole_messages (p : js_page) : list string :=
  match _js_console p with
  | None => []
  | Some messages => messages
  end.

(** What happens to the console: the tab's owner enables it, a script of
    the page calls [console.log(message)], which reaches the object while
    it is on the window object, or Qt clears the window object, as it does
    when the frame loads another page. *)
Inductive js_action :=
| CallJsconsoleEnable
| PageConsoleLog (message : string)
| WindowObjectCleared.

Definition js_step (p : js_page) (a : js_action) : js_page :=
  match a with
  | CallJsconsoleEnable => _jsconsole_enable p
  | PageConsoleLog message =>
      if decide ("console" ∈ window_objects p)
      then {| _js_console := _JavascriptConsole_log message <$> _js_console p;
              window_objects := window_objects p |}
      else p
  | WindowObjectCleared => {| _js_console := _js_console p; window_objects := [] |}
  end.

Definition js_exec (acts : list js_action) (p : js_page) : js_page := foldl js_step p acts.

(** The messages the page logs in a run. *)
Definition logged (acts : list js_action) : list string :=
  omap (λ a, match a with PageConsoleLog message => Some message | _ => None end) acts.

(** ** Injecting scripts *)

(** [s.endswith(suffix)] *)
Fixpoint endswith (s suffix : string) : bool :=
  String.eqb s suffix
  || match s with
     | String _ s' => endswith s' suffix
     | EmptyString => false
     end.

(** [os.path.join(a, b)] of [posixpath] *)
Definition os_path_join (a b : string) : string :=
  if String.prefix "/" b then b
  else if String.eqb a "" || endswith a "/" then a +:+ b
  else a +:+ "/" +:+ b.

(** The files [inject_js_libs] finds: [os.listdir(folder)], which raises
    for a folder that cannot be listed, and the bytes [open(filename,
    'rb').read()] gives, [open] raising for a file that cannot be read. *)
Record filesystem := {
  os_listdir : string → option (list string);
  file_bytes : string → option string
}.

Inductive io_exn :=
| OSError (folder : string)
| IOError (filename : string)
| ScriptDecodeError (filename : string).   (* UnicodeDecodeError of f.read().decode('utf-8') *)

(** The first two steps of [inject_js]: the script a file holds. *)
Definition read_script (env : environment) (fs : filesystem) (filename : string)
    : io_exn + string :=
  match file_bytes fs filename with
  | None => inl (IOError filename)
  | Some bytes =>
      match decode_utf8 env bytes with
      | None => inl (ScriptDecodeError filename)
      | Some script => inr script
      end
  end.

Section Scripts.
Context (env : environment) (fs : filesystem).
(** [unicode(frame.evaluateJavaScript(js_source).toString())], given the
    scripts the frame has evaluated so far *)
Context (evaluateJavaScript : list string → string → string).

(** [runjs(js_source)]; the state is the list of the scripts the main
    frame has evaluated. *)
Definition runjs (js_source : string) (page : list string) : string * list string :=
  (evaluateJavaScript page js_source, page ++ [js_source]).

Definition inject_js (filename : string) (page : list string)
    : (io_exn + string) * list string :=
  match read_script env fs filename with
  | inl e => (inl e, page)
  | inr script => let '(res, page') := runjs script page in (inr res, page')
  end.

(** The loop of [inject_js_libs] over the listing. *)
Fixpoint inject_js_files (folder : string) (listing : list string) (page : list string)
    : (io_exn + unit) * list string :=
  match listing with
  | [] => (inr (), page)
  | jsfile :: rest =>
      if endswith jsfile ".js" then
        match inject_js (os_path_join folder jsfile) page with
        | (inl e, page') => (inl e, page')
        | (inr _, page') => inject_js_files folder rest page'
        end
      else inject_js_files folder rest page
  end.

Definition inject_js_libs (folder : string) (page : list string)
    : (io_exn + unit) * list string :=
  match os_listdir fs folder with
  | None => (inl (OSError folder), page)
  | Some listing => inject_js_files folder listing page
  end.

End Scripts.

(** ** What the tab logs

    An entry [BrowserTab] hands to its logger with a level from 1 to 3;
    every other event passes. *)
Definition gated (e : event) : Prop :=
  match e with
  | LoggerLog _ min_level => ∃ l, min_level = Some l ∧ 1 ≤ l ≤ 3
  | _ => True
  end.

(** A computation that keeps the identity of the tab's logger and adds
    gated events only. *)
Record levelled (s s' : BrowserTab) : Prop := {
  lv_verbosity : verbosity s' = verbosity s;
  lv_uid : _uid s' = _uid s;
  lv_trace : ∃ evs, trace s' = trace s ++ evs ∧ Forall gated evs
}.

Definition levelly {A} (m : M A) : Prop := ∀ s, levelled s (exec_state m s).

(** The line of a logged message, whatever its level. *)
Definition log_line (uid : string) (e : event) : option string :=
  match e with
  | LoggerLog message _ => Some ("[" +:+ uid +:+ "] " +:+ message)
  | _ => None
  end.

(** A folder of scripts with a file that is none. *)
Definition sample_fs : filesystem := {|
  os_listdir := λ folder,
    if String.eqb folder "libs" then Some ["a.js"; "README"; "b.js"] else None;
  file_bytes := λ filename,
    if String.eqb filename "libs/a.js" then Some "var a = 1;"
    else if String.eqb filename "libs/b.js" then Some "var b = 2;"
    else None
|}.

(** ** Basic facts *)

Arguments invocations : simpl never.
Arguments site_calls : simpl never.

Ltac run :=
  unfold exec_state, when, lift_outcome, logger_log, store_har_timing, emit,
    gets, modify, raise, mbind, M_bind, mret, M_ret in *.

Lemma emitted_app s s' evs : trace s' = trace s ++ evs → emitted s s' = evs.
Proof. unfold emitted. intros ->. by rewrite drop_app_length. Qed.

Lemma invocations_app evs1 evs2 :
  invocations (evs1 ++ evs2) = invocations evs1 ++ invocations evs2.
Proof. unfold invocations. by rewrite omap_app. Qed.

Lemma invocations_cons e evs :
  invocations (e :: evs)
  = match e with
    | Invoke site f => (site, f) :: invocations evs
    | _ => invocations evs
    end.
Proof. by destruct e. Qed.

Lemma site_calls_app site evs1 evs2 :
  site_calls site (evs1 ++ evs2) = site_calls site evs1 ++ site_calls site evs2.
Proof. unfold site_calls. by rewrite invocations_app, omap_app. Qed.

Lemma site_calls_quiet site evs : invocations evs = [] → site_calls site evs = [].
Proof. unfold site_calls. by intros ->. Qed.

Lemma site_calls_invoke site f evs :
  site_calls site (Invoke site f :: evs) = f :: site_calls site evs.
Proof. unfold site_calls, invocations. cbn. by rewrite decide_True. Qed.

Lemma site_calls_none site evs :
  (∀ f, (site, f) ∉ invocations evs) → site_calls site evs = [].
Proof.
  unfold site_calls. induction (invocations evs) as [|[site' f] l IH]; intros H; [done|].
  cbn. destruct (decide (site' = site)) as [->|]; cbn.
  - exfalso. apply (H f). left.
  - apply IH. intros g Hg. apply (H g). by right.
Qed.

Lemma elem_of_site_calls site f evs :
  f ∈ site_calls site evs ↔ (site, f) ∈ invocations evs.
Proof.
  unfold site_calls. rewrite list_elem_of_omap. split.
  - intros [[site' g] [Hin Heq]]. destruct (decide (site' = site)); naive_solver.
  - intros Hin. exists (site, f). split; [done|]. by rewrite decide_True.
Qed.

Lemma timer_state_eq t s s' :
  timer_state t s' = timer_state t s →
  _cancel_on_redirect_timers s' !! t = _cancel_on_redirect_timers s !! t
  ∧ (t ∈ _active_timers s' ↔ t ∈ _active_timers s)
  ∧ qtimers s' !! t = qtimers s !! t.
Proof.
  unfold timer_state. intros [= Hc Hb Hq]. split; [done|]. split; [|done].
  by rewrite <- (bool_decide_eq_true (t ∈ _active_timers s')), Hb, bool_decide_eq_true.
Qed.

Lemma timer_state_gone t s o :
  timer_state t s = (None, false, o) →
  _cancel_on_redirect_timers s !! t = None ∧ (t ∉ _active_timers s) ∧ qtimers s !! t = o.
Proof.
  unfold timer_state. intros [= Hc Hb Hq]. split; [done|]. split; [|done].
  by apply bool_decide_eq_false in Hb.
Qed.

Lemma frame_refl sites touched s : frame sites touched s s.
Proof.
  split; try done; try lia.
  exists []. rewrite app_nil_r. split; [done|]. intros ?? H. by apply elem_of_nil in H.
Qed.

Lemma frame_weaken (sites sites' : call_site → Prop) (touched touched' : timer → Prop) s s' :
  (∀ site, sites site → sites' site) → (∀ t, touched t → touched' t) →
  frame sites touched s s' → frame sites' touched' s s'.
Proof.
  intros Hsub Hsub' [(evs & Htr & Hev) Hn Ht Hc Hnow]. split; try done.
  - exists evs. split; [done|]. intros site f H. eapply Hsub, Hev, H.
  - intros t Hlt H1. apply Ht; auto.
Qed.

Lemma frame_trans sites touched s1 s2 s3 :
  frame sites touched s1 s2 → frame sites touched s2 s3 → frame sites touched s1 s3.
Proof.
  intros [(evs & Htr & Hev) Hn Ht Hc Hnow] [(evs' & Htr' & Hev') Hn' Ht' Hc' Hnow'].
  split.
  - exists (evs ++ evs'). rewrite Htr', Htr, app_assoc. split; [done|].
    intros site f. rewrite invocations_app, elem_of_app. naive_solver.
  - lia.
  - intros t Hlt H1. rewrite Ht', Ht by (done || lia). done.
  - auto.
  - lia.
Qed.

Lemma frame_site_calls sites touched site s s' :
  frame sites touched s s' → ¬ sites site →
  site_calls site (trace s') = site_calls site (trace s).
Proof.
  intros [(evs & -> & Hev) _ _ _ _] Hsite.
  rewrite site_calls_app, (site_calls_none site evs), app_nil_r; [done|].
  intros f Hf. apply Hsite. by eapply Hev.
Qed.

(** ** [wait] and the calls of callables *)

Lemma wait_returns time_ms callback onredirect s :
  wait time_ms callback onredirect s
  = (Return (), exec_state (wait time_ms callback onredirect) s).
Proof.
  unfold wait, QTimer_new, timer_setSingleShot, timer_timeout_connect, timer_start.
  run. cbn. by destruct (truthy onredirect).
Qed.

Lemma wait_trace time_ms callback onredirect s :
  trace (exec_state (wait time_ms callback onredirect) s)
  = trace s ++ [LoggerLog ("waiting " +:+ pretty time_ms +:+ "ms; timer "
                           +:+ pretty (next_timer s)) (Some 2)].
Proof.
  unfold wait, QTimer_new, timer_setSingleShot, timer_timeout_connect, timer_start.
  run. cbn. by destruct (truthy onredirect).
Qed.

Lemma wait_next_timer time_ms callback onredirect s :
  next_timer (exec_state (wait time_ms callback onredirect) s) = S (next_timer s).
Proof.
  unfold wait, QTimer_new, timer_setSingleShot, timer_timeout_connect, timer_start.
  run. cbn. by destruct (truthy onredirect).
Qed.

Lemma wait_active_timers time_ms callback onredirect s :
  _active_timers (exec_state (wait time_ms callback onredirect) s)
  = _active_timers s ∪ {[next_timer s]}.
Proof.
  unfold wait, QTimer_new, timer_setSingleShot, timer_timeout_connect, timer_start.
  run. cbn. by destruct (truthy onredirect).
Qed.

Lemma wait_cancel_on_redirect_timers time_ms callback onredirect s :
  _cancel_on_redirect_timers (exec_state (wait time_ms callback onredirect) s)
  = if truthy onredirect
    then <[next_timer s := onredirect]> (_cancel_on_redirect_timers s)
    else _cancel_on_redirect_timers s.
Proof.
  unfold wait, QTimer_new, timer_setSingleShot, timer_timeout_connect, timer_start.
  run. cbn. by destruct (truthy onredirect).
Qed.

Lemma wait_qtimers time_ms callback onredirect s t :
  qtimers (exec_state (wait time_ms callback onredirect) s) !! t
  = if decide (t = next_timer s)
    then Some {| single_shot := true; timeout_slot := Some callback;
                 interval := time_ms; due := Some (now s + time_ms) |}
    else qtimers s !! t.
Proof.
  unfold wait, QTimer_new, timer_setSingleShot, timer_timeout_connect, timer_start.
  run. cbn. destruct (truthy onredirect); cbn.
  all: destruct (decide (t = next_timer s)) as [->|Hne].
  all: rewrite ?lookup_alter_eq, ?lookup_insert_eq; try done.
  all: by rewrite !lookup_alter_ne, lookup_insert_ne.
Qed.

Lemma wait_closing_now time_ms callback onredirect s :
  _closing (exec_state (wait time_ms callback onredirect) s) = _closing s
  ∧ now (exec_state (wait time_ms callback onredirect) s) = now s.
Proof.
  unfold wait, QTimer_new, timer_setSingleShot, timer_timeout_connect, timer_start.
  run. cbn. by destruct (truthy onredirect).
Qed.

Lemma wait_frame time_ms callback onredirect s :
  frame (λ _, False) (λ _, False) s (exec_state (wait time_ms callback onredirect) s).
Proof.
  destruct (wait_closing_now time_ms callback onredirect s) as [Hc Hn].
  split.
  - eexists. split; [apply wait_trace|]. intros site f H. cbn in H. by apply elem_of_nil in H.
  - rewrite wait_next_timer. lia.
  - intros t Hlt _. unfold timer_state.
    rewrite wait_cancel_on_redirect_timers, wait_active_timers, wait_qtimers.
    rewrite decide_False by lia.
    replace (bool_decide (t ∈ _active_timers s ∪ {[next_timer s]}))
      with (bool_decide (t ∈ _active_timers s))
      by (apply bool_decide_ext; set_solver by lia).
    destruct (truthy onredirect); [|done]. rewrite lookup_insert_ne; [done|lia].
  - congruence.
  - lia.
Qed.

Lemma wait_wf time_ms callback onredirect s :
  wf s → wf (exec_state (wait time_ms callback onredirect) s).
Proof.
  intros [Ha Hc Hq Ht]. split.
  - intros t. rewrite wait_active_timers, wait_next_timer, elem_of_union, elem_of_singleton.
    intros [H%Ha| ->]; lia.
  - rewrite wait_cancel_on_redirect_timers, wait_active_timers.
    destruct (truthy onredirect); [rewrite dom_insert_L|]; set_solver.
  - intros t. rewrite wait_qtimers, wait_next_timer.
    destruct (decide (t = next_timer s)) as [->|]; [lia|]. intros H%Hq. lia.
  - intros t f. rewrite wait_trace, invocations_app, wait_next_timer. cbn.
    rewrite app_nil_r. intros H%Ht. lia.
Qed.

Lemma wait_all_spec l s :
  wait_all l s = (Return (), exec_state (wait_all l) s)
  ∧ frame (λ _, False) (λ _, False) s (exec_state (wait_all l) s)
  ∧ (wf s → wf (exec_state (wait_all l) s)).
Proof.
  revert s. induction l as [|w l IH]; intros s.
  - split; [done|]. split; [apply frame_refl|done].
  - unfold wait_all in *. cbn [for_each]. unfold exec_state, mbind, M_bind in *.
    rewrite wait_returns. cbn.
    destruct (IH (exec_state (wait (wr_time_ms w) (wr_callback w) (wr_onredirect w)) s))
      as (Hr & Hf & Hw).
    split; [by rewrite Hr|]. split.
    + eapply frame_trans; [apply wait_frame|exact Hf].
    + intros H. by apply Hw, wait_wf.
Qed.

Section Calls.
Context (env : environment).

Lemma call_unfold site f s :
  call env site f s
  = wait_all (behaviour env f (set_trace (λ tr, tr ++ [Invoke site f]) s))
             (set_trace (λ tr, tr ++ [Invoke site f]) s).
Proof. reflexivity. Qed.

Lemma call_returns site f s :
  call env site f s = (Return (), exec_state (call env site f) s).
Proof.
  unfold exec_state. rewrite call_unfold.
  by destruct (wait_all_spec (behaviour env f (set_trace (λ tr, tr ++ [Invoke site f]) s))
                 (set_trace (λ tr, tr ++ [Invoke site f]) s)) as (-> & _).
Qed.

(** A call adds the event of the call and then events that are no calls. *)
Lemma call_trace site f s :
  ∃ evs, trace (exec_state (call env site f) s) = trace s ++ Invoke site f :: evs
         ∧ invocations evs = [].
Proof.
  unfold exec_state. rewrite call_unfold.
  destruct (wait_all_spec (behaviour env f (set_trace (λ tr, tr ++ [Invoke site f]) s))
              (set_trace (λ tr, tr ++ [Invoke site f]) s)) as (_ & [(evs & Htr & Hev) _ _ _ _] & _).
  exists evs. unfold exec_state in Htr. rewrite Htr. cbn. rewrite <- app_assoc. split; [done|].
  destruct (invocations evs) as [|[site' g] l]; [done|].
  exfalso. apply (Hev site' g). left.
Qed.

Lemma call_frame site f s :
  frame (λ site', site' = site) (λ _, False) s (exec_state (call env site f) s).
Proof.
  unfold exec_state. rewrite call_unfold.
  destruct (wait_all_spec (behaviour env f (set_trace (λ tr, tr ++ [Invoke site f]) s))
              (set_trace (λ tr, tr ++ [Invoke site f]) s)) as (_ & Hf & _).
  eapply frame_trans; [|eapply frame_weaken; [| |exact Hf]; done].
  split; try done.
  exists [Invoke site f]. split; [done|]. intros site' g H. cbn in H.
  apply list_elem_of_singleton in H. congruence.
Qed.

Lemma call_wf site f s :
  wf s →
  match site with
  | AtWaitTimeout t | AtCancelTimer t => (t < next_timer s)%nat
  | _ => True
  end →
  wf (exec_state (call env site f) s).
Proof.
  intros Hwf Hsite.
  unfold exec_state. rewrite call_unfold.
  destruct (wait_all_spec (behaviour env f (set_trace (λ tr, tr ++ [Invoke site f]) s))
              (set_trace (λ tr, tr ++ [Invoke site f]) s)) as (_ & _ & Hw).
  apply Hw. destruct Hwf as [Ha Hc Hq Ht]. split; try done.
  intros t g. cbn. rewrite invocations_app.
  change (invocations [Invoke site f]) with [(site, f)].
  rewrite !elem_of_app, !list_elem_of_singleton.
  intros [[H|H]|[H|H]]; try (apply (Ht t g); auto; fail).
  all: destruct site; try done; by simplify_eq.
Qed.

End Calls.

(** ** The result channel *)


(** The entry of C2 passes the logger's gate exactly when the tab's
    verbosity is at least 1. *)
Lemma already_returned_warning_gate (v : pyobj) (s : BrowserTab) :
  deferred_called s = true →
  log_output (exec_state (return_result v) s)
  = log_output s
    ++ (if verbosity s <? 1 then []
        else ["[" +:+ _uid s +:+ "] error: result is already returned"]).
Proof.
  intros E. unfold log_output, return_result, result_already_returned, deferred_callback.
  run. rewrite E. cbn. rewrite E. cbn.
  rewrite !omap_app. cbn. rewrite app_nil_r.
  destruct (verbosity s <? 1); reflexivity.
Qed.

(** The second delivery is refused by the Deferred itself. *)
Lemma return_result_twice (v w : pyobj) (s : BrowserTab) :
  (return_result w (exec_state (return_result v) s)).1 = Raise AlreadyCalledError.
Proof.
  unfold return_result, result_already_returned, deferred_callback. run.
  destruct (deferred_called s) eqn:E; cbn; repeat (rewrite E; cbn); done.
Qed.

(** ** Navigation *)

Section Navigation.
Context (env : environment).

Lemma go_baseurl_non_GET url callback errback baseurl http_method body s :
  str_truthy baseurl = true → http_method ≠ "GET" →
  go env url callback errback baseurl http_method body s
  = (Raise NotImplementedError, set_trace (λ tr, tr ++ [StoreHarTiming "_onStarted"]) s).
Proof.
  intros Hb Hm. unfold go. run. rewrite Hb.
  apply String.eqb_neq in Hm. by rewrite Hm.
Qed.

(** C3. [go] with a base URL and a method other than GET raises
    [NotImplementedError]; it asks the network manager for nothing, loads
    nothing into the frame, creates no reply and connects no slot. *)
Theorem go_baseurl_non_GET_issues_no_request
    url callback errback baseurl http_method body s :
  str_truthy baseurl = true → http_method ≠ "GET" →
  let s' := exec_state (go env url callback errback baseurl http_method body) s in
  (go env url callback errback baseurl http_method body s).1 = Raise NotImplementedError
  ∧ Forall (λ e, is_network_request e = false) (emitted s s')
  ∧ replies s' = replies s ∧ next_reply s' = next_reply s ∧ _reply s' = _reply s
  ∧ loadFinished_slots s' = loadFinished_slots s.
Proof.
  intros Hb Hm. cbv zeta. unfold exec_state.
  rewrite (go_baseurl_non_GET _ _ _ _ _ _ _ Hb Hm). cbn.
  split; [done|]. split; [|done].
  erewrite emitted_app by reflexivity. by repeat constructor.
Qed.

(** C10. The rejected call has stored the timing [_onStarted] in the HAR
    log before it raises: the tab it leaves differs from the one it
    found by exactly that record. *)
Theorem go_baseurl_non_GET_stores_onStarted
    url callback errback baseurl http_method body s :
  str_truthy baseurl = true → http_method ≠ "GET" →
  let s' := exec_state (go env url callback errback baseurl http_method body) s in
  (go env url callback errback baseurl http_method body s).1 = Raise NotImplementedError
  ∧ trace s' = trace s ++ [StoreHarTiming "_onStarted"]
  ∧ emitted s s' = [StoreHarTiming "_onStarted"].
Proof.
  intros Hb Hm. cbv zeta. unfold exec_state.
  rewrite (go_baseurl_non_GET _ _ _ _ _ _ _ Hb Hm). cbn.
  split; [done|]. split; [done|]. by apply emitted_app.
Qed.

(** C1. While the tab is not closing, one load-finished signal handled by
    [_on_goto_load_finished] returns and calls: the callback, once, when
    [ok] holds and [errorInfo] is [None]; nothing when [ok] fails and
    [errorInfo] is [None], the tab being left as it was but for a log
    entry; the errback, once, when [errorInfo] is set. *)
Theorem load_finished_classification ok callback errback s :
  _closing s = false →
  let s' := exec_state (_on_goto_load_finished env ok callback errback) s in
  (_on_goto_load_finished env ok callback errback s).1 = Return ()
  ∧ invocations (emitted s s')
    = match errorInfo s, ok with
      | None, true => [(AtLoadFinishedCallback, callback)]
      | None, false => []
      | Some _, _ => [(AtLoadFinishedErrback, errback)]
      end
  ∧ (errorInfo s = None → ok = false →
     s' = set_trace (λ tr, tr ++ [LoggerLog "Redirect or other non-fatal error detected"
                                            (Some 2)]) s).
Proof.
  intros Hc. cbv zeta. unfold _on_goto_load_finished. run. rewrite Hc.
  destruct (errorInfo s) as [info|] eqn:Hi, ok; cbn.
  all: try (split; [done|]; split; [by erewrite emitted_app by reflexivity|done]).
  all: match goal with
       | |- context [call env ?site ?f ?st] =>
           rewrite (call_returns env site f st);
           destruct (call_trace env site f st) as (evs & Htr & Hev)
       end.
  all: split; [done|]; split; [|done].
  all: cbn in *; unfold exec_state in *; erewrite emitted_app
         by (rewrite Htr; cbn; rewrite <- app_assoc; reflexivity).
  all: by rewrite invocations_app, !invocations_cons, Hev.
Qed.

End Navigation.

(** ** Computations that call nothing and touch no timer *)

Lemma calm_refl s : calm s s.
Proof. split; try done. exists []. by rewrite app_nil_r. Qed.

Lemma calm_trans s1 s2 s3 : calm s1 s2 → calm s2 s3 → calm s1 s3.
Proof.
  intros [(evs & Htr & Hev) ? ? ? ? ? ? ?] [(evs' & Htr' & Hev') ? ? ? ? ? ? ?].
  split; try congruence; [|auto].
  exists (evs ++ evs'). rewrite Htr', Htr, app_assoc, invocations_app, Hev, Hev'. done.
Qed.

Lemma calm_frame sites touched s s' : calm s s' → frame sites touched s s'.
Proof.
  intros [(evs & Htr & Hev) Hn Ha Hc Hq Hh Hcl Hnow]. split; try done.
  - exists evs. split; [done|]. rewrite Hev. intros ?? H. by apply elem_of_nil in H.
  - lia.
  - intros t _ _. unfold timer_state. by rewrite Ha, Hc, Hq.
  - lia.
Qed.

Lemma calm_wf s s' : calm s s' → wf s → wf s'.
Proof.
  intros [(evs & Htr & Hev) Hn Ha Hc Hq Hh Hcl Hnow] [Hwa Hwc Hwq Hwt].
  split; rewrite ?Hn, ?Ha, ?Hc, ?Hq; try done.
  intros t f. rewrite Htr, invocations_app, Hev, app_nil_r. apply Hwt.
Qed.

Ltac calm_now :=
  split; try done;
  cbn; eexists; split;
  [rewrite <- ?app_assoc; first [reflexivity | symmetry; apply app_nil_r] | reflexivity].

Lemma calmly_ret {A} (a : A) : calmly (mret a).
Proof. intros s. apply calm_refl. Qed.

Lemma calmly_raise {A} e : calmly (raise e : M A).
Proof. intros s. apply calm_refl. Qed.

Lemma calmly_gets {A} (f : BrowserTab → A) : calmly (gets f).
Proof. intros s. apply calm_refl. Qed.

Lemma calmly_lift_outcome {A} (o : outcome A) : calmly (lift_outcome o).
Proof. intros s. apply calm_refl. Qed.

Lemma calmly_bind {A B} (m : M A) (k : A → M B) :
  calmly m → (∀ a, calmly (k a)) → calmly (m ≫= k).
Proof.
  intros Hm Hk s. specialize (Hm s). unfold exec_state, mbind, M_bind in *.
  destruct (m s) as [[a|e] s1]; cbn in *; [|done].
  eapply calm_trans; [exact Hm|apply Hk].
Qed.

Lemma calmly_when b (m : M unit) : calmly m → calmly (when b m).
Proof. destruct b; [done|]. intros _. apply calmly_ret. Qed.

Lemma calmly_for_each {A} (l : list A) (body : A → M unit) :
  (∀ x, calmly (body x)) → calmly (for_each l body).
Proof.
  intros Hb. induction l as [|x l IH]; cbn [for_each]; [apply calmly_ret|].
  apply calmly_bind; [apply Hb|done].
Qed.

Lemma calmly_emit e :
  match e with Invoke _ _ => False | _ => True end → calmly (emit e).
Proof.
  intros He s. run. split; try done.
  exists [e]. split; [done|]. by destruct e.
Qed.

Lemma calmly_logger_log message min_level : calmly (logger_log message min_level).
Proof. by apply calmly_emit. Qed.

Lemma calmly_modify (f : BrowserTab → BrowserTab) :
  (∀ s, calm s (f s)) → calmly (modify f).
Proof. intros Hf s. apply Hf. Qed.

Create HintDb calm.
#[local] Hint Resolve calmly_ret calmly_raise calmly_gets calmly_lift_outcome
  calmly_logger_log calmly_when : calm.

Ltac calmly_step :=
  first
    [ solve [eauto with calm]
    | apply calmly_bind; [|intros ?]
    | apply calmly_when
    | apply calmly_emit; exact I
    | apply calmly_modify; intros ?; calm_now ].

Ltac calmly := repeat calmly_step.

Lemma return_result_calmly v : calmly (return_result v).
Proof.
  unfold return_result, result_already_returned, deferred_callback. calmly.
  all: match goal with |- calmly (if ?b then _ else _) => destruct b end; calmly.
Qed.

Lemma return_error_calmly v : calmly (return_error v).
Proof.
  unfold return_error, result_already_returned, deferred_errback. calmly.
  all: match goal with |- calmly (if ?b then _ else _) => destruct b end; calmly.
Qed.

Lemma close_calmly : calmly _close.
Proof. unfold _close. calmly. Qed.

Lemma stop_loading_calmly : calmly stop_loading.
Proof. unfold stop_loading. calmly. Qed.

Lemma set_default_headers_calmly h : calmly (set_default_headers h).
Proof. unfold set_default_headers. calmly. Qed.

Lemma history_calmly : calmly history.
Proof. unfold history. calmly. Qed.

Lemma loadFinished_connect_calmly callback errback :
  calmly (loadFinished_connect callback errback).
Proof. unfold loadFinished_connect. calmly. Qed.

Lemma set_request_headers_calmly req headers : calmly (_set_request_headers req headers).
Proof.
  unfold _set_request_headers. calmly.
  apply calmly_for_each. intros [name value]. calmly.
Qed.

Lemma network_manager_get_calmly req : calmly (network_manager_get req).
Proof. intros s. unfold network_manager_get. run. calm_now. Qed.

Lemma reply_finished_connect_calmly r slot : calmly (reply_finished_connect r slot).
Proof. unfold reply_finished_connect. calmly. Qed.

Lemma reply_complete_calmly r content_type data error :
  calmly (reply_complete r content_type data error).
Proof. unfold reply_complete. calmly. Qed.

Lemma reply_deleteLater_calmly r : calmly (reply_deleteLater r).
Proof. unfold reply_deleteLater. calmly. Qed.

#[local] Hint Resolve loadFinished_connect_calmly set_request_headers_calmly
  network_manager_get_calmly reply_finished_connect_calmly
  reply_deleteLater_calmly : calm.

Section CalmNavigation.
Context (env : environment).

Lemma create_request_calmly url : calmly (_create_request env url).
Proof. unfold _create_request. destruct (decode_utf8 env url); calmly. Qed.
#[local] Hint Resolve create_request_calmly : calm.

Lemma load_url_to_mainframe_calmly url http_method body :
  calmly (_load_url_to_mainframe env url http_method body).
Proof.
  unfold _load_url_to_mainframe. calmly.
  destruct (OPERATION_QT_CONSTANTS env !! http_method); calmly.
Qed.
#[local] Hint Resolve load_url_to_mainframe_calmly : calm.

Lemma go_calmly url callback errback baseurl http_method body :
  calmly (go env url callback errback baseurl http_method body).
Proof.
  unfold go, store_har_timing. calmly.
  destruct (str_truthy baseurl); [destruct (negb _)|]; calmly.
Qed.

Lemma on_baseurl_request_finished_calmly callback errback baseurl url :
  calmly (_on_baseurl_request_finished env callback errback baseurl url).
Proof.
  unfold _on_baseurl_request_finished. calmly.
  destruct (decode_utf8 env baseurl); calmly.
  all: repeat first
         [ progress calmly
         | match goal with
           | |- calmly (match ?x with _ => _ end) => destruct x
           end ].
Qed.

End CalmNavigation.

(** ** Timers *)

Section Timers.
Context (env : environment).

Lemma on_wait_timeout_active t callback s :
  t ∈ _active_timers s →
  _on_wait_timeout env t callback s = call env (AtWaitTimeout t) callback (expired t s).
Proof.
  intros Ht. unfold _on_wait_timeout, active_timers_remove, cancel_on_redirect_timers_pop.
  run. cbn. by rewrite decide_True.
Qed.

Lemma on_wait_timeout_inactive t callback s :
  t ∉ _active_timers s →
  _on_wait_timeout env t callback s
  = (Raise (KeyError (pretty t)),
     set_trace (λ tr, tr ++ [LoggerLog ("wait timeout for " +:+ pretty t) (Some 2)]) s).
Proof.
  intros Ht. unfold _on_wait_timeout, active_timers_remove, cancel_on_redirect_timers_pop.
  run. cbn. by rewrite decide_False.
Qed.

Lemma cancel_timer_active t errback s :
  t ∈ _active_timers s →
  _cancel_timer env t errback s
  = match is_callable errback with
    | Some f => call env (AtCancelTimer t) f (cancelled t s)
    | None => (Return (), cancelled t s)
    end.
Proof.
  intros Ht. unfold _cancel_timer, active_timers_remove, cancel_on_redirect_timers_pop,
    cancelled, timer_stop.
  run. cbn. rewrite decide_True by done. by destruct (is_callable errback).
Qed.

Lemma cancel_timer_inactive t errback s :
  t ∉ _active_timers s →
  _cancel_timer env t errback s
  = (Raise (KeyError (pretty t)),
     set_cancel_on_redirect_timers (delete t)
       (set_trace (λ tr, tr ++ [LoggerLog ("cancelling timer " +:+ pretty t) (Some 2)]) s)).
Proof.
  intros Ht. unfold _cancel_timer, active_timers_remove, cancel_on_redirect_timers_pop.
  run. cbn. by rewrite decide_False.
Qed.

Lemma expired_timer_state t s :
  timer_state t (expired t s) = (None, false, qtimers s !! t).
Proof.
  unfold timer_state, expired. cbn. rewrite lookup_delete_eq.
  rewrite bool_decide_eq_false_2 by set_solver. done.
Qed.

Lemma cancelled_timer_state t s :
  timer_state t (cancelled t s)
  = (None, false, stopped <$> qtimers s !! t).
Proof.
  unfold timer_state, cancelled, timer_stop. run. cbn. rewrite lookup_delete_eq.
  rewrite bool_decide_eq_false_2 by set_solver. by rewrite lookup_alter_eq.
Qed.

Lemma expired_frame t s :
  frame (λ _, False) (λ t', t' = t) s (expired t s).
Proof.
  split; try done.
  - eexists. split; [reflexivity|]. intros ?? H. by apply elem_of_nil in H.
  - intros t' _ Hne. unfold timer_state, expired. cbn.
    rewrite lookup_delete_ne by done.
    replace (bool_decide (t' ∈ _active_timers s ∖ {[t]}))
      with (bool_decide (t' ∈ _active_timers s)); [done|].
    apply bool_decide_ext. set_solver.
Qed.

Lemma cancelled_frame t s :
  frame (λ _, False) (λ t', t' = t) s (cancelled t s).
Proof.
  split; try done.
  - eexists. split; [reflexivity|]. intros ?? H. by apply elem_of_nil in H.
  - intros t' _ Hne. unfold timer_state, cancelled, timer_stop. run. cbn.
    rewrite lookup_delete_ne, lookup_alter_ne by done.
    replace (bool_decide (t' ∈ _active_timers s ∖ {[t]}))
      with (bool_decide (t' ∈ _active_timers s)); [done|].
    apply bool_decide_ext. set_solver.
Qed.

Lemma expired_wf t s : wf s → wf (expired t s).
Proof.
  intros [Ha Hc Hq Ht]. split; cbn.
  - intros t' H. apply Ha. set_solver.
  - rewrite dom_delete_L. set_solver.
  - done.
  - intros t' f. rewrite invocations_app. cbn. rewrite app_nil_r. apply Ht.
Qed.

Lemma cancelled_wf t s : wf s → wf (cancelled t s).
Proof.
  intros [Ha Hc Hq Ht]. unfold cancelled, timer_stop. run. split; cbn.
  - intros t' H. apply Ha. set_solver.
  - rewrite dom_delete_L. set_solver.
  - intros t' H. apply Hq. destruct (decide (t' = t)) as [->|].
    + by rewrite lookup_alter_eq, fmap_is_Some in H.
    + by rewrite lookup_alter_ne in H.
  - intros t' f. rewrite invocations_app. cbn. rewrite app_nil_r. apply Ht.
Qed.

Lemma on_wait_timeout_frame t callback s :
  frame (λ site, site = AtWaitTimeout t) (λ t', t' = t) s
        (exec_state (_on_wait_timeout env t callback) s).
Proof.
  unfold exec_state. destruct (decide (t ∈ _active_timers s)).
  - rewrite on_wait_timeout_active by done. eapply frame_trans.
    + eapply frame_weaken; [| |apply expired_frame]; cbn; naive_solver.
    + eapply frame_weaken; [| |apply call_frame]; cbn; naive_solver.
  - rewrite on_wait_timeout_inactive by done. apply calm_frame. calm_now.
Qed.

Lemma on_wait_timeout_wf t callback s :
  wf s → (t < next_timer s)%nat → wf (exec_state (_on_wait_timeout env t callback) s).
Proof.
  intros Hwf Hlt. unfold exec_state. destruct (decide (t ∈ _active_timers s)).
  - rewrite on_wait_timeout_active by done. by apply call_wf; [apply expired_wf|].
  - rewrite on_wait_timeout_inactive by done. eapply calm_wf; [|done]. calm_now.
Qed.

(** The effect of [_on_wait_timeout] on its own timer. *)
Lemma on_wait_timeout_own t callback s :
  t ∈ _active_timers s → (t < next_timer s)%nat →
  let s' := exec_state (_on_wait_timeout env t callback) s in
  (_on_wait_timeout env t callback s).1 = Return ()
  ∧ timer_state t s' = (None, false, qtimers s !! t)
  ∧ site_calls (AtWaitTimeout t) (trace s')
    = site_calls (AtWaitTimeout t) (trace s) ++ [callback].
Proof.
  intros Ha Hlt. cbv zeta. unfold exec_state. rewrite on_wait_timeout_active by done.
  rewrite call_returns. cbn [fst snd]. split; [done|]. split.
  - destruct (call_frame env (AtWaitTimeout t) callback (expired t s)) as [_ _ Ht _ _].
    rewrite Ht by (done || tauto). apply expired_timer_state.
  - destruct (call_trace env (AtWaitTimeout t) callback (expired t s)) as (evs & Htr & Hev).
    rewrite Htr. cbn.
    rewrite !site_calls_app, site_calls_invoke, (site_calls_quiet _ evs Hev).
    by rewrite (site_calls_quiet _ [_]), app_nil_r.
Qed.

Lemma cancel_timer_frame t errback s :
  frame (λ site, site = AtCancelTimer t) (λ t', t' = t) s
        (exec_state (_cancel_timer env t errback) s).
Proof.
  unfold exec_state. destruct (decide (t ∈ _active_timers s)).
  - rewrite cancel_timer_active by done.
    destruct (is_callable errback) as [f|].
    + eapply frame_trans.
      * eapply frame_weaken; [| |apply cancelled_frame]; cbn; naive_solver.
      * eapply frame_weaken; [| |apply call_frame]; cbn; naive_solver.
    + eapply frame_weaken; [| |apply cancelled_frame]; cbn; naive_solver.
  - rewrite cancel_timer_inactive by done. split; try done.
    + eexists. split; [reflexivity|]. intros ?? H. by apply elem_of_nil in H.
    + intros t' _ Hne. unfold timer_state. cbn. by rewrite lookup_delete_ne.
Qed.

Lemma cancel_timer_wf t errback s :
  wf s → (t < next_timer s)%nat → wf (exec_state (_cancel_timer env t errback) s).
Proof.
  intros Hwf Hlt. unfold exec_state. destruct (decide (t ∈ _active_timers s)).
  - rewrite cancel_timer_active by done.
    destruct (is_callable errback) as [f|]; [|by apply cancelled_wf].
    by apply call_wf; [apply cancelled_wf|].
  - rewrite cancel_timer_inactive by done. destruct Hwf as [Ha Hc Hq Ht]. split; cbn; try done.
    + rewrite dom_delete_L. set_solver.
    + intros t' f. rewrite invocations_app. cbn. rewrite app_nil_r. apply Ht.
Qed.

(** The effect of [_cancel_timer] on its own timer. *)
Lemma cancel_timer_own t errback s :
  t ∈ _active_timers s → (t < next_timer s)%nat →
  let s' := exec_state (_cancel_timer env t errback) s in
  (_cancel_timer env t errback s).1 = Return ()
  ∧ timer_state t s' = (None, false, stopped <$> qtimers s !! t)
  ∧ site_calls (AtCancelTimer t) (trace s')
    = site_calls (AtCancelTimer t) (trace s) ++ errback_calls errback.
Proof.
  intros Ha Hlt. cbv zeta. unfold exec_state, errback_calls.
  rewrite cancel_timer_active by done.
  destruct (is_callable errback) as [f|].
  - rewrite call_returns. cbn [fst snd]. split; [done|]. split.
    + destruct (call_frame env (AtCancelTimer t) f (cancelled t s)) as [_ _ Ht _ _].
      rewrite Ht by (done || tauto). apply cancelled_timer_state.
    + destruct (call_trace env (AtCancelTimer t) f (cancelled t s)) as (evs & Htr & Hev).
      rewrite Htr. unfold cancelled, timer_stop. run. cbn.
      rewrite !site_calls_app, site_calls_invoke, (site_calls_quiet _ evs Hev).
      by rewrite (site_calls_quiet _ [_]), app_nil_r.
  - cbn [fst snd]. split; [done|]. split; [apply cancelled_timer_state|].
    unfold cancelled, timer_stop. run. cbn.
    by rewrite site_calls_app, (site_calls_quiet _ [_]).
Qed.

(** Whether or not it raises, [_cancel_timer] leaves its timer in neither
    collection. *)
Lemma cancel_timer_gone t errback s :
  (t < next_timer s)%nat →
  let s' := exec_state (_cancel_timer env t errback) s in
  (t ∉ _active_timers s') ∧ _cancel_on_redirect_timers s' !! t = None.
Proof.
  intros Hlt. cbv zeta. destruct (decide (t ∈ _active_timers s)) as [Ha|Ha].
  - destruct (cancel_timer_own t errback s Ha Hlt) as (_ & Hts & _).
    apply timer_state_gone in Hts. tauto.
  - unfold exec_state. rewrite cancel_timer_inactive by done. cbn.
    by rewrite lookup_delete_eq.
Qed.

Lemma sweep_frame items s :
  frame (λ site, ∃ t, site = AtCancelTimer t ∧ t ∈ items.*1) (λ t, t ∈ items.*1)
        s (exec_state (sweep env items) s).
Proof.
  revert s. induction items as [|[t p] items IH]; intros s; [apply frame_refl|].
  unfold sweep in *. cbn [for_each]. unfold exec_state, mbind, M_bind in *.
  pose proof (cancel_timer_frame t p s) as Hf. unfold exec_state in Hf.
  destruct (_cancel_timer env t p s) as [[[]|e] s1]; cbn in *.
  - eapply frame_trans.
    + eapply frame_weaken; [| |exact Hf]; cbn.
      * intros site ->. exists t. split; [done|]. left.
      * intros t' ->. left.
    + eapply frame_weaken; [| |apply IH]; cbn.
      * intros site (t' & -> & Hin). exists t'. split; [done|]. by right.
      * intros t' Hin. by right.
  - eapply frame_weaken; [| |exact Hf]; cbn.
    + intros site ->. exists t. split; [done|]. left.
    + intros t' ->. left.
Qed.

(** The sweep over a snapshot of distinct timers that are all active:
    every one of them is cancelled. *)
Lemma sweep_spec items s :
  NoDup items.*1 →
  (∀ t p, (t, p) ∈ items → t ∈ _active_timers s ∧ (t < next_timer s)%nat) →
  wf s →
  let s' := exec_state (sweep env items) s in
  (sweep env items s).1 = Return ()
  ∧ wf s'
  ∧ ∀ t p, (t, p) ∈ items →
      timer_state t s' = (None, false, stopped <$> qtimers s !! t)
      ∧ site_calls (AtCancelTimer t) (trace s')
        = site_calls (AtCancelTimer t) (trace s) ++ errback_calls p.
Proof.
  revert s. induction items as [|[t p] items IH]; intros s Hnd Hin Hwf; cbv zeta.
  { split; [done|]. split; [done|]. intros t p H. by apply elem_of_nil in H. }
  apply NoDup_cons in Hnd as [Hfresh Hnd]. cbn in Hfresh.
  destruct (Hin t p) as [Ha Hlt]; [left|].
  destruct (cancel_timer_own t p s Ha Hlt) as (Hret & Hts & Hcalls).
  pose proof (cancel_timer_frame t p s) as Hf.
  pose proof (cancel_timer_wf t p s Hwf Hlt) as Hwf1.
  unfold sweep in *. cbn [for_each]. unfold exec_state, mbind, M_bind in *.
  destruct (_cancel_timer env t p s) as [[[]|e] s1]; cbn in *; [|done].
  assert (∀ t' p', (t', p') ∈ items →
            timer_state t' s1 = timer_state t' s ∧ (t' < next_timer s)%nat) as Hkeep.
  { intros t' p' Hin'. destruct (Hin t' p') as [_ Hlt']; [by right|].
    split; [|done]. apply (fr_timer _ _ _ _ Hf); [done|].
    intros ->. apply Hfresh. apply list_elem_of_fmap. by exists (t, p'). }
  destruct (IH s1) as (Hret' & Hwf' & Hall); [done| |done|].
  { intros t' p' Hin'. destruct (Hkeep t' p' Hin') as [Heq Hlt'].
    destruct (Hin t' p') as [Ha' _]; [by right|].
    split; [|pose proof (fr_next_timer _ _ _ _ Hf); lia].
    by apply (timer_state_eq _ _ _ Heq). }
  split; [done|]. split; [done|].
  intros t' p' [Heq|Hin']%elem_of_cons.
  - injection Heq as -> ->.
    pose proof (sweep_frame items s1) as Hf'. unfold sweep, exec_state in Hf'.
    split.
    + rewrite (fr_timer _ _ _ _ Hf'); [done| |done].
      pose proof (fr_next_timer _ _ _ _ Hf). lia.
    + rewrite (frame_site_calls _ _ _ _ _ Hf'); [done|].
      intros (t' & [= <-] & Hin'). done.
  - destruct (Hall t' p' Hin') as [Hts' Hcalls'].
    destruct (Hkeep t' p' Hin') as [Heq Hlt'].
    assert (t' ≠ t) as Hne.
    { intros ->. apply Hfresh. apply list_elem_of_fmap. by exists (t, p'). }
    split.
    + rewrite Hts'. apply timer_state_eq in Heq as (_ & _ & ->). done.
    + rewrite Hcalls'. f_equal. apply (frame_site_calls _ _ _ _ _ Hf). congruence.
Qed.

End Timers.

(** ** The handlers of signals, and single steps *)

Section Steps.
Context (env : environment).

Lemma on_url_changed_unfold url cause_ev s :
  _on_url_changed env url cause_ev s
  = sweep env (map_to_list (_cancel_on_redirect_timers s)) (with_history_entry cause_ev s).
Proof. unfold _on_url_changed. by destruct cause_ev. Qed.

Lemma with_history_entry_fields cause_ev s :
  trace (with_history_entry cause_ev s) = trace s
  ∧ next_timer (with_history_entry cause_ev s) = next_timer s
  ∧ _active_timers (with_history_entry cause_ev s) = _active_timers s
  ∧ _cancel_on_redirect_timers (with_history_entry cause_ev s) = _cancel_on_redirect_timers s
  ∧ qtimers (with_history_entry cause_ev s) = qtimers s
  ∧ _closing (with_history_entry cause_ev s) = _closing s
  ∧ now (with_history_entry cause_ev s) = now s.
Proof. by destruct cause_ev. Qed.

Lemma with_history_entry_frame sites touched cause_ev s :
  frame sites touched s (with_history_entry cause_ev s).
Proof.
  destruct (with_history_entry_fields cause_ev s) as (Ht & Hn & Ha & Hc & Hq & Hcl & Hnow).
  split.
  - exists []. rewrite app_nil_r. split; [done|]. intros ?? H. by apply elem_of_nil in H.
  - lia.
  - intros t _ _. unfold timer_state. by rewrite Ha, Hc, Hq.
  - congruence.
  - lia.
Qed.

Lemma with_history_entry_wf cause_ev s : wf s → wf (with_history_entry cause_ev s).
Proof.
  destruct (with_history_entry_fields cause_ev s) as (Ht & Hn & Ha & Hc & Hq & Hcl & Hnow).
  intros [Hwa Hwc Hwq Hwt]. split; by rewrite ?Ht, ?Hn, ?Ha, ?Hc, ?Hq.
Qed.

Lemma elem_of_snapshot (m : gmap timer pyobj) t :
  t ∈ (map_to_list m).*1 ↔ t ∈ dom m.
Proof.
  rewrite list_elem_of_fmap, elem_of_dom. split.
  - intros ([t' p] & -> & Hin%elem_of_map_to_list). by exists p.
  - intros [p Hp]. exists (t, p). by rewrite elem_of_map_to_list.
Qed.

Lemma on_url_changed_frame url cause_ev s :
  frame (sites_of (SignalUrlChanged url cause_ev) s)
        (touched_of (SignalUrlChanged url cause_ev) s)
        s (exec_state (_on_url_changed env url cause_ev) s).
Proof.
  unfold exec_state. rewrite on_url_changed_unfold. eapply frame_trans.
  - apply with_history_entry_frame.
  - eapply frame_weaken; [| |apply sweep_frame]; cbn.
    + intros site (t & -> & Hin). exists t. by rewrite <- elem_of_snapshot.
    + intros t. by rewrite elem_of_snapshot.
Qed.

(** A URL change cancels every timer of [_cancel_on_redirect_timers]. *)
Lemma on_url_changed_spec url cause_ev s :
  wf s →
  let s' := exec_state (_on_url_changed env url cause_ev) s in
  (_on_url_changed env url cause_ev s).1 = Return ()
  ∧ wf s'
  ∧ ∀ t p, _cancel_on_redirect_timers s !! t = Some p →
      timer_state t s' = (None, false, stopped <$> qtimers s !! t)
      ∧ site_calls (AtCancelTimer t) (trace s')
        = site_calls (AtCancelTimer t) (trace s) ++ errback_calls p.
Proof.
  intros Hwf. cbv zeta. unfold exec_state. rewrite on_url_changed_unfold.
  destruct (with_history_entry_fields cause_ev s) as (Ht & Hn & Ha & Hc & Hq & _).
  destruct (sweep_spec env (map_to_list (_cancel_on_redirect_timers s))
              (with_history_entry cause_ev s)) as (Hret & Hwf' & Hall).
  - apply NoDup_fst_map_to_list.
  - intros t p Hin%elem_of_map_to_list. rewrite Ha, Hn.
    assert (t ∈ _active_timers s) as Hact.
    { apply (wf_cancel _ Hwf), elem_of_dom. eauto. }
    split; [done|]. by apply (wf_active _ Hwf).
  - by apply with_history_entry_wf.
  - split; [done|]. split; [done|].
    intros t p Hin%elem_of_map_to_list. destruct (Hall t p Hin) as [Hts Hcalls].
    unfold exec_state in *. by rewrite Hts, Hcalls, Hq, Ht.
Qed.

Lemma on_goto_load_finished_frame ok callback errback s :
  frame (sites_of (SignalLoadFinished ok) s) (λ _, False)
        s (exec_state (_on_goto_load_finished env ok callback errback) s).
Proof.
  unfold _on_goto_load_finished. run. destruct (_closing s) eqn:Hc; cbn.
  { apply calm_frame. calm_now. }
  repeat match goal with
         | |- context [if ?b then _ else _] => destruct b
         end.
  all: try (apply calm_frame; calm_now).
  all: match goal with
       | |- frame _ _ ?s0 (call env ?site ?f ?s1).2 =>
           apply (frame_trans _ _ s0 s1);
             [apply calm_frame; calm_now
             |eapply frame_weaken; [| |apply call_frame]; cbn; naive_solver]
       end.
Qed.

Lemma on_goto_load_finished_wf ok callback errback s :
  wf s → wf (exec_state (_on_goto_load_finished env ok callback errback) s).
Proof.
  intros Hwf. unfold _on_goto_load_finished. run. destruct (_closing s) eqn:Hc; cbn.
  { eapply calm_wf; [|done]. calm_now. }
  repeat match goal with
         | |- context [if ?b then _ else _] => destruct b
         end.
  all: try (eapply calm_wf; [|done]; calm_now).
  all: apply call_wf; [|done]; eapply calm_wf; [|done]; calm_now.
Qed.

Lemma run_slots_calm {A} (slots : list A) (slot : A → M unit) s :
  (∀ x, calmly (slot x)) → calm s (run_slots slots slot s).
Proof.
  intros Hslot. revert s. induction slots as [|x slots IH]; intros s; [apply calm_refl|].
  cbn. eapply calm_trans; [apply Hslot|apply IH].
Qed.

Lemma load_finished_slots_frame ok slots s :
  frame (sites_of (SignalLoadFinished ok) s) (λ _, False) s
    (run_slots slots
       (λ '(callback, errback), _on_goto_load_finished env ok callback errback) s).
Proof.
  assert (∀ s1, frame (sites_of (SignalLoadFinished ok) s) (λ _, False) s s1 →
            frame (sites_of (SignalLoadFinished ok) s) (λ _, False) s
              (run_slots slots
                 (λ '(callback, errback), _on_goto_load_finished env ok callback errback) s1))
    as H; [|apply H, frame_refl].
  induction slots as [|[callback errback] slots IH]; intros s1 Hf; [done|].
  cbn. apply IH. eapply frame_trans; [exact Hf|].
  eapply frame_weaken; [| |apply on_goto_load_finished_frame]; [|done].
  cbn. intros site [Hsite Hc]. split; [done|].
  destruct (_closing s) eqn:Hcs; [|done].
  rewrite (fr_closing _ _ _ _ Hf) in Hc; done.
Qed.

Lemma load_finished_slots_wf ok slots s :
  wf s →
  wf (run_slots slots
        (λ '(callback, errback), _on_goto_load_finished env ok callback errback) s).
Proof.
  revert s. induction slots as [|[callback errback] slots IH]; intros s Hwf; [done|].
  cbn. by apply IH, on_goto_load_finished_wf.
Qed.

Lemma timer_elapse_frame t s :
  frame (λ _, False) (λ t', t' = t) s (exec_state (timer_elapse t) s).
Proof.
  unfold timer_elapse. run. split; try done.
  - exists []. rewrite app_nil_r. split; [done|]. intros ?? H. by apply elem_of_nil in H.
  - intros t' _ Hne. unfold timer_state. cbn. by rewrite lookup_alter_ne.
Qed.

Lemma timer_elapse_wf t s : wf s → wf (exec_state (timer_elapse t) s).
Proof.
  intros [Ha Hc Hq Ht]. unfold timer_elapse. run. split; cbn; try done.
  intros t' H. apply Hq. destruct (decide (t' = t)) as [->|].
  - by rewrite lookup_alter_eq, fmap_is_Some in H.
  - by rewrite lookup_alter_ne in H.
Qed.

(** What one step may do. *)
Lemma step_frame a s s' :
  step env a s = Some s' → frame (sites_of a s) (touched_of a s) s s'.
Proof.
  destruct a; cbn [step]; intros Hstep; simplify_eq.
  - apply calm_frame, go_calmly.
  - apply wait_frame.
  - apply calm_frame, close_calmly.
  - apply calm_frame, stop_loading_calmly.
  - apply calm_frame, return_result_calmly.
  - apply calm_frame, return_error_calmly.
  - apply calm_frame, set_default_headers_calmly.
  - apply calm_frame, history_calmly.
  - apply load_finished_slots_frame.
  - apply on_url_changed_frame.
  - destruct (qtimers s !! t) as [q|]; [|done].
    destruct (due q) as [d|], (timeout_slot q) as [callback|]; try done.
    destruct (d <=? now s); simplify_eq.
    unfold exec_state, mbind, M_bind. unfold timer_elapse at 1. run. cbn.
    eapply frame_trans.
    + eapply frame_weaken; [| |apply timer_elapse_frame]; cbn; naive_solver.
    + apply on_wait_timeout_frame.
  - destruct (replies s !! r) as [q|]; [|done].
    destruct (rp_finished q); simplify_eq.
    apply calm_frame. eapply calm_trans; [apply reply_complete_calmly|].
    apply run_slots_calm. intros [[[callback errback] baseurl] url].
    apply on_baseurl_request_finished_calmly.
  - apply calm_frame. calm_now.
  - destruct (0 <=? d) eqn:Hd; simplify_eq. split; try done; cbn; [|lia].
    exists []. rewrite app_nil_r. split; [done|]. intros ?? H. by apply elem_of_nil in H.
Qed.

Lemma step_wf a s s' : wf s → step env a s = Some s' → wf s'.
Proof.
  intros Hwf. destruct a; cbn [step]; intros Hstep; simplify_eq.
  - eapply calm_wf; [apply go_calmly|done].
  - by apply wait_wf.
  - eapply calm_wf; [apply close_calmly|done].
  - eapply calm_wf; [apply stop_loading_calmly|done].
  - eapply calm_wf; [apply return_result_calmly|done].
  - eapply calm_wf; [apply return_error_calmly|done].
  - eapply calm_wf; [apply set_default_headers_calmly|done].
  - eapply calm_wf; [apply history_calmly|done].
  - by apply load_finished_slots_wf.
  - by apply on_url_changed_spec.
  - destruct (qtimers s !! t) as [q|] eqn:Hq; [|done].
    destruct (due q) as [d|], (timeout_slot q) as [callback|]; try done.
    destruct (d <=? now s); simplify_eq.
    unfold exec_state, mbind, M_bind. unfold timer_elapse at 1. run. cbn.
    apply on_wait_timeout_wf; [by apply timer_elapse_wf|].
    cbn. apply (wf_qtimers _ Hwf). eauto.
  - destruct (replies s !! r) as [q|]; [|done].
    destruct (rp_finished q); simplify_eq.
    eapply calm_wf; [|done]. eapply calm_trans; [apply reply_complete_calmly|].
    apply run_slots_calm. intros [[[callback errback] baseurl] url].
    apply on_baseurl_request_finished_calmly.
  - eapply calm_wf; [|done]. calm_now.
  - destruct (0 <=? d) eqn:Hd; simplify_eq. by destruct Hwf.
Qed.

Lemma new_tab_wf verbosity uid : wf (new_tab verbosity uid).
Proof.
  split; cbn; try done.
  - intros t [q Hq]. by rewrite lookup_empty in Hq.
  - intros t f [H|H]; by apply elem_of_nil in H.
Qed.

Lemma exec_wf acts s s' : wf s → exec env acts s = Some s' → wf s'.
Proof.
  revert s. induction acts as [|a acts IH]; intros s Hwf; cbn; [congruence|].
  destruct (step env a s) as [s1|] eqn:Hstep; [|done].
  intros H. eapply IH; [|exact H]. by eapply step_wf.
Qed.

End Steps.

(** ** Closing *)

Section Closing.
Context (env : environment).

Lemma closing_sites a s site :
  _closing s = true →
  site = AtLoadFinishedCallback ∨ site = AtLoadFinishedErrback →
  ¬ sites_of a s site.
Proof.
  intros Hc Hsite. destruct a; cbn; try tauto.
  - intros [_ ?]. congruence.
  - intros (t & -> & _). by destruct Hsite.
  - intros ->. by destruct Hsite.
Qed.

Lemma exec_closing acts s s' :
  _closing s = true → exec env acts s = Some s' →
  _closing s' = true
  ∧ site_calls AtLoadFinishedCallback (trace s') = site_calls AtLoadFinishedCallback (trace s)
  ∧ site_calls AtLoadFinishedErrback (trace s') = site_calls AtLoadFinishedErrback (trace s).
Proof.
  revert s. induction acts as [|a acts IH]; intros s Hc; cbn.
  { by intros [= <-]. }
  destruct (step env a s) as [s1|] eqn:Hstep; [|done]. intros Hexec.
  pose proof (step_frame env a s s1 Hstep) as Hf.
  destruct (IH s1 (fr_closing _ _ _ _ Hf Hc) Hexec) as (Hc' & H1 & H2).
  split; [done|]. rewrite H1, H2.
  split; eapply frame_site_calls; try exact Hf; apply closing_sites; auto.
Qed.

(** C4. In a tab whose closing flag is set, [_on_goto_load_finished] does
    the same whatever [ok] and [errorInfo] are: it hands the logger one
    entry and returns.  The flag stays set whatever happens to the tab
    afterwards, and no callback or errback of [go] is called from then on. *)
Theorem closing_tab_ignores_load_finished s :
  _closing s = true →
  (∀ ok callback errback,
     _on_goto_load_finished env ok callback errback s
     = (Return (),
        set_trace (λ tr, tr ++ [LoggerLog "loadFinished is ignored because BrowserTab is closing"
                                          (Some 2)]) s))
  ∧ ∀ acts s', exec env acts s = Some s' →
      _closing s' = true
      ∧ site_calls AtLoadFinishedCallback (trace s')
        = site_calls AtLoadFinishedCallback (trace s)
      ∧ site_calls AtLoadFinishedErrback (trace s')
        = site_calls AtLoadFinishedErrback (trace s).
Proof.
  intros Hc. split.
  - intros ok callback errback. unfold _on_goto_load_finished. run. by rewrite Hc.
  - intros acts s'. by apply exec_closing.
Qed.

End Closing.

(** ** Timers cancelled on redirect *)

Section RedirectCancellation.
Context (env : environment).

Lemma step_now a s s' : step env a s = Some s' → now s ≤ now s'.
Proof. intros H. by destruct (step_frame env a s s' H). Qed.

Lemma exec_now acts s s' : exec env acts s = Some s' → now s ≤ now s'.
Proof.
  revert s. induction acts as [|a acts IH]; intros s; cbn.
  { intros [= <-]. lia. }
  destruct (step env a s) as [s1|] eqn:Hstep; [|done]. intros H.
  apply step_now in Hstep. apply IH in H. lia.
Qed.

(** A step leaves a timer alone when it neither touches it nor calls for it. *)
Lemma step_untouched a s s' t :
  step env a s = Some s' → (t < next_timer s)%nat → ¬ touched_of a s t →
  ¬ sites_of a s (AtWaitTimeout t) → ¬ sites_of a s (AtCancelTimer t) →
  (t < next_timer s')%nat
  ∧ timer_state t s' = timer_state t s
  ∧ site_calls (AtWaitTimeout t) (trace s') = site_calls (AtWaitTimeout t) (trace s)
  ∧ site_calls (AtCancelTimer t) (trace s') = site_calls (AtCancelTimer t) (trace s).
Proof.
  intros Hstep Hlt Htouch Hs1 Hs2. pose proof (step_frame env a s s' Hstep) as Hf.
  split; [pose proof (fr_next_timer _ _ _ _ Hf); lia|].
  split; [by apply (fr_timer _ _ _ _ Hf)|].
  split; by eapply frame_site_calls.
Qed.

Lemma running_timer_state t s s' :
  timer_state t s' = timer_state t s → running t s' = running t s.
Proof. intros (_ & _ & Hq)%timer_state_eq. unfold running. by rewrite Hq. Qed.

Lemma wait_pending time_ms callback onredirect s :
  wf s → truthy onredirect = true →
  pending (next_timer s) onredirect (now s + time_ms)
          (exec_state (wait time_ms callback onredirect) s).
Proof.
  intros Hwf Hp. unfold pending.
  rewrite wait_next_timer, wait_cancel_on_redirect_timers, wait_active_timers, wait_trace, Hp.
  split; [lia|]. split; [apply lookup_insert_eq|]. split; [set_solver|]. split.
  { eexists. rewrite wait_qtimers, decide_True by done. done. }
  rewrite !site_calls_app, !(site_calls_quiet _ [_]), !app_nil_r by done.
  split; apply site_calls_none; intros f Hf.
  - assert (next_timer s < next_timer s)%nat; [|lia]. apply (wf_trace _ Hwf _ f). auto.
  - assert (next_timer s < next_timer s)%nat; [|lia]. apply (wf_trace _ Hwf _ f). auto.
Qed.

Lemma pending_timeout_disabled t onredirect d s :
  pending t onredirect d s → now s < d → step env (SignalTimeout t) s = None.
Proof.
  intros (_ & _ & _ & (q & Hq & Hd) & _) Hnow. cbn. rewrite Hq, Hd.
  destruct (timeout_slot q); [|done]. destruct (d <=? now s) eqn:E; [lia|done].
Qed.

Lemma swept_timeout_disabled t onredirect s :
  swept t onredirect s → step env (SignalTimeout t) s = None.
Proof.
  intros (_ & _ & _ & Hr & _). cbn. unfold running in Hr.
  destruct (qtimers s !! t) as [q|]; [|done].
  destruct (due q) as [d|]; [|done]. by apply bool_decide_eq_false in Hr as [].
Qed.

Lemma url_changed_pending url cause_ev t onredirect d s :
  wf s → pending t onredirect d s →
  swept t onredirect (exec_state (_on_url_changed env url cause_ev) s).
Proof.
  intros Hwf (Hlt & Hc & Ha & (q & Hq & Hd) & Hw & Hr).
  destruct (on_url_changed_spec env url cause_ev s Hwf) as (_ & _ & Hall).
  destruct (Hall t onredirect Hc) as [Hts Hcalls].
  pose proof (on_url_changed_frame env url cause_ev s) as Hf.
  destruct (timer_state_gone _ _ _ Hts) as (Hc' & Ha' & Hq').
  split; [pose proof (fr_next_timer _ _ _ _ Hf); lia|].
  split; [done|]. split; [done|]. split.
  { unfold running. by rewrite Hq', Hq. }
  split.
  - rewrite <- Hw. eapply frame_site_calls; [exact Hf|]. cbn. by intros (t' & [=] & _).
  - by rewrite Hcalls, Hr.
Qed.

Lemma step_pending a s s' t onredirect d :
  wf s → pending t onredirect d s → now s < d → step env a s = Some s' →
  (pending t onredirect d s' ∨ swept t onredirect s') ∧ a ≠ SignalTimeout t.
Proof.
  intros Hwf Hp Hnow Hstep.
  assert (a = SignalTimeout t → False) as Hne.
  { intros ->. by rewrite (pending_timeout_disabled _ _ _ _ Hp Hnow) in Hstep. }
  split; [|done].
  destruct (Hp) as (Hlt & Hc & Ha & (q & Hq & Hd) & Hw & Hr).
  assert ((∃ url cause_ev, a = SignalUrlChanged url cause_ev)
          ∨ (¬ touched_of a s t ∧ ¬ sites_of a s (AtWaitTimeout t)
             ∧ ¬ sites_of a s (AtCancelTimer t))) as [(url & cause_ev & ->)|(H1 & H2 & H3)].
  { destruct a; cbn; try (right; tauto).
    - right. split; [tauto|]. split; by intros [[|] _].
    - left. eauto.
    - right. split; [|split]; congruence. }
  - right. cbn in Hstep. injection Hstep as <-. by eapply url_changed_pending.
  - left. destruct (step_untouched a s s' t Hstep Hlt H1 H2 H3) as (Hlt' & Hts & Hw' & Hr').
    apply timer_state_eq in Hts as (Hc' & Ha' & Hq').
    unfold pending. rewrite Hc', Ha', Hq', Hw', Hr'. eauto 10.
Qed.

Lemma step_swept a s s' t onredirect :
  swept t onredirect s → step env a s = Some s' →
  swept t onredirect s' ∧ a ≠ SignalTimeout t.
Proof.
  intros Hs Hstep.
  assert (a = SignalTimeout t → False) as Hne.
  { intros ->. by rewrite (swept_timeout_disabled _ _ _ Hs) in Hstep. }
  split; [|done].
  destruct (Hs) as (Hlt & Hc & Ha & Hrun & Hw & Hr).
  assert (¬ touched_of a s t ∧ ¬ sites_of a s (AtWaitTimeout t)
          ∧ ¬ sites_of a s (AtCancelTimer t)) as (H1 & H2 & H3).
  { destruct a; cbn; try tauto.
    - split; [tauto|]. split; by intros [[|] _].
    - rewrite elem_of_dom, Hc. split; [by intros [? ?]|].
      split; [by intros (t' & [=] & _)|].
      intros (t' & [= <-] & Hin). apply elem_of_dom in Hin as [? Hin]. congruence.
    - split; [|split]; congruence. }
  destruct (step_untouched a s s' t Hstep Hlt H1 H2 H3) as (Hlt' & Hts & Hw' & Hr').
  pose proof (running_timer_state _ _ _ Hts) as Hrun'.
  apply timer_state_eq in Hts as (Hc' & Ha' & Hq').
  unfold swept. rewrite Hc', Ha', Hrun', Hw', Hr'. done.
Qed.

Lemma exec_swept acts s s' t onredirect :
  swept t onredirect s → exec env acts s = Some s' →
  swept t onredirect s' ∧ SignalTimeout t ∉ acts.
Proof.
  revert s. induction acts as [|a acts IH]; intros s Hs; cbn.
  { intros [= <-]. split; [done|]. apply not_elem_of_nil. }
  destruct (step env a s) as [s1|] eqn:Hstep; [|done]. intros Hexec.
  destruct (step_swept a s s1 t onredirect Hs Hstep) as [Hs1 Hne].
  destruct (IH s1 Hs1 Hexec) as [Hs' Hnin].
  split; [done|]. rewrite not_elem_of_cons. by split.
Qed.

Lemma exec_pending acts s s' t onredirect d :
  wf s → pending t onredirect d s → exec env acts s = Some s' → now s' < d →
  (pending t onredirect d s' ∨ swept t onredirect s') ∧ SignalTimeout t ∉ acts.
Proof.
  revert s. induction acts as [|a acts IH]; intros s Hwf Hp; cbn.
  { intros [= <-] _. split; [by left|]. apply not_elem_of_nil. }
  destruct (step env a s) as [s1|] eqn:Hstep; [|done]. intros Hexec Hnow.
  pose proof (step_now a s s1 Hstep). pose proof (exec_now acts s1 s' Hexec).
  destruct (step_pending a s s1 t onredirect d Hwf Hp) as [[Hp1|Hs1] Hne]; [lia|done| |].
  - destruct (IH s1) as [H' Hnin]; [by eapply step_wf|done|done|done|].
    split; [done|]. rewrite not_elem_of_cons. by split.
  - destruct (exec_swept acts s1 s' t onredirect Hs1 Hexec) as [H' Hnin].
    split; [by right|]. rewrite not_elem_of_cons. by split.
Qed.


End RedirectCancellation.

(** ** The two collections of timers *)

Section TimerCollections.
Context (env : environment).

Lemma step_removal a s s' t :
  wf s → step env a s = Some s' →
  t ∈ dom (_cancel_on_redirect_timers s) →
  t ∉ dom (_cancel_on_redirect_timers s') →
  t ∉ _active_timers s'.
Proof.
  intros Hwf Hstep Hin Hout.
  assert (t ∈ _active_timers s) as Ha by by apply (wf_cancel _ Hwf).
  assert (t < next_timer s)%nat as Hlt by by apply (wf_active _ Hwf).
  pose proof (step_frame env a s s' Hstep) as Hf.
  assert (¬ touched_of a s t → False) as Hcontr.
  { intros Hnt. pose proof (fr_timer _ _ _ _ Hf t Hlt Hnt) as Heq.
    apply timer_state_eq in Heq as (Hc & _). apply Hout.
    apply elem_of_dom. rewrite Hc. by apply elem_of_dom. }
  assert (touched_of a s t) as Htouch.
  { destruct a; cbn in *; try (exfalso; apply Hcontr; tauto).
    - done.
    - destruct (decide (t = t0)) as [|Hne']; [done|]. exfalso. by apply Hcontr. }
  destruct a; cbn in Htouch; try done.
  - cbn in Hstep. injection Hstep as <-. apply elem_of_dom in Hin as [p Hp].
    destruct (on_url_changed_spec env url cause_ev s Hwf) as (_ & _ & Hall).
    destruct (Hall t p Hp) as [Hts _]. by apply timer_state_gone in Hts as (_ & ? & _).
  - subst t0. cbn in Hstep.
    destruct (qtimers s !! t) as [q|]; [|done].
    destruct (due q) as [d|], (timeout_slot q) as [callback|]; try done.
    destruct (d <=? now s); simplify_eq.
    unfold exec_state, mbind, M_bind. unfold timer_elapse at 1. run. cbn.
    match goal with
    | |- _ ∉ _active_timers (_on_wait_timeout env t callback ?s1).2 =>
        destruct (on_wait_timeout_own env t callback s1) as (_ & Hts & _); [done|done|]
    end.
    by apply timer_state_gone in Hts as (_ & ? & _).
Qed.

(** C7. In every tab reached from a new one, each timer of
    [_cancel_on_redirect_timers] is in [_active_timers]; and whatever
    happens next, a timer that leaves one of the two collections is then
    in neither. *)
Theorem timer_collections_invariant verbosity uid acts s :
  exec env acts (new_tab verbosity uid) = Some s →
  dom (_cancel_on_redirect_timers s) ⊆ _active_timers s
  ∧ ∀ a s', step env a s = Some s' →
      dom (_cancel_on_redirect_timers s') ⊆ _active_timers s'
      ∧ ∀ t,
          (t ∈ _active_timers s → t ∉ _active_timers s' →
           t ∉ dom (_cancel_on_redirect_timers s'))
          ∧ (t ∈ dom (_cancel_on_redirect_timers s) →
             t ∉ dom (_cancel_on_redirect_timers s') →
             t ∉ _active_timers s').
Proof.
  intros Hexec.
  assert (wf s) as Hwf by (eapply exec_wf; [apply new_tab_wf|exact Hexec]).
  split; [apply (wf_cancel _ Hwf)|].
  intros a s' Hstep. pose proof (step_wf env a s s' Hwf Hstep) as Hwf'.
  split; [apply (wf_cancel _ Hwf')|]. intros t. split.
  - intros _ Hout Hin. by apply Hout, (wf_cancel _ Hwf').
  - by apply (step_removal a).
Qed.

(** C6, as the code has it.  On the expiry of a timer that is in
    [_active_timers], [_on_wait_timeout] removes the timer from
    [_active_timers], then from [_cancel_on_redirect_timers], and only then
    calls the callback, once, in the tab without the timer; it returns
    when the callback has returned. *)
Theorem natural_expiry_removes_then_calls t callback s :
  t ∈ _active_timers s →
  _on_wait_timeout env t callback s = call env (AtWaitTimeout t) callback (expired t s)
  ∧ (t ∉ _active_timers (expired t s))
  ∧ _cancel_on_redirect_timers (expired t s) !! t = None
  ∧ (_on_wait_timeout env t callback s).1 = Return ()
  ∧ invocations (emitted s (exec_state (_on_wait_timeout env t callback) s))
    = [(AtWaitTimeout t, callback)].
Proof.
  intros Ha. rewrite on_wait_timeout_active by done.
  destruct (timer_state_gone _ _ _ (expired_timer_state t s)) as (Hc & Hn & _).
  split; [done|]. split; [done|]. split; [done|].
  rewrite call_returns. split; [done|].
  destruct (call_trace env (AtWaitTimeout t) callback (expired t s)) as (evs & Htr & Hev).
  unfold exec_state in *. rewrite on_wait_timeout_active by done.
  erewrite emitted_app by (rewrite Htr; cbn; rewrite <- app_assoc; reflexivity).
  by rewrite invocations_app, !invocations_cons, Hev.
Qed.

End TimerCollections.

(** C6, as the claim has it, fails.  Callable 7 of [sample_env] tells the
    two orders apart: called by [_on_wait_timeout] for timer 0 it finds the
    timer gone from [_active_timers] and does nothing, whereas in the order
    of the specification it would still find the timer and call [wait]. *)
Lemma natural_expiry_order_counterexample :
  let s := exec_state (wait 100 7%nat PyNone) (new_tab 0 "tab") in
  elements (_active_timers s) = [0%nat]
  ∧ elements (_active_timers (exec_state (_on_wait_timeout sample_env 0%nat 7%nat) s)) = []
  ∧ elements (_active_timers
                (exec_state (natural_expiry_as_specified sample_env 0%nat 7%nat) s))
    = [1%nat]
  ∧ emitted s (exec_state (_on_wait_timeout sample_env 0%nat 7%nat) s)
    = [LoggerLog "wait timeout for 0" (Some 2); Invoke (AtWaitTimeout 0%nat) 7%nat]
  ∧ emitted s (exec_state (natural_expiry_as_specified sample_env 0%nat 7%nat) s)
    = [LoggerLog "wait timeout for 0" (Some 2); Invoke (AtWaitTimeout 0%nat) 7%nat;
       LoggerLog "waiting 10ms; timer 1" (Some 2)].
Proof. vm_compute. repeat split; reflexivity. Qed.

(** ** The base-URL path *)

Section BaseUrl.
Context (env : environment).

Lemma on_baseurl_request_finished_run callback errback baseurl url base r q s :
  decode_utf8 env baseurl = Some base → _reply s = Some r → replies s !! r = Some q →
  let s' := exec_state (_on_baseurl_request_finished env callback errback baseurl url) s in
  (_on_baseurl_request_finished env callback errback baseurl url s).1 = Return ()
  ∧ trace s'
    = trace s
      ++ [LoggerLog "baseurl_request_finished" (Some 2);
          FrameSetContent (rp_data q) (rp_content_type q) base]
      ++ match rp_error q with
         | Some errorString =>
             [LoggerLog ("Error loading " +:+ url +:+ ": " +:+ errorString) (Some 1)]
         | None => []
         end
      ++ [ReplyClose r; ReplyDeleteLater r]
  ∧ loadFinished_slots s' = loadFinished_slots s ++ [(callback, errback)].
Proof.
  intros Hd Hr Hq. cbv zeta. unfold _on_baseurl_request_finished, loadFinished_connect,
    reply_deleteLater.
  rewrite Hd. run. cbn. rewrite Hr. cbn. rewrite Hq. cbn.
  destruct (rp_error q); cbn; rewrite <- ?app_assoc; done.
Qed.

(** With a base URL that does not decode, nothing is injected. *)
Lemma on_baseurl_request_finished_undecodable callback errback baseurl url s :
  decode_utf8 env baseurl = None →
  _on_baseurl_request_finished env callback errback baseurl url s
  = (Raise UnicodeDecodeError,
     set_loadFinished_slots (λ l, l ++ [(callback, errback)])
       (set_trace (λ tr, tr ++ [LoggerLog "baseurl_request_finished" (Some 2)]) s)).
Proof.
  intros Hd. unfold _on_baseurl_request_finished, loadFinished_connect. by rewrite Hd.
Qed.


End BaseUrl.

(** ** History *)

Section History.
Context (env : environment).

Lemma wait_history time_ms callback onredirect s :
  _history (exec_state (wait time_ms callback onredirect) s) = _history s.
Proof.
  unfold wait, QTimer_new, timer_setSingleShot, timer_timeout_connect, timer_start.
  run. cbn. by destruct (truthy onredirect).
Qed.

Lemma wait_all_history l s : _history (exec_state (wait_all l) s) = _history s.
Proof.
  revert s. induction l as [|w l IH]; intros s; [done|].
  unfold wait_all in *. cbn [for_each]. unfold exec_state, mbind, M_bind in *.
  rewrite wait_returns. cbn. rewrite IH. apply wait_history.
Qed.

Lemma call_history site f s : _history (exec_state (call env site f) s) = _history s.
Proof.
  unfold exec_state. rewrite call_unfold.
  pose proof (wait_all_history (behaviour env f (set_trace (λ tr, tr ++ [Invoke site f]) s))
                (set_trace (λ tr, tr ++ [Invoke site f]) s)) as H.
  unfold exec_state in H. by rewrite H.
Qed.

Lemma cancel_timer_history t errback s :
  _history (exec_state (_cancel_timer env t errback) s) = _history s.
Proof.
  unfold exec_state. destruct (decide (t ∈ _active_timers s)).
  - rewrite cancel_timer_active by done.
    destruct (is_callable errback) as [f|]; [|done].
    exact (call_history (AtCancelTimer t) f (cancelled t s)).
  - by rewrite cancel_timer_inactive.
Qed.

Lemma sweep_history items s : _history (exec_state (sweep env items) s) = _history s.
Proof.
  revert s. induction items as [|[t p] items IH]; intros s; [done|].
  unfold sweep in *. cbn [for_each]. unfold exec_state, mbind, M_bind in *.
  pose proof (cancel_timer_history t p s) as H. unfold exec_state in H.
  destruct (_cancel_timer env t p s) as [[[]|e] s1]; cbn in *; [|done].
  by rewrite IH.
Qed.

Lemma on_url_changed_history url cause_ev s :
  _history (exec_state (_on_url_changed env url cause_ev) s)
  = match cause_ev with
    | Some data => _history s ++ [JDict (without_private data)]
    | None => _history s
    end.
Proof.
  unfold exec_state. rewrite on_url_changed_unfold.
  pose proof (sweep_history (map_to_list (_cancel_on_redirect_timers s))
                (with_history_entry cause_ev s)) as H.
  unfold exec_state in H. rewrite H. by destruct cause_ev.
Qed.

Lemma del_queryString_spec entry entry' :
  del_queryString entry = Return entry' →
  (entry = JNull ∧ entry' = JNull)
  ∨ ∃ d r, entry = JDict d ∧ d !! "request" = Some (JDict r)
           ∧ is_Some (r !! "queryString")
           ∧ entry' = JDict (<["request" := JDict (delete "queryString" r)]> d).
Proof.
  destruct entry as [| | | | |d]; cbn; try done.
  - intros [= <-]. by left.
  - destruct (d !! "request") as [[| | | | |r]|] eqn:Hd; try done.
    destruct (r !! "queryString") eqn:Hr; [|done].
    intros [= <-]. right. exists d, r. eauto.
Qed.

Lemma del_queryStrings_spec hist hist' :
  del_queryStrings hist = Return hist' →
  Forall2 (λ entry entry', del_queryString entry = Return entry') hist hist'.
Proof.
  revert hist'. induction hist as [|entry hist IH]; intros hist'; cbn.
  { intros [= <-]. constructor. }
  destruct (del_queryString entry) as [entry'|] eqn:He; [|done].
  destruct (del_queryStrings hist) as [rest|]; [|done].
  intros [= <-]. constructor; [done|]. by apply IH.
Qed.

Lemma history_run s :
  history s
  = (del_queryStrings (_history s),
     set_trace (λ tr, tr ++ [LoggerLog "getting history" (Some 3)]) s).
Proof. reflexivity. Qed.

(** C8, as the code has it.  When [history] returns, it has left
    [_history] as it was and returns a list of the same length and order:
    [None] where [_history] has [None], and for a record the same record
    with [queryString] deleted from its [request]; so every entry that is
    not [None] lacks a [queryString], although the stored one has it.  A
    URL change for which no record is found adds no entry, a URL change
    with a record adds that record without its private fields. *)
Theorem history_deletes_queryString s hist s' :
  history s = (Return hist, s') →
  _history s' = _history s
  ∧ length hist = length (_history s)
  ∧ (∀ i entry, hist !! i = Some entry → entry ≠ JNull → lacks_queryString entry)
  ∧ (∀ i, _history s !! i = Some JNull ↔ hist !! i = Some JNull)
  ∧ (∀ i d, _history s !! i = Some (JDict d) →
       ∃ r, d !! "request" = Some (JDict r) ∧ is_Some (r !! "queryString")
            ∧ hist !! i = Some (JDict (<["request" := JDict (delete "queryString" r)]> d)))
  ∧ (∀ url, _history (exec_state (_on_url_changed env url None) s) = _history s)
  ∧ (∀ url data, _history (exec_state (_on_url_changed env url (Some data)) s)
                 = _history s ++ [JDict (without_private data)]).
Proof.
  rewrite history_run. intros [= Hd <-]. apply del_queryStrings_spec in Hd.
  split; [done|]. split; [symmetry; by eapply Forall2_length|].
  split; [|split; [|split; [|split]]].
  - intros i entry' Hi Hnn.
    destruct (Forall2_lookup_r _ _ _ _ _ Hd Hi) as (entry & _ & He).
    apply del_queryString_spec in He as [[_ ->]|(d & r & _ & _ & _ & ->)]; [done|].
    cbn. by rewrite lookup_insert_eq, lookup_delete_eq.
  - intros i. split; intros Hi.
    + destruct (Forall2_lookup_l _ _ _ _ _ Hd Hi) as (entry' & Hi' & He).
      by injection He as <-.
    + destruct (Forall2_lookup_r _ _ _ _ _ Hd Hi) as (entry & Hi' & He).
      by apply del_queryString_spec in He as [[-> _]|(d & r & _ & _ & _ & [=])].
  - intros i d Hi.
    destruct (Forall2_lookup_l _ _ _ _ _ Hd Hi) as (entry' & Hi' & He).
    apply del_queryString_spec in He as [[[=] _]|(d' & r & [= <-] & Hr & Hq & ->)].
    eauto.
  - intros url. apply on_url_changed_history.
  - intros url data. apply on_url_changed_history.
Qed.

Lemma on_wait_timeout_history t callback s :
  _history (exec_state (_on_wait_timeout env t callback) s) = _history s.
Proof.
  unfold exec_state. destruct (decide (t ∈ _active_timers s)).
  - rewrite on_wait_timeout_active by done.
    exact (call_history (AtWaitTimeout t) callback (expired t s)).
  - by rewrite on_wait_timeout_inactive.
Qed.

Lemma on_goto_load_finished_history ok callback errback s :
  _history (exec_state (_on_goto_load_finished env ok callback errback) s) = _history s.
Proof.
  unfold _on_goto_load_finished. run. destruct (_closing s); [done|]. cbn.
  repeat match goal with
         | |- context [if ?b then _ else _] => destruct b
         end; try done.
  all: match goal with
       | |- _history (call env ?site ?f ?s1).2 = _ =>
           exact (call_history site f s1)
       end.
Qed.

Lemma load_finished_slots_history ok slots s :
  _history (run_slots slots
              (λ '(callback, errback), _on_goto_load_finished env ok callback errback) s)
  = _history s.
Proof.
  revert s. induction slots as [|[callback errback] slots IH]; intros s; [done|].
  etrans; [apply (IH (exec_state (_on_goto_load_finished env ok callback errback) s))|].
  apply on_goto_load_finished_history.
Qed.

(** A step appends at most one entry to [_history], and that entry is a
    record. *)
Lemma step_history a s s' :
  step env a s = Some s' →
  _history s' = _history s ∨ ∃ d, _history s' = _history s ++ [JDict d].
Proof.
  destruct a; cbn [step]; intros Hstep; simplify_eq.
  - left. apply (calm_history _ _ (go_calmly env _ _ _ _ _ _ s)).
  - left. apply wait_history.
  - left. apply (calm_history _ _ (close_calmly s)).
  - left. apply (calm_history _ _ (stop_loading_calmly s)).
  - left. apply (calm_history _ _ (return_result_calmly _ s)).
  - left. apply (calm_history _ _ (return_error_calmly _ s)).
  - left. apply (calm_history _ _ (set_default_headers_calmly _ s)).
  - left. apply (calm_history _ _ (history_calmly s)).
  - left. apply load_finished_slots_history.
  - rewrite on_url_changed_history. destruct cause_ev; eauto.
  - destruct (qtimers s !! t) as [q|]; [|done].
    destruct (due q) as [d|], (timeout_slot q) as [callback|]; try done.
    destruct (d <=? now s); simplify_eq. left.
    unfold exec_state, mbind, M_bind. unfold timer_elapse at 1. run. cbn.
    match goal with
    | |- _history (_on_wait_timeout env t callback ?s1).2 = _ =>
        exact (on_wait_timeout_history t callback s1)
    end.
  - destruct (replies s !! r) as [q|]; [|done].
    destruct (rp_finished q); simplify_eq. left.
    match goal with
    | |- _history (run_slots ?sl ?f ?s1) = _ =>
        rewrite (calm_history _ _ (run_slots_calm sl f s1
                   (λ '(callback, errback, baseurl, url),
                      on_baseurl_request_finished_calmly env callback errback baseurl url)))
    end.
    apply (calm_history _ _ (reply_complete_calmly _ _ _ _ s)).
  - by left.
  - destruct (0 <=? d); simplify_eq. by left.
Qed.

(** No entry of [_history] is ever [None]. *)
Lemma history_never_null verbosity uid acts s :
  exec env acts (new_tab verbosity uid) = Some s → JNull ∉ _history s.
Proof.
  assert (∀ s0 s1, JNull ∉ _history s0 → exec env acts s0 = Some s1 → JNull ∉ _history s1)
    as H; [|intros Hexec; eapply H; [|exact Hexec]; apply not_elem_of_nil].
  induction acts as [|a acts IH]; intros s0 s1 Hnn; cbn; [by intros [= <-]|].
  destruct (step env a s0) as [s0'|] eqn:Hstep; [|done].
  apply IH. destruct (step_history a s0 s0' Hstep) as [->|(d & ->)]; [done|].
  rewrite elem_of_app, list_elem_of_singleton. intros [?|?]; done.
Qed.

End History.

(** ** The theorems at work on sample tabs *)

Lemma load_finished_classification_witness :
  _closing (new_tab 2 "1") = false
  ∧ invocations (emitted (new_tab 2 "1")
       (exec_state (_on_goto_load_finished sample_env true 1%nat 2%nat) (new_tab 2 "1")))
    = [(AtLoadFinishedCallback, 1%nat)].
Proof.
  split; [reflexivity|].
  exact (proj1 (proj2 (load_finished_classification sample_env true 1%nat 2%nat
                          (new_tab 2 "1") eq_refl))).
Defined.

Lemma go_baseurl_non_GET_issues_no_request_witness :
  str_truthy (Some "http://base.example/") = true
  ∧ "POST" ≠ "GET"
  ∧ (go sample_env "http://example.com/" 1%nat 2%nat (Some "http://base.example/")
        "POST" None (new_tab 2 "1")).1 = Raise NotImplementedError.
Proof.
  split; [reflexivity|]. split; [discriminate|].
  refine (proj1 (go_baseurl_non_GET_issues_no_request sample_env "http://example.com/"
                   1%nat 2%nat (Some "http://base.example/") "POST" None (new_tab 2 "1")
                   eq_refl _)).
  discriminate.
Defined.

Lemma go_baseurl_non_GET_stores_onStarted_witness :
  str_truthy (Some "http://base.example/") = true
  ∧ "PUT" ≠ "GET"
  ∧ trace (exec_state (go sample_env "http://example.com/" 1%nat 2%nat
                          (Some "http://base.example/") "PUT" (Some "body")) (new_tab 2 "1"))
    = [StoreHarTiming "_onStarted"].
Proof.
  split; [reflexivity|]. split; [discriminate|].
  refine (proj1 (proj2 (go_baseurl_non_GET_stores_onStarted sample_env "http://example.com/"
                          1%nat 2%nat (Some "http://base.example/") "PUT" (Some "body")
                          (new_tab 2 "1") eq_refl _))).
  discriminate.
Defined.

Lemma closing_tab_ignores_load_finished_witness :
  _closing (exec_state _close (new_tab 2 "1")) = true
  ∧ _on_goto_load_finished sample_env true 1%nat 2%nat (exec_state _close (new_tab 2 "1"))
    = (Return (),
       set_trace (λ tr, tr ++ [LoggerLog "loadFinished is ignored because BrowserTab is closing"
                                         (Some 2)])
         (exec_state _close (new_tab 2 "1"))).
Proof.
  split; [reflexivity|].
  exact (proj1 (closing_tab_ignores_load_finished sample_env
                  (exec_state _close (new_tab 2 "1")) eq_refl) true 1%nat 2%nat).
Defined.


Lemma timer_collections_invariant_witness :
  let s := tab_after sample_env [CallWait 100 3%nat (PyBool true); CallWait 5 4%nat PyNone]
             (new_tab 2 "1") in
  exec sample_env [CallWait 100 3%nat (PyBool true); CallWait 5 4%nat PyNone] (new_tab 2 "1")
  = Some s
  ∧ dom (_cancel_on_redirect_timers s) ⊆ _active_timers s.
Proof.
  cbv zeta.
  assert (exec sample_env [CallWait 100 3%nat (PyBool true); CallWait 5 4%nat PyNone]
            (new_tab 2 "1")
          = Some (tab_after sample_env
                    [CallWait 100 3%nat (PyBool true); CallWait 5 4%nat PyNone]
                    (new_tab 2 "1"))) as H by (vm_compute; reflexivity).
  split; [exact H|].
  exact (proj1 (timer_collections_invariant sample_env 2 "1" _ _ H)).
Defined.

Lemma natural_expiry_removes_then_calls_witness :
  let s := exec_state (wait 100 7%nat PyNone) (new_tab 2 "1") in
  0%nat ∈ _active_timers s
  ∧ _on_wait_timeout sample_env 0%nat 7%nat s
    = call sample_env (AtWaitTimeout 0%nat) 7%nat (expired 0%nat s).
Proof.
  cbv zeta.
  assert (0%nat ∈ _active_timers (exec_state (wait 100 7%nat PyNone) (new_tab 2 "1"))) as H.
  { rewrite wait_active_timers. apply elem_of_union_r, elem_of_singleton. reflexivity. }
  split; [exact H|].
  exact (proj1 (natural_expiry_removes_then_calls sample_env 0%nat 7%nat _ H)).
Defined.


Lemma history_deletes_queryString_witness :
  let s := exec_state (_on_url_changed sample_env "http://example.com/?a=1"
                         (Some sample_har_record)) (new_tab 2 "1") in
  history s = (Return (history_result s), exec_state history s)
  ∧ length (history_result s) = length (_history s)
  ∧ ∀ i entry, history_result s !! i = Some entry → entry ≠ JNull → lacks_queryString entry.
Proof.
  cbv zeta.
  set (s := exec_state (_on_url_changed sample_env "http://example.com/?a=1"
                          (Some sample_har_record)) (new_tab 2 "1")).
  assert (history s = (Return (history_result s), exec_state history s)) as H
    by (vm_compute; reflexivity).
  split; [exact H|].
  destruct (history_deletes_queryString sample_env s _ _ H) as (_ & Hl & Hq & _).
  split; [exact Hl|exact Hq].
Defined.

(** C8, as the claim has it, fails where it says that an entry may be
    [None] for a URL change without a causally preceding record: such a
    URL change leaves [_history] empty, and [history] returns the empty
    list; with a record, the entry is the record, its [queryString]
    deleted.  ([history_never_null]: no tab ever holds a [None] entry.) *)
Lemma history_null_entry_counterexample :
  let s := exec_state (_on_url_changed sample_env "http://example.com/" None)
             (new_tab 2 "1") in
  _history s = [] ∧ (history s).1 = Return [].
Proof. cbv zeta. split; vm_compute; reflexivity. Qed.

(** ** More about timers *)

Section MoreTimers.
Context (env : environment).

Lemma same_page_refl s : same_page s s.
Proof. by split. Qed.

Lemma same_page_trans s1 s2 s3 : same_page s1 s2 → same_page s2 s3 → same_page s1 s3.
Proof. intros [] []. split; congruence. Qed.

Lemma wait_same_page time_ms callback onredirect s :
  same_page s (exec_state (wait time_ms callback onredirect) s).
Proof.
  unfold wait, QTimer_new, timer_setSingleShot, timer_timeout_connect, timer_start.
  run. cbn. by destruct (truthy onredirect).
Qed.

Lemma wait_all_same_page l s : same_page s (exec_state (wait_all l) s).
Proof.
  revert s. induction l as [|w l IH]; intros s; [apply same_page_refl|].
  unfold wait_all in *. cbn [for_each]. unfold exec_state, mbind, M_bind in *.
  rewrite wait_returns. cbn. eapply same_page_trans; [apply wait_same_page|apply IH].
Qed.

Lemma call_same_page site f s : same_page s (exec_state (call env site f) s).
Proof.
  unfold exec_state. rewrite call_unfold.
  eapply same_page_trans; [|apply wait_all_same_page]. by split.
Qed.

Lemma on_wait_timeout_same_page t callback s :
  same_page s (exec_state (_on_wait_timeout env t callback) s).
Proof.
  unfold exec_state. destruct (decide (t ∈ _active_timers s)).
  - rewrite on_wait_timeout_active by done.
    eapply same_page_trans; [|apply call_same_page]. by split.
  - by rewrite on_wait_timeout_inactive.
Qed.

Lemma cancel_timer_same_page t errback s :
  same_page s (exec_state (_cancel_timer env t errback) s).
Proof.
  unfold exec_state. destruct (decide (t ∈ _active_timers s)).
  - rewrite cancel_timer_active by done.
    destruct (is_callable errback) as [f|]; [|by split].
    eapply same_page_trans; [|apply call_same_page]. by split.
  - by rewrite cancel_timer_inactive.
Qed.

Lemma wait_waiting time_ms callback onredirect s :
  wf s → truthy onredirect = false →
  waiting (next_timer s) callback (now s + time_ms)
          (exec_state (wait time_ms callback onredirect) s).
Proof.
  intros Hwf Hp. unfold waiting.
  rewrite wait_next_timer, wait_cancel_on_redirect_timers, wait_active_timers, wait_trace, Hp.
  split; [lia|]. split.
  { destruct (_cancel_on_redirect_timers s !! next_timer s) eqn:Hc; [|done].
    assert (next_timer s < next_timer s)%nat; [|lia].
    apply (wf_active _ Hwf), (wf_cancel _ Hwf), elem_of_dom. eauto. }
  split; [set_solver|]. split.
  { eexists. rewrite wait_qtimers, decide_True by done. done. }
  rewrite !site_calls_app, !(site_calls_quiet _ [_]), !app_nil_r by done.
  split; apply site_calls_none; intros f Hf.
  - assert (next_timer s < next_timer s)%nat; [|lia]. apply (wf_trace _ Hwf _ f). auto.
  - assert (next_timer s < next_timer s)%nat; [|lia]. apply (wf_trace _ Hwf _ f). auto.
Qed.

(** Nothing but its own timeout changes a waiting timer. *)
Lemma step_waiting a s s' t callback d :
  waiting t callback d s → step env a s = Some s' → a ≠ SignalTimeout t →
  waiting t callback d s'.
Proof.
  intros (Hlt & Hc & Ha & Hq & Hw & Hr) Hstep Hne.
  assert (¬ touched_of a s t ∧ ¬ sites_of a s (AtWaitTimeout t)
          ∧ ¬ sites_of a s (AtCancelTimer t)) as (H1 & H2 & H3).
  { destruct a; cbn; try tauto.
    - split; [tauto|]. split; by intros [[|] _].
    - rewrite elem_of_dom, Hc. split; [by intros [? ?]|].
      split; [by intros (t' & [=] & _)|].
      intros (t' & [= <-] & Hin). apply elem_of_dom in Hin as [? Hin]. congruence.
    - split; [|split]; congruence. }
  destruct (step_untouched env a s s' t Hstep Hlt H1 H2 H3) as (Hlt' & Hts & Hw' & Hr').
  apply timer_state_eq in Hts as (Hc' & Ha' & Hq').
  unfold waiting. by rewrite Hc', Ha', Hq', Hw', Hr'.
Qed.

Lemma exec_waiting acts s s' t callback d :
  waiting t callback d s → exec env acts s = Some s' → SignalTimeout t ∉ acts →
  waiting t callback d s'.
Proof.
  revert s. induction acts as [|a acts IH]; intros s Hw; cbn.
  { by intros [= <-]. }
  destruct (step env a s) as [s1|] eqn:Hstep; [|done]. intros Hexec Hnin.
  apply not_elem_of_cons in Hnin as [Hne Hnin].
  eapply IH; [|done|done]. eapply step_waiting; [done|done|congruence].
Qed.

(** The timeout of a waiting timer can be delivered once the timer is due,
    and it calls the callback. *)
Lemma waiting_timeout t callback d s :
  waiting t callback d s →
  if d <=? now s
  then ∃ s', step env (SignalTimeout t) s = Some s' ∧ retired t [callback] [] s'
  else step env (SignalTimeout t) s = None.
Proof.
  intros (Hlt & Hc & Ha & (q & Hq & Hss & Hts & Hd) & Hw & Hr). cbn [step].
  rewrite Hq, Hd, Hts. destruct (d <=? now s); [|done].
  eexists. split; [done|].
  unfold exec_state, mbind, M_bind. unfold timer_elapse at 1. run. cbn.
  match goal with
  | |- retired _ _ _ (_on_wait_timeout env t callback ?s1).2 =>
      destruct (on_wait_timeout_own env t callback s1) as (_ & Hts' & Hcalls); [done|done|];
      pose proof (on_wait_timeout_frame env t callback s1) as Hf
  end.
  unfold exec_state in *.
  destruct (timer_state_gone _ _ _ Hts') as (Hc' & Ha' & Hq').
  split; [pose proof (fr_next_timer _ _ _ _ Hf); cbn in *; lia|].
  split; [done|]. split; [done|]. split.
  { unfold running. rewrite Hq'. cbn. rewrite lookup_alter_eq. unfold timer in *.
    rewrite Hq. cbn. by rewrite Hss. }
  split.
  - rewrite Hcalls. cbn. by rewrite Hw.
  - rewrite <- Hr. eapply (frame_site_calls _ _ _ _ _ Hf). done.
Qed.

Lemma retired_timeout_disabled t callbacks errbacks s :
  retired t callbacks errbacks s → step env (SignalTimeout t) s = None.
Proof.
  intros (_ & _ & _ & Hr & _). cbn. unfold running in Hr.
  destruct (qtimers s !! t) as [q|]; [|done].
  destruct (due q) as [d|]; [|done]. by apply bool_decide_eq_false in Hr as [].
Qed.

Lemma step_retired a s s' t callbacks errbacks :
  retired t callbacks errbacks s → step env a s = Some s' →
  retired t callbacks errbacks s' ∧ a ≠ SignalTimeout t.
Proof.
  intros Hs Hstep.
  assert (a = SignalTimeout t → False) as Hne.
  { intros ->. by rewrite (retired_timeout_disabled _ _ _ _ Hs) in Hstep. }
  split; [|done].
  destruct (Hs) as (Hlt & Hc & Ha & Hrun & Hw & Hr).
  assert (¬ touched_of a s t ∧ ¬ sites_of a s (AtWaitTimeout t)
          ∧ ¬ sites_of a s (AtCancelTimer t)) as (H1 & H2 & H3).
  { destruct a; cbn; try tauto.
    - split; [tauto|]. split; by intros [[|] _].
    - rewrite elem_of_dom, Hc. split; [by intros [? ?]|].
      split; [by intros (t' & [=] & _)|].
      intros (t' & [= <-] & Hin). apply elem_of_dom in Hin as [? Hin]. congruence.
    - split; [|split]; congruence. }
  destruct (step_untouched env a s s' t Hstep Hlt H1 H2 H3) as (Hlt' & Hts & Hw' & Hr').
  pose proof (running_timer_state _ _ _ Hts) as Hrun'.
  apply timer_state_eq in Hts as (Hc' & Ha' & Hq').
  unfold retired. rewrite Hc', Ha', Hrun', Hw', Hr'. done.
Qed.

Lemma exec_retired acts s s' t callbacks errbacks :
  retired t callbacks errbacks s → exec env acts s = Some s' →
  retired t callbacks errbacks s' ∧ SignalTimeout t ∉ acts.
Proof.
  revert s. induction acts as [|a acts IH]; intros s Hs; cbn.
  { intros [= <-]. split; [done|]. apply not_elem_of_nil. }
  destruct (step env a s) as [s1|] eqn:Hstep; [|done]. intros Hexec.
  destruct (step_retired a s s1 t _ _ Hs Hstep) as [Hs1 Hne].
  destruct (IH s1 Hs1 Hexec) as [Hs' Hnin].
  split; [done|]. rewrite not_elem_of_cons. by split.
Qed.

(** X1. A timer that [wait] creates with an empty [onredirect] is
    untouched by whatever happens before its timeout, URL changes
    included: Qt cannot deliver the timeout before the timer is due and can
    deliver it from then on; the delivery calls the callback, and after it
    the timeout is never delivered again, so the callback is called exactly
    once and no errback is ever called for the timer. *)
Theorem plain_timer_fires_once
    verbosity uid pre time_ms callback onredirect mid s0 s1 :
  exec env pre (new_tab verbosity uid) = Some s0 →
  truthy onredirect = false →
  exec env (CallWait time_ms callback onredirect :: mid) s0 = Some s1 →
  SignalTimeout (next_timer s0) ∉ mid →
  let t := next_timer s0 in
  waiting t callback (now s0 + time_ms) s1
  ∧ (now s1 < now s0 + time_ms → step env (SignalTimeout t) s1 = None)
  ∧ (now s0 + time_ms ≤ now s1 →
     ∃ s', step env (SignalTimeout t) s1 = Some s'
           ∧ ∀ post s2, exec env post s' = Some s2 →
               (SignalTimeout t ∉ post)
               ∧ site_calls (AtWaitTimeout t) (trace s2) = [callback]
               ∧ site_calls (AtCancelTimer t) (trace s2) = []
               ∧ (t ∉ _active_timers s2)).
Proof.
  intros Hpre Hp Hwait Hnin. cbv zeta.
  assert (wf s0) as Hwf0 by (eapply exec_wf; [apply new_tab_wf|exact Hpre]).
  cbn [exec step] in Hwait.
  pose proof (wait_waiting time_ms callback onredirect s0 Hwf0 Hp) as Hw0.
  pose proof (exec_waiting mid _ s1 _ _ _ Hw0 Hwait Hnin) as Hw1.
  pose proof (waiting_timeout _ _ _ _ Hw1) as Hto.
  split; [done|]. split.
  - intros Hlt. destruct (now s0 + time_ms <=? now s1) eqn:E; [lia|done].
  - intros Hle. destruct (now s0 + time_ms <=? now s1) eqn:E; [|lia].
    destruct Hto as (s' & Hstep & Hret). exists s'. split; [done|].
    intros post s2 Hexec.
    destruct (exec_retired post s' s2 _ _ _ Hret Hexec) as [(_ & _ & Ha & _ & Hcb & Heb) Hnp].
    done.
Qed.


End MoreTimers.

(** ** More about navigation *)

Section MoreNavigation.
Context (env : environment).

Lemma set_request_headers_loop headers s :
  for_each headers (λ '(name, value),
    when (String.eqb (lower name) "user-agent")
         (modify (set_custom_user_agent (Some value)))) s
  = (Return (), with_user_agent (user_agent_of headers) s).
Proof.
  revert s. induction headers as [|[name value] headers IH]; intros s; [done|].
  cbn [for_each]. run. unfold user_agent_of in *. rewrite filter_cons. cbn.
  destruct (String.eqb_spec (lower name) "user-agent") as [Heq|Hne]; cbn.
  - rewrite decide_True by done. rewrite IH.
    destruct (filter _ headers) as [|h rest] eqn:Hf; [reflexivity|].
    change (last ((name, value) :: h :: rest)) with (last (h :: rest)).
    destruct (last (h :: rest)) eqn:Hl; [reflexivity|]. by apply last_None in Hl.
  - rewrite decide_False by done. apply IH.
Qed.

Lemma set_request_headers_run req headers s :
  _set_request_headers req headers s
  = (Return {| req_url := req_url req;
               req_raw_headers := req_raw_headers req ++ default [] headers;
               req_originating_object := req_originating_object req |},
     with_user_agent (user_agent_of (default [] headers)) s).
Proof.
  unfold _set_request_headers. unfold mbind, M_bind.
  by rewrite set_request_headers_loop.
Qed.

Lemma create_request_run url u s :
  decode_utf8 env url = Some u →
  _create_request env url s
  = (Return (request_for u s),
     with_user_agent (user_agent_of (default [] (_default_headers s))) s).
Proof.
  intros Hd. unfold _create_request. rewrite Hd. unfold mbind, M_bind, gets.
  by rewrite set_request_headers_run.
Qed.

Lemma create_request_undecodable url s :
  decode_utf8 env url = None → _create_request env url s = (Raise UnicodeDecodeError, s).
Proof. intros Hd. unfold _create_request. by rewrite Hd. Qed.

Lemma with_user_agent_fields ua s :
  trace (with_user_agent ua s) = trace s
  ∧ loadFinished_slots (with_user_agent ua s) = loadFinished_slots s
  ∧ _reply (with_user_agent ua s) = _reply s
  ∧ replies (with_user_agent ua s) = replies s
  ∧ next_reply (with_user_agent ua s) = next_reply s
  ∧ custom_user_agent (with_user_agent ua s)
    = match ua with Some value => Some value | None => custom_user_agent s end.
Proof. by destruct ua. Qed.

(** X3. [_set_request_headers] puts every header on the request, in
    order, and leaves the page with the user agent of the last header
    whose name is user-agent in any case of letters; without such a header
    (or without headers) the page keeps the user agent it had.  Nothing
    else in the tab changes. *)
Theorem set_request_headers_user_agent req headers s :
  let s' := exec_state (_set_request_headers req headers) s in
  (∃ req', _set_request_headers req headers s = (Return req', s')
           ∧ req_raw_headers req' = req_raw_headers req ++ default [] headers
           ∧ req_url req' = req_url req)
  ∧ custom_user_agent s'
    = match user_agent_of (default [] headers) with
      | Some value => Some value
      | None => custom_user_agent s
      end
  ∧ s' = with_user_agent (user_agent_of (default [] headers)) s.
Proof.
  cbv zeta. unfold exec_state. rewrite set_request_headers_run. cbn [fst snd].
  split; [eauto|]. split; [|done]. apply with_user_agent_fields.
Qed.

(** [go] without a base URL, step by step. *)
Lemma go_direct_run url callback errback baseurl http_method body s :
  str_truthy baseurl = false →
  go env url callback errback baseurl http_method body s
  = _load_url_to_mainframe env url http_method body
      (set_loadFinished_slots (λ l, l ++ [(callback, errback)])
         (set_trace (λ tr, tr ++ [StoreHarTiming "_onStarted"]) s)).
Proof. intros Hb. unfold go, loadFinished_connect. run. by rewrite Hb. Qed.

(** X4. [go] without a base URL, for a URL that decodes and a method
    [OPERATION_QT_CONSTANTS] knows: it returns, having stored [_onStarted],
    connected one slot bound to its callback and errback, and asked the
    frame for one load, of the decoded URL with the default headers of the
    tab, the code of the method and the body; it starts no raw fetch. *)
Theorem go_direct_loads_frame url u callback errback baseurl http_method meth body s :
  str_truthy baseurl = false → decode_utf8 env url = Some u →
  OPERATION_QT_CONSTANTS env !! http_method = Some meth →
  let s' := exec_state (go env url callback errback baseurl http_method body) s in
  (go env url callback errback baseurl http_method body s).1 = Return ()
  ∧ emitted s s' = [StoreHarTiming "_onStarted"; FrameLoad (request_for u s) meth body]
  ∧ loadFinished_slots s' = loadFinished_slots s ++ [(callback, errback)]
  ∧ replies s' = replies s ∧ _reply s' = _reply s.
Proof.
  intros Hb Hd Hm. cbv zeta. unfold exec_state. rewrite go_direct_run by done.
  unfold _load_url_to_mainframe, mbind, M_bind. rewrite (create_request_run _ u) by done.
  rewrite Hm.
  match goal with
  | |- context [with_user_agent ?ua ?s1] => destruct ua
  end; run; cbn.
  all: split; [done|]; split; [|done].
  all: apply emitted_app; unfold request_for; cbn; by rewrite <- app_assoc.
Qed.

(** One load-finished signal handled by one slot. *)
Lemma on_goto_load_finished_calls ok callback errback s :
  let s' := exec_state (_on_goto_load_finished env ok callback errback) s in
  (∃ evs, trace s' = trace s ++ evs
          ∧ invocations evs
            = load_finished_calls (_closing s) (errorInfo s) ok [(callback, errback)])
  ∧ same_page s s'.
Proof.
  cbv zeta. unfold load_finished_calls, _on_goto_load_finished. run.
  destruct (_closing s) eqn:Hc; cbn.
  { split; [eexists; split; [reflexivity|done]|by split]. }
  destruct (errorInfo s) as [info|] eqn:Hi, ok; cbn.
  all: try (split; [eexists; split; [reflexivity|done]|by split]).
  all: match goal with
       | |- context [call env ?site ?f ?st] =>
           destruct (call_trace env site f st) as (evs & Htr & Hev);
           pose proof (call_same_page env site f st) as Hsp
       end.
  all: unfold exec_state in *; split;
         [|eapply same_page_trans; [|exact Hsp]; by split].
  all: eexists; split; [rewrite Htr; cbn; rewrite <- app_assoc; reflexivity|].
  all: by rewrite invocations_app, !invocations_cons, Hev.
Qed.

Lemma load_finished_calls_cons closing info ok slot slots :
  load_finished_calls closing info ok (slot :: slots)
  = load_finished_calls closing info ok [slot] ++ load_finished_calls closing info ok slots.
Proof. unfold load_finished_calls. by destruct closing, info, ok. Qed.

(** One load-finished signal handled by all the slots connected. *)
Lemma load_finished_slots_calls ok slots s :
  let s' := run_slots slots
              (λ '(callback, errback), _on_goto_load_finished env ok callback errback) s in
  (∃ evs, trace s' = trace s ++ evs
          ∧ invocations evs = load_finished_calls (_closing s) (errorInfo s) ok slots)
  ∧ same_page s s'.
Proof.
  cbv zeta. revert s. induction slots as [|[callback errback] slots IH]; intros s.
  { split; [|apply same_page_refl]. exists []. rewrite app_nil_r. split; [done|].
    unfold load_finished_calls. by destruct (_closing s), (errorInfo s), ok. }
  destruct (on_goto_load_finished_calls ok callback errback s) as [(evs & Htr & Hev) Hsp].
  destruct (IH (exec_state (_on_goto_load_finished env ok callback errback) s))
    as [(evs' & Htr' & Hev') Hsp'].
  split; [|eapply same_page_trans; [exact Hsp|exact Hsp']].
  exists (evs ++ evs'). cbn [run_slots foldl] in *. unfold run_slots in Htr'.
  rewrite Htr', Htr, app_assoc. split; [done|].
  rewrite invocations_app, Hev, Hev', (sp_closing _ _ Hsp), (sp_errorInfo _ _ Hsp).
  by rewrite <- load_finished_calls_cons.
Qed.

(** X7. One load-finished signal is delivered to the slots of every [go]
    made so far, in the order of the calls, and each slot classifies it
    the same way: with the closing flag clear, [ok] and no page error call
    every callback, a page error calls every errback, and a failed load
    without page error calls nothing.  The signal changes neither the
    closing flag, the page error, the slots nor the result channel. *)
Theorem load_finished_reaches_every_slot ok s :
  ∃ s', step env (SignalLoadFinished ok) s = Some s'
        ∧ invocations (emitted s s')
          = load_finished_calls (_closing s) (errorInfo s) ok (loadFinished_slots s)
        ∧ same_page s s'.
Proof.
  eexists. split; [reflexivity|].
  destruct (load_finished_slots_calls ok (loadFinished_slots s) s) as [(evs & Htr & Hev) Hsp].
  split; [|exact Hsp]. by rewrite (emitted_app _ _ _ Htr).
Qed.

(** X5. [go] without a base URL connects its slot before it builds the
    request, so a call that fails, on a URL that does not decode or on a
    method [OPERATION_QT_CONSTANTS] does not know, leaves the slot
    connected: it raises, nothing is loaded, and the next load-finished
    signal is classified for the callback and the errback of the failed
    call as for those of every other call. *)
Theorem go_direct_failure_keeps_slot url callback errback baseurl http_method body s :
  str_truthy baseurl = false →
  decode_utf8 env url = None
  ∨ (is_Some (decode_utf8 env url) ∧ OPERATION_QT_CONSTANTS env !! http_method = None) →
  let s' := exec_state (go env url callback errback baseurl http_method body) s in
  (go env url callback errback baseurl http_method body s).1
  = match decode_utf8 env url with
    | Some _ => Raise (KeyError http_method)
    | None => Raise UnicodeDecodeError
    end
  ∧ emitted s s' = [StoreHarTiming "_onStarted"]
  ∧ loadFinished_slots s' = loadFinished_slots s ++ [(callback, errback)]
  ∧ ∀ ok, ∃ s2, step env (SignalLoadFinished ok) s' = Some s2
        ∧ invocations (emitted s' s2)
          = load_finished_calls (_closing s) (errorInfo s) ok
              (loadFinished_slots s ++ [(callback, errback)]).
Proof.
  intros Hb Hfail. cbv zeta.
  assert ((go env url callback errback baseurl http_method body s).1
          = match decode_utf8 env url with
            | Some _ => Raise (KeyError http_method)
            | None => Raise UnicodeDecodeError
            end
          ∧ trace (exec_state (go env url callback errback baseurl http_method body) s)
            = trace s ++ [StoreHarTiming "_onStarted"]
          ∧ loadFinished_slots (exec_state (go env url callback errback baseurl http_method body) s)
            = loadFinished_slots s ++ [(callback, errback)]
          ∧ _closing (exec_state (go env url callback errback baseurl http_method body) s)
            = _closing s
          ∧ errorInfo (exec_state (go env url callback errback baseurl http_method body) s)
            = errorInfo s) as (Hr & Ht & Hs & Hc & He).
  { unfold exec_state. rewrite go_direct_run by done.
    unfold _load_url_to_mainframe, mbind, M_bind.
    destruct Hfail as [Hd|[[u Hd] Hm]].
    - rewrite create_request_undecodable by done. by rewrite Hd.
    - rewrite (create_request_run _ u) by done. rewrite Hm, Hd.
      match goal with
      | |- context [with_user_agent ?ua ?s1] => by destruct ua
      end. }
  split; [done|]. split; [by apply emitted_app|]. split; [done|].
  intros ok. eexists. split; [reflexivity|].
  match goal with
  | |- context [run_slots ?sl _ ?s1] =>
      destruct (load_finished_slots_calls ok sl s1) as [(evs & Htr & Hev) _]
  end.
  rewrite (emitted_app _ _ _ Htr), Hev. by rewrite Hc, He, Hs.
Qed.

(** X6. [go] with a base URL and GET, for a URL that decodes: it returns,
    having stored [_onStarted] and asked the network manager for one
    fetch, of the decoded URL with the default headers and the main frame
    as originating object; the tab holds the new reply, whose one slot is
    bound to the callback, the errback, the base URL and the URL; nothing
    is loaded into the frame and no slot is connected to load-finished
    yet. *)
Theorem go_baseurl_fetches url u callback errback baseurl body s :
  str_truthy baseurl = true → decode_utf8 env url = Some u →
  let s' := exec_state (go env url callback errback baseurl "GET" body) s in
  let req := {| req_url := u; req_raw_headers := default [] (_default_headers s);
                req_originating_object := true |} in
  (go env url callback errback baseurl "GET" body s).1 = Return ()
  ∧ emitted s s' = [StoreHarTiming "_onStarted"; NetworkManagerGet (next_reply s) req]
  ∧ _reply s' = Some (next_reply s)
  ∧ replies s' !! next_reply s
    = Some {| rp_request := req; rp_content_type := ""; rp_data := ""; rp_error := None;
              rp_finished := false;
              rp_finished_slots := [(callback, errback, default "" baseurl, url)] |}
  ∧ next_reply s' = S (next_reply s)
  ∧ loadFinished_slots s' = loadFinished_slots s.
Proof.
  intros Hb Hd. cbv zeta. unfold exec_state, go. run. rewrite Hb. cbn.
  rewrite (create_request_run _ u) by done.
  unfold network_manager_get, reply_finished_connect.
  match goal with
  | |- context [with_user_agent ?ua ?s1] => destruct ua
  end; run; cbn.
  all: split; [done|]; split; [apply emitted_app; cbn; by rewrite <- app_assoc|].
  all: split; [done|]; split; [|done].
  all: by rewrite lookup_alter_eq, lookup_insert_eq.
Qed.

End MoreNavigation.

(** ** Navigation through a base URL *)

Section BaseUrlNavigation.
Context (env : environment).

(** The tab [go] leaves when it has started the fetch for a base URL. *)
Lemma go_baseurl_state url u callback errback baseurl body s :
  str_truthy baseurl = true → decode_utf8 env url = Some u →
  let s' := exec_state (go env url callback errback baseurl "GET" body) s in
  (∃ req, trace s'
          = trace s ++ [StoreHarTiming "_onStarted"; NetworkManagerGet (next_reply s) req])
  ∧ _reply s' = Some (next_reply s)
  ∧ replies s'
    = <[next_reply s :=
          {| rp_request := {| req_url := u;
                              req_raw_headers := default [] (_default_headers s);
                              req_originating_object := true |};
             rp_content_type := ""; rp_data := ""; rp_error := None;
             rp_finished := false;
             rp_finished_slots := [(callback, errback, default "" baseurl, url)] |}]>
        (replies s)
  ∧ next_reply s' = S (next_reply s)
  ∧ loadFinished_slots s' = loadFinished_slots s
  ∧ _closing s' = _closing s
  ∧ errorInfo s' = errorInfo s.
Proof.
  intros Hb Hd. cbv zeta. unfold exec_state, go. run. rewrite Hb. cbn.
  rewrite (create_request_run env url u) by done.
  unfold network_manager_get, reply_finished_connect.
  match goal with
  | |- context [with_user_agent ?ua ?s1] => destruct ua
  end; run; cbn.
  all: split; [eexists; by rewrite <- app_assoc|].
  all: split; [done|]; split; [|done].
  all: by rewrite alter_insert_eq.
Qed.

(** What the slot of a reply leaves of the page, when it gets through. *)
Lemma on_baseurl_request_finished_state callback errback baseurl url base r q s :
  decode_utf8 env baseurl = Some base → _reply s = Some r → replies s !! r = Some q →
  let s' := exec_state (_on_baseurl_request_finished env callback errback baseurl url) s in
  replies s' = delete r (replies s)
  ∧ _reply s' = _reply s
  ∧ _closing s' = _closing s
  ∧ errorInfo s' = errorInfo s.
Proof.
  intros Hd Hr Hq. cbv zeta. unfold _on_baseurl_request_finished, loadFinished_connect,
    reply_deleteLater.
  rewrite Hd. run. cbn. rewrite Hr. cbn. rewrite Hq. cbn.
  by destruct (rp_error q).
Qed.

Lemma invocations_reply_events (data mimeType base url : string) (error : option string) r :
  invocations
    ([LoggerLog "baseurl_request_finished" (Some 2); FrameSetContent data mimeType base]
     ++ match error with
        | Some errorString =>
            [LoggerLog ("Error loading " +:+ url +:+ ": " +:+ errorString) (Some 1)]
        | None => []
        end
     ++ [ReplyClose r; ReplyDeleteLater r]) = [].
Proof. by destruct error. Qed.

(** X8. Navigation through a base URL, from the call to the callback.
    [go] with a base URL starts a fetch and connects nothing to
    load-finished, so a load-finished signal that arrives before the reply
    reaches the slots of the earlier calls only.  When the reply
    completes, its bytes and content type are set as the content of the
    frame against the decoded base URL and the slot of the call is
    connected; no callable has been called so far.  The load-finished
    signal that follows is classified for the callback and errback of the
    call as for those of the earlier calls. *)
Theorem baseurl_navigation_reaches_callback
    url u callback errback baseurl base body content_type data error ok s :
  str_truthy baseurl = true → decode_utf8 env url = Some u →
  decode_utf8 env (default "" baseurl) = Some base →
  ∃ s1 s2 s3,
    step env (CallGo url callback errback baseurl "GET" body) s = Some s1
    ∧ step env (SignalReplyFinished (next_reply s) content_type data error) s1 = Some s2
    ∧ step env (SignalLoadFinished ok) s2 = Some s3
    ∧ FrameSetContent data content_type base ∈ emitted s1 s2
    ∧ invocations (emitted s s2) = []
    ∧ invocations (emitted s2 s3)
      = load_finished_calls (_closing s) (errorInfo s) ok
          (loadFinished_slots s ++ [(callback, errback)])
    ∧ ∀ ok', ∃ s1', step env (SignalLoadFinished ok') s1 = Some s1'
        ∧ invocations (emitted s1 s1')
          = load_finished_calls (_closing s) (errorInfo s) ok' (loadFinished_slots s).
Proof.
  intros Hb Hu Hd.
  destruct (go_baseurl_state url u callback errback baseurl body s Hb Hu)
    as ((req & Ht1) & Hr1 & Hq1 & _ & Hs1 & Hc1 & He1).
  set (s1 := exec_state (go env url callback errback baseurl "GET" body) s) in *.
  set (r := next_reply s) in *.
  set (sc := exec_state (reply_complete r content_type data error) s1).
  assert (_reply sc = Some r) as Hrc by done.
  assert (∃ q, replies sc !! r = Some q ∧ rp_data q = data
               ∧ rp_content_type q = content_type ∧ rp_error q = error)
    as (q & Hqc & Hdata & Hct & Herr).
  { eexists. split.
    - unfold sc, reply_complete. run. cbn. rewrite lookup_alter_eq, Hq1, lookup_insert_eq.
      reflexivity.
    - done. }
  destruct (on_baseurl_request_finished_run env callback errback (default "" baseurl) url
              base r q sc Hd Hrc Hqc) as (_ & Ht2 & Hs2).
  destruct (on_baseurl_request_finished_state callback errback (default "" baseurl) url
              base r q sc Hd Hrc Hqc) as (_ & _ & Hc2 & He2).
  rewrite Hdata, Hct, Herr in Ht2.
  set (s2 := exec_state
               (_on_baseurl_request_finished env callback errback (default "" baseurl) url)
               sc) in *.
  assert (step env (SignalReplyFinished r content_type data error) s1 = Some s2) as Hstep2.
  { cbn [step]. by rewrite Hq1, lookup_insert_eq. }
  exists s1, s2. eexists. split; [done|]. split; [exact Hstep2|]. split; [reflexivity|].
  assert (trace sc = trace s1) as Htc by done.
  split.
  { rewrite (emitted_app s1 s2 _ (eq_trans Ht2 (f_equal (λ tr, tr ++ _) Htc))).
    set_solver. }
  split.
  { rewrite Htc, Ht1, <- app_assoc in Ht2. rewrite (emitted_app _ _ _ Ht2).
    rewrite invocations_app. by rewrite invocations_reply_events. }
  split.
  { destruct (load_finished_slots_calls env ok (loadFinished_slots s2) s2)
      as [(evs & Htr & Hev) _].
    rewrite (emitted_app _ _ _ Htr), Hev, Hc2, He2, Hs2.
    by replace (_closing sc) with (_closing s) by (by rewrite <- Hc1);
       replace (errorInfo sc) with (errorInfo s) by (by rewrite <- He1);
       replace (loadFinished_slots sc) with (loadFinished_slots s) by (by rewrite <- Hs1). }
  intros ok'. eexists. split; [reflexivity|].
  destruct (load_finished_slots_calls env ok' (loadFinished_slots s1) s1)
    as [(evs & Htr & Hev) _].
  by rewrite (emitted_app _ _ _ Htr), Hev, Hc1, He1, Hs1.
Qed.

(** X9. The slot of a reply reads and releases the reply the tab holds,
    which is the reply of the latest [go] with a base URL.  When a reply
    of an earlier call completes, what is set as the content of the frame
    is what the latest reply holds, not the bytes that were delivered; the
    latest reply is closed and deleted, so its own completion can no
    longer be delivered, and the reply that completed is left with the
    network manager. *)
Theorem earlier_reply_consumes_latest
    callback errback baseurl url base r1 q1 r2 q2 content_type data error s :
  _reply s = Some r2 → r1 ≠ r2 →
  replies s !! r1 = Some q1 → rp_finished q1 = false →
  rp_finished_slots q1 = [(callback, errback, baseurl, url)] →
  replies s !! r2 = Some q2 →
  decode_utf8 env baseurl = Some base →
  ∃ s', step env (SignalReplyFinished r1 content_type data error) s = Some s'
    ∧ emitted s s'
      = [LoggerLog "baseurl_request_finished" (Some 2);
         FrameSetContent (rp_data q2) (rp_content_type q2) base]
        ++ match rp_error q2 with
           | Some errorString =>
               [LoggerLog ("Error loading " +:+ url +:+ ": " +:+ errorString) (Some 1)]
           | None => []
           end
        ++ [ReplyClose r2; ReplyDeleteLater r2]
    ∧ replies s' !! r2 = None
    ∧ (∀ content_type' data' error',
         step env (SignalReplyFinished r2 content_type' data' error') s' = None)
    ∧ (∃ q1', replies s' !! r1 = Some q1' ∧ rp_finished q1' = true ∧ rp_data q1' = data)
    ∧ loadFinished_slots s' = loadFinished_slots s ++ [(callback, errback)].
Proof.
  intros Hr Hne Hq1 Hfin Hslots Hq2 Hd. cbn [step]. rewrite Hq1, Hfin, Hslots.
  eexists. split; [done|]. cbn [run_slots foldl].
  set (sc := exec_state (reply_complete r1 content_type data error) s).
  assert (_reply sc = Some r2) as Hrc by done.
  assert (replies sc !! r2 = Some q2) as Hqc.
  { unfold sc, reply_complete. run. cbn. by rewrite lookup_alter_ne. }
  assert (∃ q1', replies sc !! r1 = Some q1' ∧ rp_finished q1' = true ∧ rp_data q1' = data)
    as (q1' & Hq1' & Hfin' & Hdata').
  { eexists. split.
    - unfold sc, reply_complete. run. cbn. rewrite lookup_alter_eq, Hq1. reflexivity.
    - done. }
  destruct (on_baseurl_request_finished_run env callback errback baseurl url base r2 q2 sc
              Hd Hrc Hqc) as (_ & Htr & Hsl).
  destruct (on_baseurl_request_finished_state callback errback baseurl url base r2 q2 sc
              Hd Hrc Hqc) as (Hreps & _).
  split; [by apply emitted_app|].
  assert (replies
            (exec_state (_on_baseurl_request_finished env callback errback baseurl url) sc)
          !! r2 = None) as Hgone by (by rewrite Hreps, lookup_delete_eq).
  split; [exact Hgone|]. split; [intros; by rewrite Hgone|].
  split; [|exact Hsl]. exists q1'. by rewrite Hreps, lookup_delete_ne.
Qed.

End BaseUrlNavigation.

(** ** When [history] raises *)

Section MoreHistory.
Context (env : environment).

Lemma del_queryString_returns entry :
  (∃ entry', del_queryString entry = Return entry') ↔ deletable entry.
Proof.
  unfold deletable. split.
  - intros [entry' H]. apply del_queryString_spec in H as [[-> _]|(d & r & -> & ? & ? & _)].
    + by left.
    + right. by exists d, r.
  - intros [->|(d & r & -> & Hd & [v Hr])]; cbn; [eauto|]. rewrite Hd, Hr. eauto.
Qed.

Lemma del_queryString_raises entry e :
  del_queryString entry = Raise e →
  e = KeyError "request" ∨ e = KeyError "queryString" ∨ e = TypeError.
Proof.
  destruct entry as [| | | | |d]; cbn; try (intros [= <-]; tauto).
  destruct (d !! "request") as [[| | | | |r]|]; try (intros [= <-]; tauto).
  destruct (r !! "queryString"); [done|]. intros [= <-]; tauto.
Qed.

Lemma del_queryStrings_returns hist :
  (∃ hist', del_queryStrings hist = Return hist') ↔ Forall deletable hist.
Proof.
  induction hist as [|entry hist IH]; cbn.
  { split; [constructor|eauto]. }
  rewrite Forall_cons, <- IH, <- del_queryString_returns. split.
  - intros [hist' H]. destruct (del_queryString entry) as [entry'|]; [|done].
    destruct (del_queryStrings hist) as [rest|]; [|done]. eauto.
  - intros [[entry' ->] [rest ->]]. eauto.
Qed.

Lemma del_queryStrings_raises hist e :
  del_queryStrings hist = Raise e →
  (e = KeyError "request" ∨ e = KeyError "queryString" ∨ e = TypeError)
  ∧ ∀ more, del_queryStrings (hist ++ more) = Raise e.
Proof.
  induction hist as [|entry hist IH]; cbn; [done|].
  destruct (del_queryString entry) as [entry'|e'] eqn:He.
  - destruct (del_queryStrings hist) as [rest|e'] eqn:Hh; [done|].
    intros [= ->]. destruct (IH eq_refl) as [Hkind Hmore]. split; [done|].
    intros more. by rewrite Hmore.
  - intros [= ->]. split; [by eapply del_queryString_raises|done].
Qed.

(** A run only appends to [_history]. *)
Lemma exec_history acts s s' :
  exec env acts s = Some s' → ∃ more, _history s' = _history s ++ more.
Proof.
  revert s. induction acts as [|a acts IH]; intros s; cbn.
  { intros [= <-]. exists []. by rewrite app_nil_r. }
  destruct (step env a s) as [s1|] eqn:Hstep; [|done]. intros Hexec.
  destruct (IH s1 Hexec) as [more Hmore].
  destruct (step_history env a s s1 Hstep) as [H|[d H]]; rewrite H in Hmore.
  - eauto.
  - rewrite <- app_assoc in Hmore. eauto.
Qed.


End MoreHistory.

(** ** The result channel *)

Section ResultChannel.
Context (env : environment).

Lemma sweep_deferred_called items s :
  deferred_called (exec_state (sweep env items) s) = deferred_called s.
Proof.
  revert s. induction items as [|[t p] items IH]; intros s; [done|].
  unfold sweep in *. cbn [for_each]. unfold exec_state, mbind, M_bind in *.
  pose proof (sp_deferred_called _ _ (cancel_timer_same_page env t p s)) as H.
  unfold exec_state in H.
  destruct (_cancel_timer env t p s) as [[[]|e] s1]; cbn in *; [|done].
  by rewrite IH.
Qed.

Lemma go_deferred_called url callback errback baseurl http_method body s :
  deferred_called (exec_state (go env url callback errback baseurl http_method body) s)
  = deferred_called s.
Proof.
  unfold exec_state, go, loadFinished_connect, _load_url_to_mainframe. run.
  destruct (str_truthy baseurl); [destruct (negb _); [done|]|].
  all: destruct (decode_utf8 env url) as [u|] eqn:Hd;
         [rewrite (create_request_run env url u) by done
         |by rewrite create_request_undecodable].
  all: unfold network_manager_get, reply_finished_connect.
  all: match goal with
       | |- context [with_user_agent ?ua ?s1] => destruct ua
       end; run; cbn; try done.
  all: by destruct (OPERATION_QT_CONSTANTS env !! http_method).
Qed.

Lemma on_baseurl_request_finished_deferred_called callback errback baseurl url s :
  deferred_called (exec_state (_on_baseurl_request_finished env callback errback baseurl url) s)
  = deferred_called s.
Proof.
  unfold _on_baseurl_request_finished, loadFinished_connect, reply_deleteLater. run.
  destruct (decode_utf8 env baseurl); [|done]. cbn.
  destruct (_reply s) as [r|]; [|done]. cbn.
  destruct (replies s !! r) as [q|]; [|done]. cbn.
  by destruct (rp_error q).
Qed.

(** Only [return_result] and [return_error] call the Deferred. *)
Lemma step_deferred_called a s s' :
  step env a s = Some s' → deferred_called s' = deferred_called s || is_return a.
Proof.
  destruct a; cbn [step is_return]; intros Hstep; simplify_eq; rewrite ?orb_false_r.
  - apply go_deferred_called.
  - apply (sp_deferred_called _ _ (wait_same_page _ _ _ s)).
  - done.
  - done.
  - unfold return_result, result_already_returned, deferred_callback. run.
    destruct (deferred_called s) eqn:E; cbn; rewrite E; done.
  - unfold return_error, result_already_returned, deferred_errback. run.
    destruct (deferred_called s) eqn:E; cbn; rewrite E; done.
  - done.
  - done.
  - destruct (load_finished_slots_calls env ok (loadFinished_slots s) s) as [_ Hsp].
    apply (sp_deferred_called _ _ Hsp).
  - unfold exec_state. rewrite on_url_changed_unfold.
    etrans; [apply sweep_deferred_called|]. by destruct cause_ev.
  - destruct (qtimers s !! t) as [q|]; [|done].
    destruct (due q) as [d|], (timeout_slot q) as [callback|]; try done.
    destruct (d <=? now s); simplify_eq.
    unfold exec_state, mbind, M_bind. unfold timer_elapse at 1. run. cbn.
    match goal with
    | |- deferred_called (_on_wait_timeout env t callback ?s1).2 = _ =>
        exact (sp_deferred_called _ _ (on_wait_timeout_same_page env t callback s1))
    end.
  - destruct (replies s !! r) as [q|]; [|done].
    destruct (rp_finished q); simplify_eq.
    generalize (exec_state (reply_complete r content_type data error) s)
               (eq_refl : deferred_called
                            (exec_state (reply_complete r content_type data error) s)
                          = deferred_called s).
    induction (rp_finished_slots q) as [|[[[cb eb] b] u] slots IH]; intros s1 Hs1; [done|].
    cbn. apply IH. by rewrite on_baseurl_request_finished_deferred_called.
  - done.
  - destruct (0 <=? d); by simplify_eq.
Qed.

Lemma exec_deferred_called acts s s' :
  exec env acts s = Some s' →
  deferred_called s' = deferred_called s || existsb is_return acts.
Proof.
  revert s. induction acts as [|a acts IH]; intros s; cbn.
  { intros [= <-]. by rewrite orb_false_r. }
  destruct (step env a s) as [s1|] eqn:Hstep; [|done]. intros Hexec.
  by rewrite (IH s1 Hexec), (step_deferred_called a s s1 Hstep), orb_assoc.
Qed.

Lemma return_result_deferred_called v s :
  deferred_called (exec_state (return_result v) s) = true.
Proof.
  unfold return_result, result_already_returned, deferred_callback. run.
  destruct (deferred_called s) eqn:E; cbn; rewrite E; done.
Qed.


End ResultChannel.

(** ** The timers Qt runs *)

Section RunningTimers.
Context (env : environment).

Lemma armed_calm s s' : calm s s' → armed s → armed s'.
Proof.
  intros Hc. unfold armed, running.
  by rewrite (calm_active _ _ Hc), (calm_qtimers _ _ Hc).
Qed.

Lemma armed_wait time_ms callback onredirect s :
  armed s → armed (exec_state (wait time_ms callback onredirect) s).
Proof.
  intros [Ha Hb]. split.
  - intros t q. rewrite wait_qtimers, wait_active_timers.
    case_decide as Hne; [subst t|].
    + intros [= <-] _. cbn. split; [set_solver|eauto].
    + intros Hq Hd. destruct (Ha t q Hq Hd) as (? & ? & ?). split; [set_solver|done].
  - intros t. rewrite wait_active_timers. unfold running. rewrite wait_qtimers.
    case_decide as Hne; [subst t|].
    + done.
    + intros Hin. apply Hb. set_solver.
Qed.

Lemma armed_wait_all l s : armed s → armed (exec_state (wait_all l) s).
Proof.
  revert s. induction l as [|w l IH]; intros s Hs; [done|].
  unfold wait_all in *. cbn [for_each]. unfold exec_state, mbind, M_bind in *.
  rewrite wait_returns. cbn. by apply IH, armed_wait.
Qed.

Lemma armed_call site f s : armed s → armed (exec_state (call env site f) s).
Proof.
  intros Hs. unfold exec_state. rewrite call_unfold.
  by apply (armed_wait_all _ (set_trace (λ tr, tr ++ [Invoke site f]) s)).
Qed.

Lemma armed_on_goto_load_finished ok callback errback s :
  armed s → armed (exec_state (_on_goto_load_finished env ok callback errback) s).
Proof.
  intros Hs. unfold _on_goto_load_finished. run. destruct (_closing s); [done|]. cbn.
  repeat match goal with
         | |- context [if ?b then _ else _] => destruct b
         end; try done.
  all: match goal with
       | |- armed (call env ?site ?f ?s1).2 => exact (armed_call site f s1 Hs)
       end.
Qed.

(** The handler of a timeout Qt delivers: the timer has stopped, and is
    taken out of [_active_timers] before the callback runs. *)
Lemma armed_timeout t q callback s :
  armed s → qtimers s !! t = Some q → is_Some (due q) →
  let s1 := exec_state (timer_elapse t) s in
  t ∈ _active_timers s1
  ∧ armed (exec_state (_on_wait_timeout env t callback) s1).
Proof.
  intros [Ha Hb] Hq Hd. cbv zeta. destruct (Ha t q Hq Hd) as (Hin & Hss & _).
  split; [done|]. unfold exec_state at 1. rewrite on_wait_timeout_active by done.
  apply armed_call. unfold expired, timer_elapse. run. split; cbn.
  - intros t' q'. destruct (decide (t' = t)) as [->|Hne].
    + rewrite lookup_alter_eq, Hq. intros [= <-]. cbn. rewrite Hss. by intros [? ?].
    + rewrite lookup_alter_ne by done. intros Hq' Hd'.
      destruct (Ha t' q' Hq' Hd') as (? & ? & ?). split; [set_solver|done].
  - intros t' Hin'. assert (t' ≠ t) as Hne by set_solver.
    unfold running. cbn. rewrite lookup_alter_ne by done. apply Hb. set_solver.
Qed.

Lemma armed_cancel_timer t errback s :
  armed s → armed (exec_state (_cancel_timer env t errback) s).
Proof.
  intros [Ha Hb]. unfold exec_state. destruct (decide (t ∈ _active_timers s)) as [Hin|Hout].
  - rewrite cancel_timer_active by done.
    assert (armed (cancelled t s)) as Hc.
    { unfold cancelled, timer_stop. run. split; cbn.
      - intros t' q'. destruct (decide (t' = t)) as [->|Hne].
        + rewrite lookup_alter_eq. destruct (qtimers s !! t); [|done].
          intros [= <-]. cbn. by intros [? ?].
        + rewrite lookup_alter_ne by done. intros Hq' Hd'.
          destruct (Ha t' q' Hq' Hd') as (? & ? & ?). split; [set_solver|done].
      - intros t' Hin'. assert (t' ≠ t) as Hne by set_solver.
        unfold running. cbn. rewrite lookup_alter_ne by done. apply Hb. set_solver. }
    destruct (is_callable errback) as [f|]; [|done].
    by apply armed_call.
  - by rewrite cancel_timer_inactive.
Qed.

Lemma armed_sweep items s : armed s → armed (exec_state (sweep env items) s).
Proof.
  revert s. induction items as [|[t p] items IH]; intros s Hs; [done|].
  unfold sweep in *. cbn [for_each]. unfold exec_state, mbind, M_bind in *.
  pose proof (armed_cancel_timer t p s Hs) as H. unfold exec_state in H.
  destruct (_cancel_timer env t p s) as [[[]|e] s1]; cbn in *; [|done].
  by apply IH.
Qed.

Lemma armed_load_finished_slots ok slots s :
  armed s →
  armed (run_slots slots
           (λ '(callback, errback), _on_goto_load_finished env ok callback errback) s).
Proof.
  revert s. induction slots as [|[callback errback] slots IH]; intros s Hs; [done|].
  cbn. by apply IH, armed_on_goto_load_finished.
Qed.

Lemma armed_step a s s' : armed s → step env a s = Some s' → armed s'.
Proof.
  intros Hs. destruct a; cbn [step]; intros Hstep; simplify_eq.
  - eapply armed_calm; [apply go_calmly|done].
  - by apply armed_wait.
  - eapply armed_calm; [apply close_calmly|done].
  - eapply armed_calm; [apply stop_loading_calmly|done].
  - eapply armed_calm; [apply return_result_calmly|done].
  - eapply armed_calm; [apply return_error_calmly|done].
  - eapply armed_calm; [apply set_default_headers_calmly|done].
  - eapply armed_calm; [apply history_calmly|done].
  - by apply armed_load_finished_slots.
  - unfold exec_state. rewrite on_url_changed_unfold. apply armed_sweep.
    by destruct cause_ev.
  - destruct (qtimers s !! t) as [q|] eqn:Hq; [|done].
    destruct (due q) as [d|] eqn:Hd, (timeout_slot q) as [callback|]; try done.
    destruct (d <=? now s); simplify_eq.
    assert (is_Some (due q)) as Hd' by (rewrite Hd; eauto).
    destruct (armed_timeout t q callback s Hs Hq Hd') as [_ H].
    unfold exec_state, mbind, M_bind in *. unfold timer_elapse at 1. run. exact H.
  - destruct (replies s !! r) as [q|]; [|done].
    destruct (rp_finished q); simplify_eq.
    eapply armed_calm.
    + apply run_slots_calm.
      intros [[[callback errback] baseurl] url].
      apply on_baseurl_request_finished_calmly.
    + eapply armed_calm; [apply reply_complete_calmly|done].
  - done.
  - destruct (0 <=? d); by simplify_eq.
Qed.

Lemma armed_exec acts s s' : armed s → exec env acts s = Some s' → armed s'.
Proof.
  revert s. induction acts as [|a acts IH]; intros s Hs; cbn; [congruence|].
  destruct (step env a s) as [s1|] eqn:Hstep; [|done].
  intros H. eapply IH; [|exact H]. by eapply armed_step.
Qed.

Lemma armed_new_tab verbosity uid : armed (new_tab verbosity uid).
Proof.
  split; cbn.
  - intros t q Hq. by rewrite lookup_empty in Hq.
  - intros t Hin. by apply elem_of_empty in Hin.
Qed.

(** X12. At every point of a run of a new tab between two actions, the
    timers of [_active_timers] are exactly the timers Qt runs.  So Qt can
    deliver the timeout of a timer exactly when the timer is in
    [_active_timers] and due, and the handler of a delivered timeout never
    fails on [_active_timers.remove]: it returns, having called the
    callback the timer was created with exactly once, and leaves the timer
    stopped and out of both collections. *)
Theorem active_timers_are_the_running_timers verbosity uid acts s :
  exec env acts (new_tab verbosity uid) = Some s →
  (∀ t, t ∈ _active_timers s ↔ running t s = true)
  ∧ (∀ t, is_Some (step env (SignalTimeout t) s)
          ↔ t ∈ _active_timers s
            ∧ ∃ q d, qtimers s !! t = Some q ∧ due q = Some d ∧ d ≤ now s)
  ∧ ∀ t s', step env (SignalTimeout t) s = Some s' →
      ∃ q callback,
        qtimers s !! t = Some q ∧ timeout_slot q = Some callback
        ∧ (_on_wait_timeout env t callback (exec_state (timer_elapse t) s)).1 = Return ()
        ∧ site_calls (AtWaitTimeout t) (emitted s s') = [callback]
        ∧ (t ∉ _active_timers s')
        ∧ _cancel_on_redirect_timers s' !! t = None
        ∧ running t s' = false.
Proof.
  intros Hexec.
  pose proof (armed_exec _ _ _ (armed_new_tab verbosity uid) Hexec) as Harmed.
  pose proof (exec_wf env _ _ _ (new_tab_wf verbosity uid) Hexec) as Hwf.
  destruct Harmed as [Ha Hb].
  split; [|split].
  - intros t. split; [apply Hb|]. unfold running.
    destruct (qtimers s !! t) as [q|] eqn:Hq; [|done].
    intros Hd%bool_decide_eq_true. by destruct (Ha t q Hq Hd).
  - intros t. cbn [step]. split.
    + destruct (qtimers s !! t) as [q|] eqn:Hq; [|by intros [? ?]].
      destruct (due q) as [d|] eqn:Hd; [|by intros [? ?]].
      destruct (timeout_slot q) as [callback|]; [|by intros [? ?]].
      destruct (d <=? now s) eqn:Hle; [|by intros [? ?]].
      intros _. split; [|exists q, d; split; [done|split; [done|lia]]].
      apply (Ha t q Hq). rewrite Hd. eauto.
    + intros (Hin & q & d & Hq & Hd & Hle). rewrite Hq, Hd.
      destruct (Ha t q Hq) as (_ & _ & [callback ->]); [rewrite Hd; eauto|].
      rewrite (proj2 (Z.leb_le _ _) Hle). eauto.
  - intros t s' Hstep. cbn [step] in Hstep.
    destruct (qtimers s !! t) as [q|] eqn:Hq; [|done].
    destruct (due q) as [d|] eqn:Hd; [|done].
    destruct (timeout_slot q) as [callback|] eqn:Hslot; [|done].
    destruct (d <=? now s); simplify_eq.
    exists q, callback. split; [done|]. split; [done|].
    assert (is_Some (due q)) as Hd' by (rewrite Hd; eauto).
    destruct (Ha t q Hq Hd') as (Hin & Hss & _).
    set (s1 := exec_state (timer_elapse t) s).
    assert (t ∈ _active_timers s1) as Hin1 by done.
    assert (t < next_timer s1)%nat as Hlt1 by (by apply (wf_active _ Hwf)).
    destruct (on_wait_timeout_own env t callback s1 Hin1 Hlt1) as (Hret & Hts & Hcalls).
    assert (exec_state (timer_elapse t ;; _on_wait_timeout env t callback) s
            = exec_state (_on_wait_timeout env t callback) s1) as -> by done.
    split; [done|].
    apply timer_state_gone in Hts as (Hc' & Ha' & Hq').
    split; [|split; [|split]].
    + destruct (on_wait_timeout_frame env t callback s1) as [(evs & Htr & _) _ _ _ _].
      assert (trace s1 = trace s) as Hts1 by done.
      rewrite Htr, site_calls_app in Hcalls. apply app_inv_head in Hcalls.
      rewrite Hts1 in Htr. by rewrite (emitted_app _ _ _ Htr).
    + done.
    + done.
    + unfold running. rewrite Hq'. unfold s1, timer_elapse. run. cbn.
      unfold timer in *. rewrite lookup_alter_eq, Hq. cbn. by rewrite Hss.
Qed.

End RunningTimers.

(** ** What [iframes_info] reports *)

Lemma frame_to_dict_reported frame children html :
  _frame_to_dict (reported children html frame) children html
  = _frame_to_dict frame children html.
Proof.
  assert (∀ f, _frame_to_dict (reported true html f) true html = _frame_to_dict f true html)
    as Ht.
  { induction f as [u r [[[x y] w] h0] t h n kids IH] using QWebFrame_nested_ind. cbn.
    rewrite <- list_fmap_compose.
    replace ((λ f, _frame_to_dict f true html) ∘ reported true html <$> kids)
      with ((λ f, _frame_to_dict f true html) <$> kids).
    2:{ apply Forall_fmap_ext_1. eapply Forall_impl; [exact IH|].
        intros f Hf. by rewrite <- Hf. }
    by destruct html. }
  destruct children; [apply Ht|].
  destruct frame as [u r [[[x y] w] h0] t h n kids]. cbn. by destruct html.
Qed.

Lemma frame_to_dict_children_inj html kids kids' :
  Forall (λ f, ∀ g, _frame_to_dict f true html = _frame_to_dict g true html →
                    reported true html f = reported true html g) kids →
  (λ f, _frame_to_dict f true html) <$> kids = (λ f, _frame_to_dict f true html) <$> kids' →
  reported true html <$> kids = reported true html <$> kids'.
Proof.
  intros IH. revert kids'. induction IH as [|f kids Hf _ IHkids]; intros [|g kids']; cbn;
    try done.
  intros [= Hfg Hrest]. f_equal; [by apply Hf|by apply IHkids].
Qed.

Lemma frame_to_dict_tree_inj html f g :
  _frame_to_dict f true html = _frame_to_dict g true html →
  reported true html f = reported true html g.
Proof.
  revert g. induction f as [u r [[[x y] w] h0] t h n kids IH] using QWebFrame_nested_ind.
  intros [u' r' [[[x' y'] w'] h0'] t' h' n' kids']. cbn.
  intros [= Hd].
  pose proof (f_equal (.!! "url") Hd) as H1.
  pose proof (f_equal (.!! "requestedUrl") Hd) as H2.
  pose proof (f_equal (.!! "geometry") Hd) as H3.
  pose proof (f_equal (.!! "title") Hd) as H4.
  pose proof (f_equal (.!! "html") Hd) as H5.
  pose proof (f_equal (.!! "frameName") Hd) as H6.
  pose proof (f_equal (.!! "childFrames") Hd) as H7.
  clear Hd. destruct html; simplify_map_eq.
  all: by rewrite (frame_to_dict_children_inj _ kids kids' IH H7).
Qed.

Lemma frame_to_dict_own_inj html f g :
  _frame_to_dict f false html = _frame_to_dict g false html →
  reported false html f = reported false html g.
Proof.
  destruct f as [u r [[[x y] w] h0] t h n kids], g as [u' r' [[[x' y'] w'] h0'] t' h' n' kids'].
  cbn. intros [= Hd].
  pose proof (f_equal (.!! "url") Hd) as H1.
  pose proof (f_equal (.!! "requestedUrl") Hd) as H2.
  pose proof (f_equal (.!! "geometry") Hd) as H3.
  pose proof (f_equal (.!! "title") Hd) as H4.
  pose proof (f_equal (.!! "html") Hd) as H5.
  clear Hd. by destruct html; simplify_map_eq.
Qed.

(** X13. What [iframes_info] returns tells two frame trees apart exactly
    when they differ in what the call is asked to report.  With
    [children] that is the whole tree of frames below the main frame, each
    with its URL, requested URL, geometry, title and name; without, the
    main frame alone and without its name.  With [html] the HTML of every
    reported frame is part of it; without, the HTML of no frame has any
    influence on the result.  So a call with both flags loses nothing of
    the tree.  The call logs at level 3 and stores the timing
    [_onIframesRendered] after the tree has been read. *)
Theorem iframes_info_reports_what_is_asked f g children html s s' :
  ((iframes_info f children html s).1 = (iframes_info g children html s').1
   ↔ reported children html f = reported children html g)
  ∧ reported true true f = f
  ∧ emitted s (exec_state (iframes_info f children html) s)
    = [LoggerLog "getting iframes" (Some 3); StoreHarTiming "_onIframesRendered"].
Proof.
  split; [|split].
  - unfold iframes_info. run. cbn [fst]. split.
    + intros [= H]. destruct children.
      * by apply frame_to_dict_tree_inj.
      * by apply frame_to_dict_own_inj.
    + intros H. f_equal.
      rewrite <- (frame_to_dict_reported f), <- (frame_to_dict_reported g). by rewrite H.
  - induction f as [u r geom t h n kids IH] using QWebFrame_nested_ind. cbn. f_equal.
    induction IH as [|k kids Hk _ IHkids]; [done|]. cbn. by rewrite Hk, IHkids.
  - apply emitted_app. unfold iframes_info. run. cbn. by rewrite <- app_assoc.
Qed.

(** ** The JavaScript console *)

Lemma js_exec_app acts1 acts2 p : js_exec (acts1 ++ acts2) p = js_exec acts2 (js_exec acts1 p).
Proof. apply foldl_app. Qed.

Lemma js_exec_disabled acts :
  CallJsconsoleEnable ∉ acts → js_exec acts new_js_page = new_js_page.
Proof.
  induction acts as [|a acts IH] using rev_ind; [done|].
  rewrite not_elem_of_app, js_exec_app. intros [Hacts Ha]. rewrite (IH Hacts).
  destruct a; cbn; [|done..]. exfalso. apply Ha. left.
Qed.

Lemma js_exec_attached acts messages :
  WindowObjectCleared ∉ acts →
  js_exec acts {| _js_console := Some messages; window_objects := ["console"] |}
  = {| _js_console := Some (messages ++ logged acts); window_objects := ["console"] |}.
Proof.
  induction acts as [|a acts IH] using rev_ind; [by rewrite app_nil_r|].
  rewrite not_elem_of_app, js_exec_app. intros [Hacts Ha]. rewrite (IH Hacts).
  unfold logged. rewrite omap_app.
  destruct a; cbn.
  - by rewrite app_nil_r.
  - rewrite decide_True by set_solver. cbn. unfold _JavascriptConsole_log.
    by rewrite <- app_assoc.
  - exfalso. apply Ha. left.
Qed.

Lemma js_exec_detached acts messages :
  js_exec acts {| _js_console := Some messages; window_objects := [] |}
  = {| _js_console := Some messages; window_objects := [] |}.
Proof.
  induction acts as [|a acts IH] using rev_ind; [done|].
  rewrite js_exec_app, IH. destruct a; cbn; [done| |done].
  rewrite decide_False; [done|]. apply not_elem_of_nil.
Qed.

(** X14. The console collects what the page logs from the first call of
    [_jsconsole_enable] until the window object is cleared, and no more:
    before the first call [_jsconsole_messages] answers the empty list;
    then it answers the messages logged since, in order, a later call of
    [_jsconsole_enable] neither dropping them nor adding a second object;
    and once the window object has been cleared the answer stays what it
    was, whatever the page logs and however often the console is enabled
    again, since an enabled console is never added to the window a second
    time. *)
Theorem jsconsole_collects_while_on_window pre logs post :
  CallJsconsoleEnable ∉ pre → WindowObjectCleared ∉ logs →
  _jsconsole_messages (js_exec pre new_js_page) = []
  ∧ _jsconsole_messages (js_exec (pre ++ CallJsconsoleEnable :: logs) new_js_page)
    = logged logs
  ∧ window_objects (js_exec (pre ++ CallJsconsoleEnable :: logs) new_js_page) = ["console"]
  ∧ _jsconsole_messages
      (js_exec (pre ++ CallJsconsoleEnable :: logs ++ WindowObjectCleared :: post) new_js_page)
    = logged logs.
Proof.
  intros Hpre Hlogs.
  assert (js_exec (pre ++ CallJsconsoleEnable :: logs) new_js_page
          = {| _js_console := Some (logged logs); window_objects := ["console"] |}) as Hon.
  { rewrite js_exec_app, (js_exec_disabled pre Hpre). cbn [js_exec foldl js_step].
    exact (js_exec_attached logs [] Hlogs). }
  split; [by rewrite js_exec_disabled|]. split; [by rewrite Hon|]. split; [by rewrite Hon|].
  rewrite (app_comm_cons logs), (app_assoc pre), js_exec_app, Hon.
  cbn [js_exec foldl js_step _js_console].
  pose proof (js_exec_detached post (logged logs)) as H. unfold js_exec in H.
  by rewrite H.
Qed.

(** ** Injecting scripts *)

Lemma endswith_spec s suffix : endswith s suffix = true ↔ ∃ stem, s = stem +:+ suffix.
Proof.
  induction s as [|c s IH]; cbn [endswith].
  - rewrite orb_false_r, String.eqb_eq. split.
    + intros <-. by exists "".
    + intros [[|c stem] H]; cbn in H; done.
  - rewrite orb_true_iff, IH, String.eqb_eq. split.
    + intros [<-|[stem ->]]; [by exists ""|by exists (String c stem)].
    + intros [[|c' stem] H]; cbn in H.
      * by left.
      * injection H as -> ->. right. eauto.
Qed.

Section MoreScripts.
Context (env : environment) (fs : filesystem).
Context (evaluateJavaScript : list string → string → string).

Lemma inject_js_files_cons folder jsfile rest page :
  inject_js_files env fs evaluateJavaScript folder (jsfile :: rest) page
  = if endswith jsfile ".js" then
      match inject_js env fs evaluateJavaScript (os_path_join folder jsfile) page with
      | (inl e, page') => (inl e, page')
      | (inr _, page') => inject_js_files env fs evaluateJavaScript folder rest page'
      end
    else inject_js_files env fs evaluateJavaScript folder rest page.
Proof. reflexivity. Qed.

Lemma inject_js_files_skip folder listing page :
  inject_js_files env fs evaluateJavaScript folder listing page
  = inject_js_files env fs evaluateJavaScript folder
      (filter (λ jsfile, endswith jsfile ".js" = true) listing) page.
Proof.
  revert page. induction listing as [|jsfile rest IH]; intros page; [done|].
  rewrite filter_cons, inject_js_files_cons.
  destruct (endswith jsfile ".js") eqn:E.
  - rewrite decide_True by done. rewrite inject_js_files_cons, E.
    destruct (inject_js _ _ _ _ page) as [[e|res] page']; [done|]. apply IH.
  - rewrite decide_False by done. apply IH.
Qed.

Lemma inject_js_files_all folder jsfiles scripts page :
  Forall (λ jsfile, endswith jsfile ".js" = true) jsfiles →
  Forall2 (λ jsfile script, read_script env fs (os_path_join folder jsfile) = inr script)
          jsfiles scripts →
  ∀ rest,
    inject_js_files env fs evaluateJavaScript folder (jsfiles ++ rest) page
    = inject_js_files env fs evaluateJavaScript folder rest (page ++ scripts).
Proof.
  intros Hjs Hread. revert page Hjs.
  induction Hread as [|jsfile script jsfiles scripts Hr _ IH]; intros page Hjs rest.
  { by rewrite app_nil_r. }
  apply Forall_cons in Hjs as [E Hjs]. cbn [app]. rewrite inject_js_files_cons, E.
  unfold inject_js, runjs. rewrite Hr. rewrite IH by done.
  by rewrite <- app_assoc.
Qed.

(** X15. [inject_js_libs] evaluates in the main frame the scripts of the
    files of the folder whose names end in [.js], in the order of the
    listing, each read from the path [os.path.join] makes of the folder
    and the name; a file with another name is not opened, so it cannot
    make the call fail.  The first file that cannot be read or decoded
    ends the call with its exception: the scripts of the files before it
    have been evaluated and stay so, those after it are not evaluated.  A
    folder that cannot be listed evaluates nothing. *)
Theorem inject_js_libs_in_listing_order folder listing page :
  os_listdir fs folder = Some listing →
  let jsfiles := filter (λ jsfile, endswith jsfile ".js" = true) listing in
  let reads := Forall2 (λ jsfile script,
                 read_script env fs (os_path_join folder jsfile) = inr script) in
  (∀ jsfile, jsfile ∈ jsfiles ↔ jsfile ∈ listing ∧ ∃ stem, jsfile = stem +:+ ".js")
  ∧ (∀ scripts, reads jsfiles scripts →
       inject_js_libs env fs evaluateJavaScript folder page = (inr (), page ++ scripts))
  ∧ (∀ good bad rest scripts e,
       jsfiles = good ++ bad :: rest → reads good scripts →
       read_script env fs (os_path_join folder bad) = inl e →
       inject_js_libs env fs evaluateJavaScript folder page = (inl e, page ++ scripts)).
Proof.
  intros Hl. cbv zeta. unfold inject_js_libs. rewrite Hl, inject_js_files_skip.
  assert (Forall (λ jsfile, endswith jsfile ".js" = true)
            (filter (λ jsfile, endswith jsfile ".js" = true) listing)) as Hjs.
  { apply Forall_forall. by intros jsfile [? _]%list_elem_of_filter. }
  split; [|split].
  - intros jsfile. rewrite list_elem_of_filter, endswith_spec. tauto.
  - intros scripts Hread.
    pose proof (inject_js_files_all folder _ scripts page Hjs Hread []) as H.
    by rewrite app_nil_r in H.
  - intros good bad rest scripts e Heq Hread Hbad. rewrite Heq in Hjs |- *.
    apply Forall_app in Hjs as [Hgood Hrest]. apply Forall_cons in Hrest as [Ebad _].
    rewrite (inject_js_files_all folder good scripts page Hgood Hread).
    rewrite inject_js_files_cons, Ebad. unfold inject_js. by rewrite Hbad.
Qed.

End MoreScripts.

(** ** What the tab logs *)

Lemma levelled_refl s : levelled s s.
Proof. split; try done. exists []. by rewrite app_nil_r. Qed.

Lemma levelled_trans s1 s2 s3 : levelled s1 s2 → levelled s2 s3 → levelled s1 s3.
Proof.
  intros [? ? (evs & Htr & Hev)] [? ? (evs' & Htr' & Hev')].
  split; try congruence.
  exists (evs ++ evs'). rewrite Htr', Htr, app_assoc. split; [done|]. by apply Forall_app.
Qed.

Ltac levelled_now :=
  split; [done|done|];
  cbn; eexists; split;
  [ rewrite <- ?app_assoc; first [reflexivity | symmetry; apply app_nil_r]
  | repeat constructor ].

Lemma levelly_ret {A} (a : A) : levelly (mret a).
Proof. intros s. apply levelled_refl. Qed.

Lemma levelly_raise {A} e : levelly (raise e : M A).
Proof. intros s. apply levelled_refl. Qed.

Lemma levelly_gets {A} (f : BrowserTab → A) : levelly (gets f).
Proof. intros s. apply levelled_refl. Qed.

Lemma levelly_lift_outcome {A} (o : outcome A) : levelly (lift_outcome o).
Proof. intros s. apply levelled_refl. Qed.

Lemma levelly_bind {A B} (m : M A) (k : A → M B) :
  levelly m → (∀ a, levelly (k a)) → levelly (m ≫= k).
Proof.
  intros Hm Hk s. specialize (Hm s). unfold exec_state, mbind, M_bind in *.
  destruct (m s) as [[a|e] s1]; cbn in *; [|done].
  eapply levelled_trans; [exact Hm|apply Hk].
Qed.

Lemma levelly_when b (m : M unit) : levelly m → levelly (when b m).
Proof. destruct b; [done|]. intros _. apply levelly_ret. Qed.

Lemma levelly_for_each {A} (l : list A) (body : A → M unit) :
  (∀ x, levelly (body x)) → levelly (for_each l body).
Proof.
  intros Hb. induction l as [|x l IH]; cbn [for_each]; [apply levelly_ret|].
  apply levelly_bind; [apply Hb|done].
Qed.

Lemma levelly_emit e : gated e → levelly (emit e).
Proof. intros He s. run. split; try done. exists [e]. split; [done|]. by constructor. Qed.

Lemma levelly_logger_log message min_level :
  1 ≤ min_level ≤ 3 → levelly (logger_log message min_level).
Proof. intros Hl. apply levelly_emit. cbn. eauto. Qed.

Lemma levelly_modify (f : BrowserTab → BrowserTab) :
  (∀ s, levelled s (f s)) → levelly (modify f).
Proof. intros Hf s. apply Hf. Qed.

Create HintDb level.
#[local] Hint Resolve levelly_ret levelly_raise levelly_gets levelly_lift_outcome : level.

Ltac levelly_step :=
  first
    [ solve [eauto with level]
    | apply levelly_bind; [|intros ?]
    | apply levelly_when
    | apply levelly_logger_log; lia
    | apply levelly_emit; exact I
    | apply levelly_modify; intros ?; levelled_now
    | match goal with
      | |- levelly (if ?b then _ else _) => destruct b
      | |- levelly (match ?x with _ => _ end) => destruct x
      end ].

Ltac levelly := repeat levelly_step.

Lemma QTimer_new_levelly : levelly QTimer_new.
Proof. intros s. unfold QTimer_new. levelled_now. Qed.

Lemma timer_start_levelly t time_ms : levelly (timer_start t time_ms).
Proof. intros s. unfold timer_start. run. levelled_now. Qed.

Lemma timer_elapse_levelly t : levelly (timer_elapse t).
Proof. intros s. unfold timer_elapse. run. levelled_now. Qed.

Lemma active_timers_remove_levelly t : levelly (active_timers_remove t).
Proof.
  intros s. unfold active_timers_remove, exec_state.
  destruct (decide (t ∈ _active_timers s)); run; levelled_now.
Qed.

Lemma network_manager_get_levelly req : levelly (network_manager_get req).
Proof. intros s. unfold network_manager_get. run. levelled_now. Qed.

#[local] Hint Resolve QTimer_new_levelly timer_start_levelly timer_elapse_levelly
  active_timers_remove_levelly network_manager_get_levelly : level.

Lemma wait_levelly time_ms callback onredirect : levelly (wait time_ms callback onredirect).
Proof.
  unfold wait, timer_setSingleShot, timer_timeout_connect. levelly.
Qed.
#[local] Hint Resolve wait_levelly : level.

Section Logging.
Context (env : environment).

Lemma call_levelly site f : levelly (call env site f).
Proof.
  unfold call. levelly. apply levelly_for_each. intros w. levelly.
Qed.
#[local] Hint Resolve call_levelly : level.

Lemma return_result_levelly v : levelly (return_result v).
Proof.
  unfold return_result, return_error, result_already_returned, deferred_callback. levelly.
Qed.

Lemma return_error_levelly v : levelly (return_error v).
Proof.
  unfold return_error, result_already_returned, deferred_errback. levelly.
Qed.

Lemma close_levelly : levelly _close.
Proof. unfold _close. levelly. Qed.

Lemma stop_loading_levelly : levelly stop_loading.
Proof. unfold stop_loading. levelly. Qed.

Lemma set_default_headers_levelly h : levelly (set_default_headers h).
Proof. unfold set_default_headers. levelly. Qed.

Lemma history_levelly : levelly history.
Proof. unfold history. levelly. Qed.

Lemma create_request_levelly url : levelly (_create_request env url).
Proof.
  unfold _create_request, _set_request_headers. levelly.
  apply levelly_for_each. intros [name value]. levelly.
Qed.
#[local] Hint Resolve create_request_levelly : level.

Lemma go_levelly url callback errback baseurl http_method body :
  levelly (go env url callback errback baseurl http_method body).
Proof.
  unfold go, store_har_timing, _load_url_to_mainframe, loadFinished_connect,
    reply_finished_connect.
  levelly.
Qed.

Lemma on_goto_load_finished_levelly ok callback errback :
  levelly (_on_goto_load_finished env ok callback errback).
Proof. unfold _on_goto_load_finished. levelly. Qed.

Lemma on_baseurl_request_finished_levelly callback errback baseurl url :
  levelly (_on_baseurl_request_finished env callback errback baseurl url).
Proof.
  unfold _on_baseurl_request_finished, loadFinished_connect, reply_deleteLater. levelly.
Qed.

Lemma on_wait_timeout_levelly t callback : levelly (_on_wait_timeout env t callback).
Proof. unfold _on_wait_timeout, cancel_on_redirect_timers_pop. levelly. Qed.

Lemma cancel_timer_levelly t errback : levelly (_cancel_timer env t errback).
Proof. unfold _cancel_timer, cancel_on_redirect_timers_pop, timer_stop. levelly. Qed.

Lemma on_url_changed_levelly url cause_ev : levelly (_on_url_changed env url cause_ev).
Proof.
  unfold _on_url_changed. levelly.
  apply levelly_for_each. intros [t onredirect]. apply cancel_timer_levelly.
Qed.

Lemma run_slots_levelled {A} (slots : list A) (slot : A → M unit) s :
  (∀ x, levelly (slot x)) → levelled s (run_slots slots slot s).
Proof.
  intros Hslot. revert s. induction slots as [|x slots IH]; intros s; [apply levelled_refl|].
  cbn. eapply levelled_trans; [apply Hslot|apply IH].
Qed.

Lemma step_levelled a s s' : step env a s = Some s' → levelled s s'.
Proof.
  destruct a; cbn [step]; intros Hstep; simplify_eq.
  - apply go_levelly.
  - apply wait_levelly.
  - apply close_levelly.
  - apply stop_loading_levelly.
  - apply return_result_levelly.
  - apply return_error_levelly.
  - apply set_default_headers_levelly.
  - apply history_levelly.
  - apply run_slots_levelled. intros [callback errback]. apply on_goto_load_finished_levelly.
  - apply on_url_changed_levelly.
  - destruct (qtimers s !! t) as [q|]; [|done].
    destruct (due q) as [d|], (timeout_slot q) as [callback|]; try done.
    destruct (d <=? now s); simplify_eq.
    apply levelly_bind; [apply timer_elapse_levelly|intros _; apply on_wait_timeout_levelly].
  - destruct (replies s !! r) as [q|]; [|done].
    destruct (rp_finished q); simplify_eq.
    eapply levelled_trans.
    + assert (levelly (reply_complete r content_type data error)) as H by
        (unfold reply_complete; levelly).
      apply H.
    + apply run_slots_levelled. intros [[[callback errback] baseurl] url].
      apply on_baseurl_request_finished_levelly.
  - levelled_now.
  - destruct (0 <=? d); simplify_eq. levelled_now.
Qed.

Lemma exec_levelled acts s s' : exec env acts s = Some s' → levelled s s'.
Proof.
  revert s. induction acts as [|a acts IH]; intros s; cbn.
  { intros [= <-]. apply levelled_refl. }
  destruct (step env a s) as [s1|] eqn:Hstep; [|done]. intros Hexec.
  eapply levelled_trans; [by eapply step_levelled|by apply IH].
Qed.

Lemma log_output_gated v uid evs :
  Forall gated evs →
  (v < 1 →
   omap (λ e, match e with
              | LoggerLog m l => _BrowserTabLogger_log v uid m l
              | _ => None
              end) evs = [])
  ∧ (3 ≤ v →
     omap (λ e, match e with
                | LoggerLog m l => _BrowserTabLogger_log v uid m l
                | _ => None
                end) evs = omap (log_line uid) evs).
Proof.
  induction 1 as [|e evs He _ [IH0 IH3]]; [done|]. cbn [omap list_omap].
  split; intros Hv.
  - rewrite (IH0 Hv). destruct e; try done.
    destruct He as (l & -> & Hl). cbn.
    by rewrite (proj2 (Z.ltb_lt _ _)) by lia.
  - rewrite (IH3 Hv). destruct e; try done.
    destruct He as (l & -> & Hl). cbn.
    by rewrite (proj2 (Z.ltb_ge _ _)) by lia.
Qed.


End Logging.

(** ** Closing and timers *)

Section ClosingTimers.
Context (env : environment).

(** X17. [_close] stops the loading as [stop_loading] does, closes the
    view and schedules page and view for deletion, and sets the closing
    flag; it does not touch the timers of [wait].  A timer of
    [_active_timers] that is due is still delivered to a closing tab, and
    its handler calls the callback as in a tab that is not closing: only
    the load-finished handler looks at the flag. *)
Theorem close_leaves_timers_running t q d callback s :
  t ∈ _active_timers s → (t < next_timer s)%nat →
  qtimers s !! t = Some q → due q = Some d → timeout_slot q = Some callback → d ≤ now s →
  let s1 := exec_state _close s in
  _closing s1 = true
  ∧ emitted s s1
    = emitted s (exec_state stop_loading s) ++ [ViewClose; PageDeleteLater; ViewDeleteLater]
  ∧ _active_timers s1 = _active_timers s
  ∧ _cancel_on_redirect_timers s1 = _cancel_on_redirect_timers s
  ∧ qtimers s1 = qtimers s
  ∧ ∃ s2, step env (SignalTimeout t) s1 = Some s2
          ∧ _closing s2 = true
          ∧ site_calls (AtWaitTimeout t) (emitted s1 s2) = [callback]
          ∧ (t ∉ _active_timers s2).
Proof.
  intros Hin Hlt Hq Hd Hslot Hle. cbv zeta.
  split; [done|]. split.
  { rewrite (emitted_app s (exec_state stop_loading s) [StopScheduledPageRefresh; ViewStop]).
    - apply emitted_app. unfold _close. run. cbn. by rewrite <- !app_assoc.
    - unfold stop_loading. run. cbn. by rewrite <- !app_assoc. }
  split; [done|]. split; [done|]. split; [done|].
  set (s1 := exec_state _close s).
  assert (qtimers s1 !! t = Some q) as Hq1 by done.
  assert (now s1 = now s) as Hnow by done.
  assert (step env (SignalTimeout t) s1
          = Some (exec_state (timer_elapse t ;; _on_wait_timeout env t callback) s1))
    as Hstep.
  { cbn [step]. unfold timer in *.
    by rewrite Hq1, Hd, Hslot, Hnow, (proj2 (Z.leb_le _ _) Hle). }
  eexists. split; [exact Hstep|].
  set (s1' := exec_state (timer_elapse t) s1).
  assert (exec_state (timer_elapse t ;; _on_wait_timeout env t callback) s1
          = exec_state (_on_wait_timeout env t callback) s1') as -> by done.
  assert (t ∈ _active_timers s1') as Hin1 by done.
  assert (t < next_timer s1')%nat as Hlt1 by done.
  destruct (on_wait_timeout_own env t callback s1' Hin1 Hlt1) as (_ & Hts & Hcalls).
  apply timer_state_gone in Hts as (_ & Hout & _).
  split; [|split; [|done]].
  - by rewrite (sp_closing _ _ (on_wait_timeout_same_page env t callback s1')).
  - destruct (on_wait_timeout_frame env t callback s1') as [(evs & Htr & _) _ _ _ _].
    assert (trace s1' = trace s1) as Hts1 by done.
    rewrite Htr, site_calls_app in Hcalls. apply app_inv_head in Hcalls.
    rewrite Hts1 in Htr. by rewrite (emitted_app _ _ _ Htr).
Qed.

End ClosingTimers.

(** ** More of the theorems at work on sample tabs *)

Lemma plain_timer_fires_once_witness :
  let s0 := new_tab 2 "1" in
  let mid := [Tick 150; SignalUrlChanged "http://example.com/" None] in
  let s1 := tab_after sample_env (CallWait 100 3%nat PyNone :: mid) s0 in
  exec sample_env [] (new_tab 2 "1") = Some s0
  ∧ truthy PyNone = false
  ∧ exec sample_env (CallWait 100 3%nat PyNone :: mid) s0 = Some s1
  ∧ (SignalTimeout 0%nat ∉ mid)
  ∧ waiting 0%nat 3%nat 100 s1.
Proof.
  cbv zeta.
  assert (exec sample_env
            [CallWait 100 3%nat PyNone; Tick 150; SignalUrlChanged "http://example.com/" None]
            (new_tab 2 "1")
          = Some (tab_after sample_env
                    [CallWait 100 3%nat PyNone; Tick 150;
                     SignalUrlChanged "http://example.com/" None]
                    (new_tab 2 "1"))) as H1 by (vm_compute; reflexivity).
  assert (SignalTimeout 0%nat ∉ [Tick 150; SignalUrlChanged "http://example.com/" None])
    as Hn.
  { intros H. repeat (apply elem_of_cons in H as [H|H]; [discriminate|]).
    by apply elem_of_nil in H. }
  split; [reflexivity|]. split; [reflexivity|]. split; [exact H1|]. split; [exact Hn|].
  exact (proj1 (plain_timer_fires_once sample_env 2 "1" [] 100 3%nat PyNone _ _ _
                  eq_refl eq_refl H1 Hn)).
Defined.


Lemma go_direct_loads_frame_witness :
  str_truthy None = false
  ∧ decode_utf8 sample_env "http://example.com/" = Some "http://example.com/"
  ∧ OPERATION_QT_CONSTANTS sample_env !! "POST" = Some 4
  ∧ emitted (new_tab 2 "1")
      (exec_state (go sample_env "http://example.com/" 1%nat 2%nat None "POST" (Some "a=1"))
         (new_tab 2 "1"))
    = [StoreHarTiming "_onStarted";
       FrameLoad (request_for "http://example.com/" (new_tab 2 "1")) 4 (Some "a=1")].
Proof.
  assert (decode_utf8 sample_env "http://example.com/" = Some "http://example.com/")
    as Hd by reflexivity.
  assert (OPERATION_QT_CONSTANTS sample_env !! "POST" = Some 4) as Hm
    by (vm_compute; reflexivity).
  split; [reflexivity|]. split; [exact Hd|]. split; [exact Hm|].
  exact (proj1 (proj2 (go_direct_loads_frame sample_env "http://example.com/" _ 1%nat 2%nat
                         None "POST" 4 (Some "a=1") (new_tab 2 "1") eq_refl Hd Hm))).
Defined.

Lemma go_direct_failure_keeps_slot_witness :
  str_truthy None = false
  ∧ is_Some (decode_utf8 sample_env "http://example.com/")
  ∧ OPERATION_QT_CONSTANTS sample_env !! "PATCH" = None
  ∧ loadFinished_slots
      (exec_state (go sample_env "http://example.com/" 1%nat 2%nat None "PATCH" None)
         (new_tab 2 "1"))
    = [(1%nat, 2%nat)].
Proof.
  assert (is_Some (decode_utf8 sample_env "http://example.com/")) as Hd
    by (eexists; reflexivity).
  assert (OPERATION_QT_CONSTANTS sample_env !! "PATCH" = None) as Hm
    by (vm_compute; reflexivity).
  split; [reflexivity|]. split; [exact Hd|]. split; [exact Hm|].
  exact (proj1 (proj2 (proj2 (go_direct_failure_keeps_slot sample_env "http://example.com/"
                                1%nat 2%nat None "PATCH" None (new_tab 2 "1") eq_refl
                                (or_intror (conj Hd Hm)))))).
Defined.

Lemma go_baseurl_fetches_witness :
  str_truthy (Some "http://base.example/") = true
  ∧ decode_utf8 sample_env "http://example.com/" = Some "http://example.com/"
  ∧ _reply (exec_state (go sample_env "http://example.com/" 1%nat 2%nat
                           (Some "http://base.example/") "GET" None) (new_tab 2 "1"))
    = Some 0%nat.
Proof.
  assert (decode_utf8 sample_env "http://example.com/" = Some "http://example.com/")
    as Hd by reflexivity.
  split; [reflexivity|]. split; [exact Hd|].
  exact (proj1 (proj2 (proj2 (go_baseurl_fetches sample_env "http://example.com/" _ 1%nat
                                2%nat (Some "http://base.example/") None (new_tab 2 "1")
                                eq_refl Hd)))).
Defined.

Lemma baseurl_navigation_reaches_callback_witness :
  str_truthy (Some "http://base.example/") = true
  ∧ decode_utf8 sample_env "http://example.com/" = Some "http://example.com/"
  ∧ decode_utf8 sample_env "http://base.example/" = Some "http://base.example/"
  ∧ ∃ s1 s2 s3,
      step sample_env
        (CallGo "http://example.com/" 1%nat 2%nat (Some "http://base.example/") "GET" None)
        (new_tab 2 "1") = Some s1
      ∧ step sample_env (SignalReplyFinished 0%nat "text/html" "<html></html>" None) s1
        = Some s2
      ∧ step sample_env (SignalLoadFinished true) s2 = Some s3
      ∧ invocations (emitted s2 s3) = [(AtLoadFinishedCallback, 1%nat)].
Proof.
  assert (decode_utf8 sample_env "http://example.com/" = Some "http://example.com/")
    as Hu by reflexivity.
  assert (decode_utf8 sample_env "http://base.example/" = Some "http://base.example/")
    as Hd by reflexivity.
  split; [reflexivity|]. split; [exact Hu|]. split; [exact Hd|].
  destruct (baseurl_navigation_reaches_callback sample_env "http://example.com/" _ 1%nat
              2%nat (Some "http://base.example/") _ None "text/html" "<html></html>" None
              true (new_tab 2 "1") eq_refl Hu Hd)
    as (s1 & s2 & s3 & H1 & H2 & H3 & _ & _ & H6 & _).
  exists s1, s2, s3. split; [exact H1|]. split; [exact H2|]. split; [exact H3|exact H6].
Defined.

Lemma earlier_reply_consumes_latest_witness :
  let s := tab_after sample_env
             [CallGo "http://example.com/a" 1%nat 2%nat (Some "http://base.example/") "GET"
                     None;
              CallGo "http://example.com/b" 3%nat 4%nat (Some "http://base.example/") "GET"
                     None]
             (new_tab 2 "1") in
  let q1 := fresh_reply "http://example.com/a" "http://base.example/" 1%nat 2%nat in
  let q2 := fresh_reply "http://example.com/b" "http://base.example/" 3%nat 4%nat in
  _reply s = Some 1%nat
  ∧ 0%nat ≠ 1%nat
  ∧ replies s !! 0%nat = Some q1
  ∧ rp_finished q1 = false
  ∧ rp_finished_slots q1 = [(1%nat, 2%nat, "http://base.example/", "http://example.com/a")]
  ∧ replies s !! 1%nat = Some q2
  ∧ decode_utf8 sample_env "http://base.example/" = Some "http://base.example/"
  ∧ ∃ s', step sample_env (SignalReplyFinished 0%nat "text/html" "<html>a</html>" None) s
          = Some s'
          ∧ emitted s s'
            = [LoggerLog "baseurl_request_finished" (Some 2);
               FrameSetContent "" "" "http://base.example/";
               ReplyClose 1%nat; ReplyDeleteLater 1%nat].
Proof.
  cbv zeta.
  set (s := tab_after sample_env
              [CallGo "http://example.com/a" 1%nat 2%nat (Some "http://base.example/") "GET"
                      None;
               CallGo "http://example.com/b" 3%nat 4%nat (Some "http://base.example/") "GET"
                      None]
              (new_tab 2 "1")).
  assert (_reply s = Some 1%nat) as Hr by (vm_compute; reflexivity).
  assert (0%nat ≠ 1%nat) as Hne by discriminate.
  assert (replies s !! 0%nat
          = Some (fresh_reply "http://example.com/a" "http://base.example/" 1%nat 2%nat))
    as Hq1 by (vm_compute; reflexivity).
  assert (replies s !! 1%nat
          = Some (fresh_reply "http://example.com/b" "http://base.example/" 3%nat 4%nat))
    as Hq2 by (vm_compute; reflexivity).
  assert (decode_utf8 sample_env "http://base.example/" = Some "http://base.example/")
    as Hd by reflexivity.
  split; [exact Hr|]. split; [exact Hne|]. split; [exact Hq1|]. split; [reflexivity|].
  split; [reflexivity|]. split; [exact Hq2|]. split; [exact Hd|].
  destruct (earlier_reply_consumes_latest sample_env 1%nat 2%nat "http://base.example/"
              "http://example.com/a" "http://base.example/" 0%nat _ 1%nat _ "text/html"
              "<html>a</html>" None s Hr Hne Hq1 eq_refl eq_refl Hq2 Hd)
    as (s' & Hstep & Hem & _).
  exists s'. split; [exact Hstep|exact Hem].
Defined.


Lemma active_timers_are_the_running_timers_witness :
  let s := tab_after sample_env [CallWait 100 3%nat PyNone; Tick 100; SignalTimeout 0%nat]
             (new_tab 2 "1") in
  exec sample_env [CallWait 100 3%nat PyNone; Tick 100; SignalTimeout 0%nat] (new_tab 2 "1")
  = Some s
  ∧ ∀ t, t ∈ _active_timers s ↔ running t s = true.
Proof.
  cbv zeta.
  assert (exec sample_env [CallWait 100 3%nat PyNone; Tick 100; SignalTimeout 0%nat]
            (new_tab 2 "1")
          = Some (tab_after sample_env
                    [CallWait 100 3%nat PyNone; Tick 100; SignalTimeout 0%nat]
                    (new_tab 2 "1"))) as H by (vm_compute; reflexivity).
  split; [exact H|].
  exact (proj1 (active_timers_are_the_running_timers sample_env 2 "1" _ _ H)).
Defined.

Lemma jsconsole_collects_while_on_window_witness :
  let pre := [PageConsoleLog "early"] in
  let logs := [PageConsoleLog "a"; CallJsconsoleEnable; PageConsoleLog "b"] in
  let post := [PageConsoleLog "late"; CallJsconsoleEnable; PageConsoleLog "later"] in
  (CallJsconsoleEnable ∉ pre)
  ∧ (WindowObjectCleared ∉ logs)
  ∧ _jsconsole_messages
      (js_exec (pre ++ CallJsconsoleEnable :: logs ++ WindowObjectCleared :: post) new_js_page)
    = ["a"; "b"].
Proof.
  cbv zeta.
  assert (CallJsconsoleEnable ∉ [PageConsoleLog "early"]) as Hpre.
  { intros H. repeat (apply elem_of_cons in H as [H|H]; [discriminate|]).
    by apply elem_of_nil in H. }
  assert (WindowObjectCleared
          ∉ [PageConsoleLog "a"; CallJsconsoleEnable; PageConsoleLog "b"]) as Hlogs.
  { intros H. repeat (apply elem_of_cons in H as [H|H]; [discriminate|]).
    by apply elem_of_nil in H. }
  split; [exact Hpre|]. split; [exact Hlogs|].
  exact (proj2 (proj2 (proj2 (jsconsole_collects_while_on_window _ _
                                [PageConsoleLog "late"; CallJsconsoleEnable;
                                 PageConsoleLog "later"] Hpre Hlogs)))).
Defined.

Lemma inject_js_libs_in_listing_order_witness :
  os_listdir sample_fs "libs" = Some ["a.js"; "README"; "b.js"]
  ∧ inject_js_libs sample_env sample_fs (λ _ _, "undefined") "libs" []
    = (inr (), ["var a = 1;"; "var b = 2;"]).
Proof.
  assert (os_listdir sample_fs "libs" = Some ["a.js"; "README"; "b.js"]) as Hl by reflexivity.
  split; [exact Hl|].
  refine (proj1 (proj2 (inject_js_libs_in_listing_order sample_env sample_fs
                          (λ _ _, "undefined") "libs" _ [] Hl))
            ["var a = 1;"; "var b = 2;"] _).
  vm_compute. repeat constructor.
Defined.


Lemma close_leaves_timers_running_witness :
  let s := exec_state (wait 0 3%nat PyNone) (new_tab 2 "1") in
  let q := {| single_shot := true; timeout_slot := Some 3%nat; interval := 0;
              due := Some 0 |} in
  0%nat ∈ _active_timers s
  ∧ (0 < next_timer s)%nat
  ∧ qtimers s !! 0%nat = Some q
  ∧ due q = Some 0
  ∧ timeout_slot q = Some 3%nat
  ∧ 0 ≤ now s
  ∧ ∃ s2, step sample_env (SignalTimeout 0%nat) (exec_state _close s) = Some s2
          ∧ _closing s2 = true
          ∧ site_calls (AtWaitTimeout 0%nat) (emitted (exec_state _close s) s2) = [3%nat].
Proof.
  cbv zeta.
  set (s := exec_state (wait 0 3%nat PyNone) (new_tab 2 "1")).
  assert (0%nat ∈ _active_timers s) as Hin.
  { unfold s. rewrite wait_active_timers. apply elem_of_union_r, elem_of_singleton.
    reflexivity. }
  assert (0 < next_timer s)%nat as Hlt by (vm_compute; lia).
  assert (qtimers s !! 0%nat
          = Some {| single_shot := true; timeout_slot := Some 3%nat; interval := 0;
                    due := Some 0 |}) as Hq by (vm_compute; reflexivity).
  assert (0 ≤ now s) as Hnow by (vm_compute; discriminate).
  split; [exact Hin|]. split; [exact Hlt|]. split; [exact Hq|]. split; [reflexivity|].
  split; [reflexivity|]. split; [exact Hnow|].
  destruct (close_leaves_timers_running sample_env 0%nat _ 0 3%nat s Hin Hlt Hq eq_refl
              eq_refl Hnow) as (_ & _ & _ & _ & _ & s2 & Hstep & Hc & Hcalls & _).
  exists s2. split; [exact Hstep|]. split; [exact Hc|exact Hcalls].
Defined.

(** ** Slots stay connected *)

Section SlotsStay.
Context (env : environment).

Lemma sweep_same_page items s : same_page s (exec_state (sweep env items) s).
Proof.
  revert s. induction items as [|[t p] items IH]; intros s; [apply same_page_refl|].
  unfold sweep in *. cbn [for_each]. unfold exec_state, mbind, M_bind in *.
  pose proof (cancel_timer_same_page env t p s) as H. unfold exec_state in H.
  destruct (_cancel_timer env t p s) as [[[]|e] s1]; cbn in *; [|done].
  eapply same_page_trans; [exact H|apply IH].
Qed.

Lemma go_loadFinished_slots url callback errback baseurl http_method body s :
  ∃ more,
    loadFinished_slots (exec_state (go env url callback errback baseurl http_method body) s)
    = loadFinished_slots s ++ more.
Proof.
  unfold exec_state, go, loadFinished_connect, _load_url_to_mainframe. run.
  destruct (str_truthy baseurl); [destruct (negb _); [by exists []; rewrite app_nil_r|]|].
  all: destruct (decode_utf8 env url) as [u|] eqn:Hd;
         [rewrite (create_request_run env url u) by done
         |rewrite create_request_undecodable by done].
  all: unfold network_manager_get, reply_finished_connect.
  all: try match goal with
           | |- context [with_user_agent ?ua ?s1] => destruct ua
           end; run; cbn.
  all: try destruct (OPERATION_QT_CONSTANTS env !! http_method); cbn.
  all: first [by exists []; rewrite app_nil_r | by eexists].
Qed.

(** The slot of a reply connects its load-finished slot first, so it is
    connected however the slot ends. *)
Lemma on_baseurl_request_finished_connects callback errback baseurl url s :
  loadFinished_slots
    (exec_state (_on_baseurl_request_finished env callback errback baseurl url) s)
  = loadFinished_slots s ++ [(callback, errback)].
Proof.
  unfold _on_baseurl_request_finished, loadFinished_connect, reply_deleteLater. run.
  destruct (decode_utf8 env baseurl); [|done]. cbn.
  destruct (_reply s) as [r|]; [|done]. cbn.
  destruct (replies s !! r) as [q|]; [|done]. cbn.
  by destruct (rp_error q).
Qed.

Lemma step_loadFinished_slots a s s' :
  step env a s = Some s' → ∃ more, loadFinished_slots s' = loadFinished_slots s ++ more.
Proof.
  assert (∀ s1 : BrowserTab, loadFinished_slots s1 = loadFinished_slots s →
            ∃ more, loadFinished_slots s1 = loadFinished_slots s ++ more) as Hsame.
  { intros s1 ->. exists []. by rewrite app_nil_r. }
  destruct a; cbn [step]; intros Hstep; simplify_eq.
  - apply go_loadFinished_slots.
  - apply Hsame, (sp_loadFinished_slots _ _ (wait_same_page _ _ _ s)).
  - by apply Hsame.
  - by apply Hsame.
  - apply Hsame. unfold return_result, result_already_returned, deferred_callback. run.
    destruct (deferred_called s) eqn:E; cbn; rewrite E; done.
  - apply Hsame. unfold return_error, result_already_returned, deferred_errback. run.
    destruct (deferred_called s) eqn:E; cbn; rewrite E; done.
  - by apply Hsame.
  - by apply Hsame.
  - destruct (load_finished_slots_calls env ok (loadFinished_slots s) s) as [_ Hsp].
    apply Hsame, (sp_loadFinished_slots _ _ Hsp).
  - apply Hsame. unfold exec_state. rewrite on_url_changed_unfold.
    etrans; [apply (sp_loadFinished_slots _ _ (sweep_same_page _ _))|]. by destruct cause_ev.
  - destruct (qtimers s !! t) as [q|]; [|done].
    destruct (due q) as [d|], (timeout_slot q) as [callback|]; try done.
    destruct (d <=? now s); simplify_eq. apply Hsame.
    unfold exec_state, mbind, M_bind. unfold timer_elapse at 1. run. cbn.
    match goal with
    | |- loadFinished_slots (_on_wait_timeout env t callback ?s1).2 = _ =>
        exact (sp_loadFinished_slots _ _ (on_wait_timeout_same_page env t callback s1))
    end.
  - destruct (replies s !! r) as [q|]; [|done].
    destruct (rp_finished q); simplify_eq. clear Hsame.
    assert (∀ slots s1, (∃ more, loadFinished_slots s1 = loadFinished_slots s ++ more) →
              ∃ more,
                loadFinished_slots
                  (run_slots slots
                     (λ '(callback, errback, baseurl, url),
                        _on_baseurl_request_finished env callback errback baseurl url) s1)
                = loadFinished_slots s ++ more) as Hrun.
    { induction slots as [|[[[cb eb] b] u] slots IH]; intros s1 Hs1; [done|].
      cbn. apply IH. destruct Hs1 as [more Hs1].
      rewrite on_baseurl_request_finished_connects, Hs1, <- app_assoc. eauto. }
    apply Hrun. exists []. by rewrite app_nil_r.
  - by apply Hsame.
  - destruct (0 <=? d); simplify_eq. by apply Hsame.
Qed.

Lemma exec_loadFinished_slots acts s s' :
  exec env acts s = Some s' → ∃ more, loadFinished_slots s' = loadFinished_slots s ++ more.
Proof.
  revert s. induction acts as [|a acts IH]; intros s; cbn.
  { intros [= <-]. exists []. by rewrite app_nil_r. }
  destruct (step env a s) as [s1|] eqn:Hstep; [|done]. intros Hexec.
  destruct (step_loadFinished_slots a s s1 Hstep) as [more1 H1].
  destruct (IH s1 Hexec) as [more2 H2].
  exists (more1 ++ more2). by rewrite H2, H1, app_assoc.
Qed.

(** X18. A slot connected to load-finished is never disconnected: over
    any run the slots keep their order and only new ones are added, by
    [go] and by the slot of a reply.  So the callback and the errback of a
    [go] stay in reach of every later load-finished signal, those of the
    pages that later calls of [go] load included: in a tab that is not
    closing, each later signal with [ok] and no page error calls the
    callback again, and each later signal with a page error the
    errback. *)
Theorem load_finished_slots_stay_connected acts callback errback ok s s' :
  exec env acts s = Some s' → (callback, errback) ∈ loadFinished_slots s →
  (∃ more, loadFinished_slots s' = loadFinished_slots s ++ more)
  ∧ ∃ s2, step env (SignalLoadFinished ok) s' = Some s2
      ∧ (_closing s' = false → errorInfo s' = None → ok = true →
         (AtLoadFinishedCallback, callback) ∈ invocations (emitted s' s2))
      ∧ (_closing s' = false → is_Some (errorInfo s') →
         (AtLoadFinishedErrback, errback) ∈ invocations (emitted s' s2)).
Proof.
  intros Hexec Hin. destruct (exec_loadFinished_slots acts s s' Hexec) as [more Hmore].
  split; [eauto|]. eexists. split; [reflexivity|].
  destruct (load_finished_slots_calls env ok (loadFinished_slots s') s')
    as [(evs & Htr & Hev) _].
  rewrite (emitted_app _ _ _ Htr), Hev, Hmore. unfold load_finished_calls.
  split.
  - intros -> -> ->. apply list_elem_of_fmap. exists (callback, errback).
    split; [done|]. apply elem_of_app. by left.
  - intros -> [info ->]. apply list_elem_of_fmap. exists (callback, errback).
    split; [done|]. apply elem_of_app. by left.
Qed.

End SlotsStay.

Lemma load_finished_slots_stay_connected_witness :
  let s := tab_after sample_env [CallGo "http://example.com/a" 1%nat 2%nat None "GET" None]
             (new_tab 2 "1") in
  let acts := [SignalLoadFinished true;
               CallGo "http://example.com/b" 3%nat 4%nat None "GET" None] in
  let s' := tab_after sample_env acts s in
  exec sample_env acts s = Some s'
  ∧ (1%nat, 2%nat) ∈ loadFinished_slots s
  ∧ ∃ s2, step sample_env (SignalLoadFinished true) s' = Some s2
          ∧ invocations (emitted s' s2)
            = [(AtLoadFinishedCallback, 1%nat); (AtLoadFinishedCallback, 3%nat)].
Proof.
  cbv zeta.
  set (s := tab_after sample_env [CallGo "http://example.com/a" 1%nat 2%nat None "GET" None]
              (new_tab 2 "1")).
  set (acts := [SignalLoadFinished true;
                CallGo "http://example.com/b" 3%nat 4%nat None "GET" None]).
  assert (exec sample_env acts s = Some (tab_after sample_env acts s)) as H
    by (vm_compute; reflexivity).
  assert ((1%nat, 2%nat) ∈ loadFinished_slots s) as Hin.
  { replace (loadFinished_slots s) with [(1%nat, 2%nat)] by (vm_compute; reflexivity).
    apply list_elem_of_singleton. reflexivity. }
  split; [exact H|]. split; [exact Hin|].
  destruct (load_finished_slots_stay_connected sample_env acts 1%nat 2%nat true s _ H Hin)
    as (_ & s2 & Hstep & _).
  exists s2. split; [exact Hstep|].
  injection Hstep as <-. vm_compute. reflexivity.
Defined.

(** ** Default headers *)

Section DefaultHeaders.
Context (env : environment).

Lemma go_direct_state url u callback errback http_method meth body s :
  decode_utf8 env url = Some u → OPERATION_QT_CONSTANTS env !! http_method = Some meth →
  let s' := exec_state (go env url callback errback None http_method body) s in
  trace s' = trace s ++ [StoreHarTiming "_onStarted"; FrameLoad (request_for u s) meth body]
  ∧ custom_user_agent s'
    = match user_agent_of (default [] (_default_headers s)) with
      | Some value => Some value
      | None => custom_user_agent s
      end
  ∧ _default_headers s' = _default_headers s.
Proof.
  intros Hd Hm. cbv zeta. unfold exec_state. rewrite go_direct_run by done.
  unfold _load_url_to_mainframe, mbind, M_bind. rewrite (create_request_run env url u) by done.
  rewrite Hm. unfold request_for. cbn [_default_headers set_loadFinished_slots set_trace].
  destruct (user_agent_of (default [] (_default_headers s))); run; cbn.
  all: by rewrite <- app_assoc.
Qed.

(** X19. [set_default_headers] only stores the headers: no request is
    made and the user agent of the page stays as it is.  The headers take
    effect when [go] builds its next request: that request carries
    exactly the stored headers, and a user-agent header among them becomes
    the user agent of the page then.  The user agent is never reset:
    after the default headers have been set to [None] the requests carry
    no header, but the page keeps the user agent of the headers that are
    gone. *)
Theorem default_headers_apply_at_next_request
    headers url u callback errback http_method meth body s :
  decode_utf8 env url = Some u → OPERATION_QT_CONSTANTS env !! http_method = Some meth →
  let load h := {| req_url := u; req_raw_headers := h; req_originating_object := false |} in
  let s1 := exec_state (set_default_headers headers) s in
  let s2 := exec_state (go env url callback errback None http_method body) s1 in
  let s3 := exec_state (set_default_headers None) s2 in
  let s4 := exec_state (go env url callback errback None http_method body) s3 in
  emitted s s1 = [] ∧ custom_user_agent s1 = custom_user_agent s
  ∧ emitted s1 s2
    = [StoreHarTiming "_onStarted"; FrameLoad (load (default [] headers)) meth body]
  ∧ custom_user_agent s2
    = match user_agent_of (default [] headers) with
      | Some value => Some value
      | None => custom_user_agent s
      end
  ∧ emitted s3 s4 = [StoreHarTiming "_onStarted"; FrameLoad (load []) meth body]
  ∧ custom_user_agent s4 = custom_user_agent s2.
Proof.
  intros Hd Hm. cbv zeta.
  set (s1 := exec_state (set_default_headers headers) s).
  destruct (go_direct_state url u callback errback http_method meth body s1 Hd Hm)
    as (Ht2 & Hua2 & _).
  set (s2 := exec_state (go env url callback errback None http_method body) s1) in *.
  set (s3 := exec_state (set_default_headers None) s2).
  destruct (go_direct_state url u callback errback http_method meth body s3 Hd Hm)
    as (Ht4 & Hua4 & _).
  split; [by apply emitted_app; rewrite app_nil_r|]. split; [done|].
  split; [by apply emitted_app|]. split; [exact Hua2|].
  split; [by apply emitted_app|]. exact Hua4.
Qed.

End DefaultHeaders.

Lemma default_headers_apply_at_next_request_witness :
  let headers := Some [("Accept", "text/html"); ("User-Agent", "splash")] in
  let s1 := exec_state (set_default_headers headers) (new_tab 2 "1") in
  let s2 := exec_state (go sample_env "http://example.com/" 1%nat 2%nat None "GET" None) s1 in
  let s3 := exec_state (set_default_headers None) s2 in
  let s4 := exec_state (go sample_env "http://example.com/" 1%nat 2%nat None "GET" None) s3 in
  decode_utf8 sample_env "http://example.com/" = Some "http://example.com/"
  ∧ OPERATION_QT_CONSTANTS sample_env !! "GET" = Some 2
  ∧ custom_user_agent s1 = None
  ∧ custom_user_agent s2 = Some "splash"
  ∧ _default_headers s4 = None
  ∧ custom_user_agent s4 = Some "splash".
Proof.
  cbv zeta.
  assert (decode_utf8 sample_env "http://example.com/" = Some "http://example.com/")
    as Hd by reflexivity.
  assert (OPERATION_QT_CONSTANTS sample_env !! "GET" = Some 2) as Hm
    by (vm_compute; reflexivity).
  split; [exact Hd|]. split; [exact Hm|].
  destruct (default_headers_apply_at_next_request sample_env
              (Some [("Accept", "text/html"); ("User-Agent", "splash")])
              "http://example.com/" _ 1%nat 2%nat "GET" 2 None (new_tab 2 "1") Hd Hm)
    as (_ & H1 & _ & H2 & _ & H4).
  split; [exact H1|]. split; [exact H2|]. split; [vm_compute; reflexivity|].
  rewrite H4. exact H2.
Defined.
